(** * Concurrent image-filter engine: a shallow embedding

    The development follows the two programs of the repository,
    [prueba.py] (three-strategy variant, task triples) and [prueba2.py]
    (sequential-then-parallel variant, task quadruples carrying a method
    tag).  Image decoding, filtering and encoding (PIL), the clock and the
    file system are external collaborators: they are kept abstract behind
    the [Imaging] interface, every call may fail with a Python
    [Exception], and the calls made are recorded in a ghost log so that
    theorems can speak about what was asked of the collaborator.

    Python [float]s are idealised as exact rationals ([Q]); a [str] is
    the byte string of its UTF-8 encoding; the [os.path] functions are
    the POSIX ones. *)

From Stdlib Require Import ZArith QArith Lia String Ascii.
From stdpp Require Import base tactics option list relations gmap strings.

Local Open Scope list_scope.
Local Open Scope string_scope.

(** ** Python strings: the few [str] methods the programs use *)

Module PyStr.

(** [s[n:]] for [0 <= n]. *)
Fixpoint drop (n : nat) (s : string) : string :=
  match n, s with
  | O, _ => s
  | S n', String _ s' => drop n' s'
  | S _, EmptyString => EmptyString
  end.

(** [s[:n]] for [0 <= n]. *)
Fixpoint take (n : nat) (s : string) : string :=
  match n, s with
  | O, _ => EmptyString
  | S n', String c s' => String c (take n' s')
  | S _, EmptyString => EmptyString
  end.

(** [s.rfind(c)]: the highest index holding [c], or [-1]. *)
Fixpoint rfind_from (c : ascii) (s : string) (i : Z) (found : Z) : Z :=
  match s with
  | EmptyString => found
  | String a s' => rfind_from c s' (i + 1) (if Ascii.eqb a c then i else found)
  end.

Definition rfind (c : ascii) (s : string) : Z := rfind_from c s 0 (-1).

(** [s.startswith(c)] and [s.endswith(c)] for a one-character [c]. *)
Definition startswith (c : ascii) (s : string) : bool :=
  match s with
  | String a _ => Ascii.eqb a c
  | EmptyString => false
  end.

Fixpoint endswith (c : ascii) (s : string) : bool :=
  match s with
  | EmptyString => false
  | String a EmptyString => Ascii.eqb a c
  | String _ s' => endswith c s'
  end.

(** The ASCII part of [s.lower()]: the letters [A]-[Z] are lowered and
    every other byte is left as it is.  This is [s.lower()] when [s] is
    ASCII; the suffix test of [drop_event], against the ASCII suffixes
    [.png], [.jpg], [.jpeg], [.bmp] and [.gif], needs no more. *)
Definition lower_ascii (a : ascii) : ascii :=
  let n := nat_of_ascii a in
  if (65 <=? n)%nat && (n <=? 90)%nat then ascii_of_nat (n + 32) else a.

Fixpoint lower (s : string) : string :=
  match s with
  | EmptyString => EmptyString
  | String a s' => String (lower_ascii a) (lower s')
  end.

(** [s.isascii()]: every byte is below 128. *)
Fixpoint isascii (s : string) : bool :=
  match s with
  | EmptyString => true
  | String a s' => (nat_of_ascii a <? 128)%nat && isascii s'
  end.

(** [s.lower()] in full.  Off ASCII, [str.lower] follows the case
    mappings of the interpreter's Unicode tables (accented capitals,
    Greek, Cyrillic, the final sigma, ...), which belong to the
    interpreter and not to the programs: the function is kept abstract.
    Its one law is what it does to an ASCII string.  Whatever is proved
    of a program that lowers a string is proved for every such function,
    the one of the interpreter included. *)
Class Unicode : Type := {
  str_lower : string -> string;
  str_lower_ascii : forall s : string, isascii s = true -> str_lower s = lower s
}.

(** [needle in s]. *)
Fixpoint contains (needle s : string) : bool :=
  String.prefix needle s ||
  match s with
  | EmptyString => false
  | String _ s' => contains needle s'
  end.

(** [s.endswith(suffix)] for a string [suffix]: the last [len(suffix)]
    characters of [s] are [suffix]. *)
Definition endswith_str (suffix s : string) : bool :=
  (String.length suffix <=? String.length s)%nat
  && String.eqb (drop (String.length s - String.length suffix) s) suffix.

(** [s.endswith((a, b, ...))]: some member of the tuple is a suffix. *)
Definition endswith_tuple (suffixes : list string) (s : string) : bool :=
  existsb (fun suffix => endswith_str suffix s) suffixes.

End PyStr.

(** ** [os.path] (posixpath): [basename], [splitext], [join] *)

Module OsPath.
Import PyStr.

Definition sep : ascii := "/"%char.
Definition extsep : ascii := "."%char.

(** [i = p.rfind(sep) + 1; return p[i:]] *)
Definition basename (p : string) : string :=
  let i := (rfind sep p + 1)%Z in
  drop (Z.to_nat i) p.

(** The [while filenameIndex < dotIndex] loop of [genericpath._splitext]:
    [true] as soon as a character that is not a dot is met. *)
Fixpoint skip_leading_dots (steps : nat) (filenameIndex : nat) (p : string) : bool :=
  match steps with
  | O => false
  | S steps' =>
      if negb (String.eqb (take 1 (drop filenameIndex p)) (String extsep EmptyString))
      then true
      else skip_leading_dots steps' (S filenameIndex) p
  end.

Definition splitext (p : string) : string * string :=
  let sepIndex := rfind sep p in
  let dotIndex := rfind extsep p in
  if (sepIndex <? dotIndex)%Z then
    let filenameIndex := (sepIndex + 1)%Z in
    if skip_leading_dots (Z.to_nat (dotIndex - filenameIndex)) (Z.to_nat filenameIndex) p
    then (take (Z.to_nat dotIndex) p, drop (Z.to_nat dotIndex) p)
    else (p, EmptyString)
  else (p, EmptyString).

(** [os.path.join(a, b)] with one component [b]. *)
Definition join (a b : string) : string :=
  if startswith sep b then b
  else if (String.eqb a EmptyString || endswith sep a)%bool then a ++ b
  else a ++ String sep EmptyString ++ b.

End OsPath.

(** ** Python floats, idealised as rationals *)

Module PyFloat.

(** Python's [/]: [None] is [ZeroDivisionError]. *)
Definition py_div (a b : Q) : option Q :=
  if Qeq_bool b 0 then None else Some (a / b)%Q.

(** [sum(samples)] *)
Definition sum (samples : list Q) : Q := fold_left Qplus samples 0%Q.

(** [len(samples)] as a float operand. *)
Definition len {A} (l : list A) : Q := inject_Z (Z.of_nat (length l)).

(** The arithmetic mean of a history. *)
Definition mean (samples : list Q) : Q := (sum samples / len samples)%Q.

End PyFloat.

(** ** Effects: exceptions, events, programs *)

(** A Python exception of class [Exception] (what PIL, [os] and [time]
    raise on failure); [str e] is its message. *)
Inductive exn : Type := Exception (msg : string).

Definition str (e : exn) : string := match e with Exception msg => msg end.

(** How a call to a collaborator comes back: it raises or it returns. *)
Definition answer (X : Type) : Type := (exn + X)%type.

(** How a run ends: it returns, it raises, or (a blocking
    [Semaphore.acquire] with no permit left) it does not come back. *)
Inductive outcome (A : Type) : Type :=
| Returned (a : A)
| Raised (e : exn)
| Blocked.
Arguments Returned {A} a.
Arguments Raised {A} e.
Arguments Blocked {A}.

(** The kernels of [PIL.ImageFilter] the programs name. *)
Inductive kernel : Type := BLUR | CONTOUR | EMBOSS | SHARPEN | DETAIL | FIND_EDGES.

(** What a task asks of the outside: the imaging library, the clock, and
    the application's gate.  The index is the type of the value that comes
    back. *)
Inductive event (Img : Type) : Type -> Type :=
| Sleep : event Img unit                                  (* time.sleep(0.1) *)
| Open (path : string) : event Img Img                    (* Image.open(path) *)
| Convert (im : Img) (mode : string) : event Img Img      (* im.convert(mode) *)
| Filter (im : Img) (k : kernel) : event Img Img          (* im.filter(k) *)
| Save (im : Img) (path : string) : event Img unit        (* im.save(path) *)
| Time : event Img Q                                      (* time.time() *)
| Acquire : event Img unit                                (* self.semaphore.acquire() *)
| Release : event Img unit.                               (* self.semaphore.release() *)
Arguments Sleep {Img}.
Arguments Open {Img} path.
Arguments Convert {Img} im mode.
Arguments Filter {Img} im k.
Arguments Save {Img} im path.
Arguments Time {Img}.
Arguments Acquire {Img}.
Arguments Release {Img}.

(** An entry of the ghost log: an event that was performed. *)
Inductive entry (Img : Type) : Type :=
| Did (X : Type) (ev : event Img X).
Arguments Did {Img X} ev.

(** A piece of Python code, as the tree of the events it performs: each
    node waits for the answer of the outside and goes on from it. *)
Inductive prog (Img A : Type) : Type :=
| Ret (a : A)
| Raise (e : exn)
| Vis (X : Type) (ev : event Img X) (k : answer X -> prog Img A).
Arguments Ret {Img A} a.
Arguments Raise {Img A} e.
Arguments Vis {Img A X} ev k.

Section Programs.
Context {Img : Type}.

Definition ret {A} (a : A) : prog Img A := Ret a.

Fixpoint bind {A B} (c : prog Img A) (k : A -> prog Img B) : prog Img B :=
  match c with
  | Ret a => k a
  | Raise e => Raise e
  | Vis ev h => Vis ev (fun x => bind (h x) k)
  end.

(** [try: body except Exception as e: handler(e)] *)
Fixpoint try_except {A} (body : prog Img A) (handler : exn -> prog Img A) : prog Img A :=
  match body with
  | Ret a => Ret a
  | Raise e => handler e
  | Vis ev h => Vis ev (fun x => try_except (h x) handler)
  end.

(** [try: body finally: cleanup]: the cleanup runs on both exits of the
    body, which then returns or raises as it was about to. *)
Fixpoint try_finally {A} (body : prog Img A) (cleanup : prog Img unit) : prog Img A :=
  match body with
  | Ret a => bind cleanup (fun _ => Ret a)
  | Raise e => bind cleanup (fun _ => Raise e)
  | Vis ev h => Vis ev (fun x => try_finally (h x) cleanup)
  end.

(** A call to the outside: its answer is returned, or raised. *)
Definition perform {X} (ev : event Img X) : prog Img X :=
  Vis ev (fun x => match x with inl e => Raise e | inr v => Ret v end).

Definition time_sleep : prog Img unit := perform Sleep.
Definition Image_open (path : string) : prog Img Img := perform (Open path).
Definition img_convert (im : Img) (mode : string) : prog Img Img := perform (Convert im mode).
Definition img_filter (im : Img) (k : kernel) : prog Img Img := perform (Filter im k).
Definition img_save (im : Img) (path : string) : prog Img unit := perform (Save im path).
Definition time_time : prog Img Q := perform Time.
Definition acquire : prog Img unit := perform Acquire.
Definition release : prog Img unit := perform Release.

End Programs.

(** The collaborators: each operation reads and updates the outside world
    and may raise. *)
Class Imaging (World Img : Type) : Type := {
  sleep_op : World -> answer unit * World;
  open_op : string -> World -> answer Img * World;
  convert_op : Img -> string -> World -> answer Img * World;
  filter_op : Img -> kernel -> World -> answer Img * World;
  save_op : Img -> string -> World -> answer unit * World;
  clock : World -> Q
}.

Section Machine.
Context {World Img : Type} `{Imaging World Img}.

(** What the threads of the application share: the outside world, the
    application's gate ([self.semaphore]: the permits left in its
    [threading.Semaphore] and its [active_processes] tally) and the
    ghost log. *)
Record machine : Type := Machine {
  world : World;
  semaphore_value : Z;
  active_processes : Z;
  calls : list (entry Img)
}.

Definition outside {X} (ev : event Img X) (ans : answer X) (w : World) (m : machine) : machine :=
  {| world := w; semaphore_value := semaphore_value m;
     active_processes := active_processes m;
     calls := (calls m ++ [Did ev])%list |}.

Definition gate {X} (ev : event Img X) (permits active : Z) (m : machine) : machine :=
  {| world := world m; semaphore_value := permits; active_processes := active;
     calls := (calls m ++ [Did ev])%list |}.

(** One event, performed atomically on the shared state.  [None]: the
    event cannot be performed now (no permit: the caller waits).
    [ProcessingSemaphore.acquire] takes a permit and then counts the
    caller in; [release] counts it out and then gives the permit back. *)
Definition handle {X} (ev : event Img X) (m : machine) : option (answer X * machine) :=
  match ev in event _ X return option (answer X * machine) with
  | Sleep => let '(a, w) := sleep_op (world m) in Some (a, outside Sleep a w m)
  | Open path => let '(a, w) := open_op path (world m) in Some (a, outside (Open path) a w m)
  | Convert im mode =>
      let '(a, w) := convert_op im mode (world m) in Some (a, outside (Convert im mode) a w m)
  | Filter im k =>
      let '(a, w) := filter_op im k (world m) in Some (a, outside (Filter im k) a w m)
  | Save im path =>
      let '(a, w) := save_op im path (world m) in Some (a, outside (Save im path) a w m)
  | Time => Some (inr (clock (world m)), outside Time (inr (clock (world m))) (world m) m)
  | Acquire =>
      if (0 <? semaphore_value m)%Z
      then Some (inr tt, gate Acquire (semaphore_value m - 1) (active_processes m + 1) m)
      else None
  | Release =>
      Some (inr tt, gate Release (semaphore_value m + 1) (active_processes m - 1) m)
  end.

(** A program run by one thread with nobody else around. *)
Fixpoint run {A} (p : prog Img A) (m : machine) : outcome A * machine :=
  match p with
  | Ret a => (Returned a, m)
  | Raise e => (Raised e, m)
  | Vis ev k =>
      match handle ev m with
      | Some (ans, m') => run (k ans) m'
      | None => (Blocked, m)
      end
  end.

End Machine.

Declare Scope py_scope.
Delimit Scope py_scope with py.
Notation "x <- c ;; k" := (bind c (fun x => k))
  (at level 100, c at next level, right associativity) : py_scope.
Notation "c ;;; k" := (bind c (fun _ => k))
  (at level 100, right associativity) : py_scope.

(** The seven filter names of the interface. *)
Definition recognized (selected_filter : string) : bool :=
  String.eqb selected_filter "Desenfoque" || String.eqb selected_filter "Grises"
  || String.eqb selected_filter "Contorno" || String.eqb selected_filter "Emboss"
  || String.eqb selected_filter "Sharpen" || String.eqb selected_filter "Detalles"
  || String.eqb selected_filter "Bordes".

(** ** prueba2.py: tasks carry a method tag *)

Module Prueba2.

(** The result dictionaries: [status] is ["OK"] or ["ERROR"]. *)
Inductive result : Type :=
| OK (original output message filter method : string)
| ERROR (original message method : string).

Definition status (r : result) : string :=
  match r with OK _ _ _ _ _ => "OK" | ERROR _ _ _ => "ERROR" end.

Definition original (r : result) : string :=
  match r with OK o _ _ _ _ => o | ERROR o _ _ => o end.

Definition message (r : result) : string :=
  match r with OK _ _ msg _ _ => msg | ERROR _ msg _ => msg end.

Definition method (r : result) : string :=
  match r with OK _ _ _ _ m => m | ERROR _ _ m => m end.

Definition output (r : result) : option string :=
  match r with OK _ out _ _ _ => Some out | ERROR _ _ _ => None end.

(** A task: (image path, filter name, output folder, method). *)
Abbreviation task := (string * string * string * string)%type.

Definition source_path (t : task) : string :=
  let '(image_path, _, _, _) := t in image_path.

(** [task = (image_path, selected_filter, output_folder, "actor")] *)
Definition actor_task (image_path selected_filter output_folder : string) : task :=
  (image_path, selected_filter, output_folder, "actor").

Section Engine.
Context {Img : Type}.
Local Open Scope py_scope.

Definition process_image (args : task) : prog Img result :=
  let '(image_path, selected_filter, output_folder, method) := args in
  try_except
    (time_sleep ;;;
     img <- Image_open image_path ;;
     img <- img_convert img "RGB" ;;
     img <- (if String.eqb selected_filter "Desenfoque" then img_filter img BLUR
             else if String.eqb selected_filter "Grises" then img_convert img "L"
             else if String.eqb selected_filter "Contorno" then img_filter img CONTOUR
             else if String.eqb selected_filter "Emboss" then img_filter img EMBOSS
             else if String.eqb selected_filter "Sharpen" then img_filter img SHARPEN
             else if String.eqb selected_filter "Detalles" then img_filter img DETAIL
             else if String.eqb selected_filter "Bordes" then img_filter img FIND_EDGES
             else ret img) ;;
     let base := OsPath.basename image_path in
     let '(name, ext) := OsPath.splitext base in
     let output_filename := name ++ "_" ++ method ++ ext in
     let output_path := OsPath.join output_folder output_filename in
     img_save img output_path ;;;
     ret (OK image_path output_path ("Procesado: " ++ base ++ " (" ++ method ++ ")")
             selected_filter method))
    (fun e =>
       ret (ERROR image_path
              ("Error en " ++ OsPath.basename image_path ++ ": " ++ str e)
              method)).

(** The [for image_path in image_paths] loop, [results] being the list
    appended to. *)
Fixpoint sequential_loop (image_paths : list string) (selected_filter output_folder : string)
    (results : list result) : prog Img (list result) :=
  match image_paths with
  | [] => ret results
  | image_path :: rest =>
      result <- process_image (image_path, selected_filter, output_folder, "secuencial") ;;
      sequential_loop rest selected_filter output_folder (results ++ [result])%list
  end.

Definition process_image_sequential (image_paths : list string)
    (selected_filter output_folder : string) : prog Img (list result * Q) :=
  start_time <- time_time ;;
  results <- sequential_loop image_paths selected_filter output_folder [] ;;
  now <- time_time ;;
  let elapsed_time := (now - start_time)%Q in
  ret (results, elapsed_time).

(** The wrapper submitted to the thread pool by
    [run_multithread_version]. *)
Definition process_with_semaphore (task0 : task) : prog Img result :=
  acquire ;;;
  try_finally
    (result <- process_image task0 ;;
     ret result)
    release.

End Engine.

(** *** Round-robin submission of [process_image_actor] *)

(** [actors[k]] on a Python list: negative indices count from the end,
    [None] is [IndexError]. *)
Definition py_index {A} (l : list A) (k : Z) : option nat :=
  let n := Z.of_nat (length l) in
  if (0 <=? k)%Z && (k <? n)%Z then Some (Z.to_nat k)
  else if (k <? 0)%Z && (- n <=? k)%Z then Some (Z.to_nat (n + k))
  else None.

(** [for i, image_path in enumerate(image_paths): ...
    actors[i % num_actors].submit(task)]: [inboxes !! k] is what actor
    [k] has been sent so far, oldest first.  [None] when the loop
    raises ([ZeroDivisionError] for no actors, [IndexError]). *)
Fixpoint submit_all (i : Z) (image_paths : list string)
    (selected_filter output_folder : string) (num_actors : Z)
    (inboxes : list (list task)) : option (list (list task)) :=
  match image_paths with
  | [] => Some inboxes
  | image_path :: rest =>
      let task0 := (image_path, selected_filter, output_folder, "actor") in
      if (num_actors =? 0)%Z then None
      else
        match py_index inboxes (i mod num_actors) with
        | Some k =>
            match inboxes !! k with
            | Some q =>
                submit_all (i + 1) rest selected_filter output_folder num_actors
                  (<[k := (q ++ [task0])%list]> inboxes)
            | None => None
            end
        | None => None
        end
  end.

(** [for _ in range(num_actors): actors.append(ProcessingActor(...))]
    followed by the submission loop. *)
Definition distribute (image_paths : list string) (selected_filter output_folder : string)
    (num_actors : Z) : option (list (list task)) :=
  submit_all 0 image_paths selected_filter output_folder num_actors
    (replicate (Z.to_nat num_actors) []).

(** [ThreadPoolExecutor(max_workers=4)], [ProcessingSemaphore(max_concurrent=4)],
    [num_actors=4]: the width of both parallel strategies of the
    application. *)
Definition max_workers : Z := 4.

(** *** Metrics of [PhotoFilterApp.update_metrics] *)

Import PyFloat.

Record labels : Type := Labels {
  lbl_secuencial : option Q;
  lbl_paralelo : option Q;
  lbl_speedup : option Q;
  lbl_eficiencia : option Q
}.

(** The labels written by [update_metrics] from
    [execution_times["Secuencial"]] and [execution_times["Paralelo"]];
    [None] at top level is [ZeroDivisionError], a [None] label is a label
    left as it was. *)
Definition update_metrics (secuencial paralelo : Q) : option labels :=
  let l1 := if Qlt_le_dec 0 secuencial then Some secuencial else None in
  if Qlt_le_dec 0 paralelo then
    if Qlt_le_dec 0 paralelo then
      match py_div secuencial paralelo with
      | Some speedup =>
          match py_div speedup 4 with
          | Some q =>
              let efficiency := (q * 100)%Q in
              Some (Labels l1 (Some paralelo) (Some speedup) (Some efficiency))
          | None => None
          end
      | None => None
      end
    else Some (Labels l1 (Some paralelo) None None)
  else Some (Labels l1 None None None).

End Prueba2.

(** ** prueba.py: task triples, the filter name is the file tag *)

Module Prueba.

Inductive result : Type :=
| OK (original output message filter : string)
| ERROR (original message : string).

Definition status (r : result) : string :=
  match r with OK _ _ _ _ => "OK" | ERROR _ _ => "ERROR" end.

Definition original (r : result) : string :=
  match r with OK o _ _ _ => o | ERROR o _ => o end.

Definition message (r : result) : string :=
  match r with OK _ _ msg _ => msg | ERROR _ msg => msg end.

Definition output (r : result) : option string :=
  match r with OK _ out _ _ => Some out | ERROR _ _ => None end.

(** A task: (image path, filter name, output folder). *)
Abbreviation task := (string * string * string)%type.

Definition source_path (t : task) : string :=
  let '(image_path, _, _) := t in image_path.

(** [task = (image_path, selected_filter, output_folder)] *)
Definition actor_task (image_path selected_filter output_folder : string) : task :=
  (image_path, selected_filter, output_folder).

Section Engine.
Context {Img : Type}.
Context {U : PyStr.Unicode}.
Local Open Scope py_scope.

Definition process_image (args : task) : prog Img result :=
  let '(image_path, selected_filter, output_folder) := args in
  try_except
    (time_sleep ;;;
     img <- Image_open image_path ;;
     img <- img_convert img "RGB" ;;
     img <- (if String.eqb selected_filter "Desenfoque" then img_filter img BLUR
             else if String.eqb selected_filter "Grises" then img_convert img "L"
             else if String.eqb selected_filter "Contorno" then img_filter img CONTOUR
             else if String.eqb selected_filter "Emboss" then img_filter img EMBOSS
             else if String.eqb selected_filter "Sharpen" then img_filter img SHARPEN
             else if String.eqb selected_filter "Detalles" then img_filter img DETAIL
             else if String.eqb selected_filter "Bordes" then img_filter img FIND_EDGES
             else ret img) ;;
     let base := OsPath.basename image_path in
     let '(name, ext) := OsPath.splitext base in
     let output_filename := name ++ "_" ++ PyStr.str_lower selected_filter ++ ext in
     let output_path := OsPath.join output_folder output_filename in
     img_save img output_path ;;;
     ret (OK image_path output_path ("Procesado: " ++ base) selected_filter))
    (fun e =>
       ret (ERROR image_path
              ("Error en " ++ OsPath.basename image_path ++ ": " ++ str e))).

Fixpoint sequential_loop (image_paths : list string) (selected_filter output_folder : string)
    (results : list result) : prog Img (list result) :=
  match image_paths with
  | [] => ret results
  | image_path :: rest =>
      result <- process_image (image_path, selected_filter, output_folder) ;;
      sequential_loop rest selected_filter output_folder (results ++ [result])%list
  end.

Definition process_image_sequential (image_paths : list string)
    (selected_filter output_folder : string) : prog Img (list result * Q) :=
  start_time <- time_time ;;
  results <- sequential_loop image_paths selected_filter output_folder [] ;;
  now <- time_time ;;
  let elapsed_time := (now - start_time)%Q in
  ret (results, elapsed_time).

(** The wrapper of [run_multithread_processing]. *)
Definition process_with_semaphore (task0 : task) : prog Img result :=
  acquire ;;;
  try_finally
    (result <- process_image task0 ;;
     ret result)
    release.

End Engine.

(** [ProcessPoolExecutor(max_workers=4)], [ThreadPoolExecutor(max_workers=4)],
    [ProcessingSemaphore(max_concurrent=4)], [num_actors=4]: the width
    of every parallel strategy of the application. *)
Definition max_workers : Z := 4.

(** *** Metrics of [PhotoFilterApp.update_comparison_chart] *)

Record metrics : Type := Metrics {
  sequential : list Q;
  parallel_process : list Q;
  parallel_thread : list Q;
  actor_model : list Q
}.

Import PyFloat.

(** [sum(samples) / len(samples)] *)
Definition average (samples : list Q) : option Q :=
  py_div (sum samples) (len samples).

(** The bar heights: [sum / len] for a strategy with samples, [0]
    otherwise. *)
Definition avg_time (samples : list Q) : option Q :=
  match samples with
  | [] => Some 0%Q
  | _ => average samples
  end.

(** The tail of [update_comparison_chart]: the two logged figures
    (speedup, efficiency) when they are logged.  The outer [None] is
    [ZeroDivisionError]; [Some None] logs nothing. *)
Definition speedup_report (m : metrics) (image_paths : list string) : option (option (Q * Q)) :=
  match sequential m, parallel_process m with
  | _ :: _, _ :: _ =>
      match average (sequential m) with
      | Some seq_avg =>
          match average (parallel_process m) with
          | Some par_avg =>
              if Qlt_le_dec 0 par_avg then
                match py_div seq_avg par_avg with
                | Some speedup =>
                    let theoretical_max := len image_paths in
                    if Qlt_le_dec 0 theoretical_max then
                      match py_div speedup theoretical_max with
                      | Some q => Some (Some (speedup, (q * 100)%Q))
                      | None => None
                      end
                    else Some (Some (speedup, 0%Q))
                | None => None
                end
              else Some None
          | None => None
          end
      | None => None
      end
  | _, _ => Some None
  end.

(** The whole of [update_comparison_chart] that computes: the four bar
    heights, then the report. *)
Definition update_comparison_chart (m : metrics) (image_paths : list string)
    : option (list Q * option (Q * Q)) :=
  match avg_time (sequential m), avg_time (parallel_process m),
        avg_time (parallel_thread m), avg_time (actor_model m) with
  | Some a, Some b, Some c, Some d =>
      match speedup_report m image_paths with
      | Some report => Some ([a; b; c; d], report)
      | None => None
      end
  | _, _, _, _ => None
  end.

End Prueba.

(** ** SharedCounter *)

Module SharedCounter.

(** *** One caller at a time *)

Definition __init__ : Z := 0%Z.

(** [increment] returns the pair (returned value, new [_value]). *)
Definition increment (_value : Z) : Z * Z :=
  let _value := (_value + 1)%Z in
  (_value, _value).

Definition get_value (_value : Z) : Z := _value.

(** *** Many threads: the lock and the read-modify-write made explicit *)

(** Where a thread is inside [increment]. *)
Inductive pc : Type :=
| Outside                 (* not in a call *)
| Locked                  (* entered [with self._lock] *)
| Loaded (v : Z)          (* has read [self._value] *)
| Stored.                 (* has written [self._value], about to return it *)

Record thread : Type := Thread { at_pc : pc; todo : nat }.

Record state : Type := State {
  value : Z;
  lock : option nat;             (* the thread holding [self._lock] *)
  threads : list thread;
  returns : list Z               (* ghost: values returned, in return order *)
}.

(** A counter fresh from [__init__], and threads that will call
    [increment] the given numbers of times. *)
Definition init (calls_per_thread : list nat) : state :=
  {| value := __init__; lock := None;
     threads := map (Thread Outside) calls_per_thread; returns := [] |}.

Inductive step : state -> state -> Prop :=
| step_lock s i n :
    threads s !! i = Some (Thread Outside (S n)) ->
    lock s = None ->
    step s {| value := value s; lock := Some i;
              threads := <[i := Thread Locked (S n)]> (threads s);
              returns := returns s |}
| step_load s i n :
    threads s !! i = Some (Thread Locked n) ->
    step s {| value := value s; lock := lock s;
              threads := <[i := Thread (Loaded (value s)) n]> (threads s);
              returns := returns s |}
| step_store s i n v :
    threads s !! i = Some (Thread (Loaded v) n) ->
    step s {| value := (v + 1)%Z; lock := lock s;
              threads := <[i := Thread Stored n]> (threads s);
              returns := returns s |}
| step_return s i n :
    threads s !! i = Some (Thread Stored n) ->
    step s {| value := value s; lock := None;
              threads := <[i := Thread Outside (pred n)]> (threads s);
              returns := (returns s ++ [value s])%list |}.

(** [get_value()] needs the lock: it reads when no increment holds it. *)
Definition observe (s : state) : option Z :=
  match lock s with
  | None => Some (get_value (value s))
  | Some _ => None
  end.

Definition finished (s : state) : Prop :=
  Forall (fun t => t = Thread Outside 0) (threads s).

Definition pending (ts : list thread) : nat := sum_list (map todo ts).

(** Steps taken inside the current call. *)
Definition phase (p : pc) : nat :=
  match p with Outside => 0 | Locked => 1 | Loaded _ => 2 | Stored => 3 end.

(** Steps taken since [init]: four for each call that returned, and
    those of the call under way. *)
Definition work (s : state) : nat :=
  4 * length (returns s) + sum_list (map (fun t => phase (at_pc t)) (threads s)).

#[global] Instance pc_eq_dec : EqDecision pc.
Proof. solve_decision. Defined.

#[global] Instance thread_eq_dec : EqDecision thread.
Proof. solve_decision. Defined.

(** What holds in every state the threads can reach, [n] being the
    number of increments asked for in all. *)
Record invariant (n : nat) (s : state) : Prop := Invariant {
  (* a thread inside [increment] holds the lock and has a call to finish *)
  inside_holds : forall i t, threads s !! i = Some t -> at_pc t <> Outside ->
                             lock s = Some i /\ (0 < todo t)%nat;
  (* the lock is held by a thread inside [increment] *)
  holder_inside : forall i, lock s = Some i ->
                            exists t, threads s !! i = Some t /\ at_pc t <> Outside;
  (* the value, when nobody is in the critical section *)
  value_free : lock s = None -> value s = Z.of_nat (length (returns s));
  (* the value, as the holder of the lock sees it *)
  value_held : forall i t, threads s !! i = Some t ->
               match at_pc t with
               | Outside => True
               | Locked => value s = Z.of_nat (length (returns s))
               | Loaded v => v = value s /\ value s = Z.of_nat (length (returns s))
               | Stored => value s = (Z.of_nat (length (returns s)) + 1)%Z
               end;
  (* the values returned so far are 1, 2, 3, ... in that order *)
  returns_count : returns s = map Z.of_nat (seq 1 (length (returns s)));
  (* every increment asked for is returned or still to do *)
  accounted : (pending (threads s) + length (returns s) = n)%nat
}.

End SharedCounter.

(** ** ProcessingSemaphore under concurrent callers *)

Module ProcessingSemaphore.

(** Where a thread is in its acquire ... release cycle. *)
Inductive pc : Type :=
| Idle                    (* holds nothing *)
| Permit                  (* [self.semaphore.acquire()] has returned *)
| IncLocked               (* in [with self._lock] of [acquire] *)
| IncLoaded (v : Z)       (* has read [active_processes] *)
| IncStored               (* has written [v + 1] *)
| Holding                 (* [acquire()] has returned: the guarded work *)
| DecLocked               (* in [with self._lock] of [release] *)
| DecLoaded (v : Z)
| DecStored               (* has written [v - 1] *)
| Returning.              (* lock given back, before [self.semaphore.release()] *)

Record state : Type := State {
  semaphore : Z;                 (* permits left in [threading.Semaphore] *)
  active_processes : Z;
  _lock : option nat;            (* the thread holding [self._lock] *)
  threads : list pc
}.

(** [ProcessingSemaphore(max_concurrent)] and [n] threads holding nothing. *)
Definition init (max_concurrent : Z) (n : nat) : state :=
  {| semaphore := max_concurrent; active_processes := 0; _lock := None;
     threads := replicate n Idle |}.

Definition goto (s : state) (i : nat) (p : pc) : list pc := <[i := p]> (threads s).

Inductive step : state -> state -> Prop :=
(* acquire *)
| sem_acquire s i :
    threads s !! i = Some Idle -> (0 < semaphore s)%Z ->
    step s (State (semaphore s - 1) (active_processes s) (_lock s) (goto s i Permit))
| inc_lock s i :
    threads s !! i = Some Permit -> _lock s = None ->
    step s (State (semaphore s) (active_processes s) (Some i) (goto s i IncLocked))
| inc_load s i :
    threads s !! i = Some IncLocked ->
    step s (State (semaphore s) (active_processes s) (_lock s)
              (goto s i (IncLoaded (active_processes s))))
| inc_store s i v :
    threads s !! i = Some (IncLoaded v) ->
    step s (State (semaphore s) (v + 1) (_lock s) (goto s i IncStored))
| inc_unlock s i :
    threads s !! i = Some IncStored ->
    step s (State (semaphore s) (active_processes s) None (goto s i Holding))
(* release, only from a thread whose acquire has returned *)
| dec_lock s i :
    threads s !! i = Some Holding -> _lock s = None ->
    step s (State (semaphore s) (active_processes s) (Some i) (goto s i DecLocked))
| dec_load s i :
    threads s !! i = Some DecLocked ->
    step s (State (semaphore s) (active_processes s) (_lock s)
              (goto s i (DecLoaded (active_processes s))))
| dec_store s i v :
    threads s !! i = Some (DecLoaded v) ->
    step s (State (semaphore s) (v - 1) (_lock s) (goto s i DecStored))
| dec_unlock s i :
    threads s !! i = Some DecStored ->
    step s (State (semaphore s) (active_processes s) None (goto s i Returning))
| sem_release s i :
    threads s !! i = Some Returning ->
    step s (State (semaphore s + 1) (active_processes s) (_lock s) (goto s i Idle)).

Definition reachable (max_concurrent : Z) (n : nat) (s : state) : Prop :=
  rtc step (init max_concurrent n) s.

(** [get_active()]: the tally, read under the lock. *)
Definition get_active (s : state) : option Z :=
  match _lock s with
  | None => Some (active_processes s)
  | Some _ => None
  end.

(** Holding the lock. *)
Definition critical (p : pc) : bool :=
  match p with
  | IncLocked | IncLoaded _ | IncStored | DecLocked | DecLoaded _ | DecStored => true
  | _ => false
  end.

(** Counted in [active_processes]. *)
Definition counted (p : pc) : bool :=
  match p with
  | IncStored | Holding | DecLocked | DecLoaded _ => true
  | _ => false
  end.

(** Owning a permit of the semaphore. *)
Definition admitted (p : pc) : bool :=
  match p with Idle => false | _ => true end.

(** How many threads satisfy [f]. *)
Fixpoint tally (f : pc -> bool) (l : list pc) : Z :=
  match l with
  | [] => 0
  | p :: l' => (if f p then 1 else 0) + tally f l'
  end.

(** What holds in every state the threads can reach. *)
Record invariant (max_concurrent : Z) (s : state) : Prop := Invariant {
  permits_left : (0 <= semaphore s)%Z;
  permits_out : (semaphore s + tally admitted (threads s) = max_concurrent)%Z;
  active_counted : active_processes s = tally counted (threads s);
  critical_holds : forall i p, threads s !! i = Some p -> critical p = true ->
                               _lock s = Some i;
  loaded_fresh : forall i v, threads s !! i = Some (IncLoaded v)
                             \/ threads s !! i = Some (DecLoaded v) ->
                             v = active_processes s
}.

End ProcessingSemaphore.

(** ** Reading programs: gate discipline and length *)

Section Discipline.
Context {Img : Type}.

Inductive kind : Type := KAcquire | KRelease | KOther.

Definition kind_of {X} (ev : event Img X) : kind :=
  match ev with
  | Acquire => KAcquire
  | Release => KRelease
  | _ => KOther
  end.

Definition returned {X} (a : answer X) : Prop := exists v, a = inr v.

(** Where a thread stands with respect to the gate. *)
Inductive phase : Type := Before | Inside | After.

(** [paired P E ph p]: on every path through [p], whatever the
    collaborators answer, a thread in phase [ph] acquires (if it is
    [Before]), then releases exactly once (it is then [Inside]), performs
    no other gate operation, and ends [After] the release, returning a
    value in [P] or raising an exception in [E]. *)
Fixpoint paired {A} (P : A -> Prop) (E : exn -> Prop) (ph : phase) (p : prog Img A) : Prop :=
  match p with
  | Ret a => ph = After /\ P a
  | Raise e => ph = After /\ E e
  | Vis ev k =>
      match kind_of ev with
      | KAcquire => ph = Before /\ forall a, returned a -> paired P E Inside (k a)
      | KRelease => ph = Inside /\ forall a, returned a -> paired P E After (k a)
      | KOther => forall a, paired P E ph (k a)
      end
  end.

(** [gate_free P E p]: [p] performs no gate operation, and ends returning
    in [P] or raising in [E]. *)
Fixpoint gate_free {A} (P : A -> Prop) (E : exn -> Prop) (p : prog Img A) : Prop :=
  match p with
  | Ret a => P a
  | Raise e => E e
  | Vis ev k =>
      match kind_of ev with
      | KOther => forall a, gate_free P E (k a)
      | _ => False
      end
  end.

Definition entry_kind (d : entry Img) : kind :=
  match d with Did ev => kind_of ev end.

(** The gate operations in a log. *)
Fixpoint acquires (log : list (entry Img)) : nat :=
  match log with
  | [] => 0
  | d :: log' => (match entry_kind d with KAcquire => 1 | _ => 0 end) + acquires log'
  end.

Fixpoint releases (log : list (entry Img)) : nat :=
  match log with
  | [] => 0
  | d :: log' => (match entry_kind d with KRelease => 1 | _ => 0 end) + releases log'
  end.

(** Gate operations a thread in phase [ph] still has to perform. *)
Definition to_acquire (ph : phase) : nat := match ph with Before => 1 | _ => 0 end.
Definition to_release (ph : phase) : nat := match ph with After => 0 | _ => 1 end.
Definition holding (ph : phase) : Z := match ph with Inside => 1 | _ => 0 end.

(** [self.semaphore.acquire(); try: body finally: self.semaphore.release()] *)
Definition guarded {A} (body : prog Img A) : prog Img A :=
  bind acquire (fun _ => try_finally body release).

(** [isolates Perr Pok p]: [p] performs no gate operation and never
    raises; as soon as a collaborator raises [e], [p] returns at once a
    value [a] with [Perr e a]; when none raises, it returns in [Pok]. *)
Fixpoint isolates {A} (Perr : exn -> A -> Prop) (Pok : A -> Prop) (p : prog Img A) : Prop :=
  match p with
  | Ret a => Pok a
  | Raise _ => False
  | Vis ev k =>
      kind_of ev = KOther
      /\ (forall e, exists a, k (inl e) = Ret a /\ Perr e a)
      /\ (forall v, isolates Perr Pok (k (inr v)))
  end.

(** [within n p]: every path through [p] performs at most [n] events. *)
Fixpoint within {A} (n : nat) (p : prog Img A) : Prop :=
  match p with
  | Ret _ | Raise _ => True
  | Vis ev k =>
      match n with
      | O => False
      | S n' => forall a, within n' (k a)
      end
  end.

End Discipline.

Section GateAccounts.
Context {World Img : Type}.

(** What a run that began in phase [ph] and came to its end leaves
    behind: the gate operations logged, the permits and the tally. *)
Definition settled (ph : phase) (m m' : machine (World:=World) (Img:=Img)) : Prop :=
  acquires (calls m') = (acquires (calls m) + to_acquire ph)%nat
  /\ releases (calls m') = (releases (calls m) + to_release ph)%nat
  /\ semaphore_value m' = (semaphore_value m + holding ph)%Z
  /\ active_processes m' = (active_processes m - holding ph)%Z.

(** What a run that waits for a permit leaves behind: nothing. *)
Definition waiting (m m' : machine (World:=World) (Img:=Img)) : Prop :=
  acquires (calls m') = acquires (calls m)
  /\ releases (calls m') = releases (calls m)
  /\ semaphore_value m' = semaphore_value m
  /\ active_processes m' = active_processes m
  /\ (semaphore_value m' <= 0)%Z.

End GateAccounts.

(** ** The thread pool of [PhotoFilterApp.run_multithread_version] (prueba2.py) *)

Module ThreadPool.
Import Prueba2.

Section Pool.
Context {World Img : Type} `{Imaging World Img}.

(** The futures of [run_multithread_version], seen from outside; the two
    readings of the clock around the run and the append to
    [self.metrics] are left out, they take no part in the results.
    [queued]: work items not yet picked by a worker, oldest first;
    [running]: the workers' calls of [process_with_semaphore], each
    with what is left of it; [finished]: futures that hold a result
    and have not been handed out by [as_completed]; [results]: the
    list the main thread appends to. *)
Record state : Type := State {
  mach : machine (World:=World) (Img:=Img);
  queued : list task;
  running : list (task * prog Img result);
  finished : list result;
  raised : option exn;
  results : list result
}.

(** [tasks = [(path, selected_filter, self.output_folder, "multihilo")
    for path in self.image_paths]] *)
Definition tasks_of (image_paths : list string) (selected_filter output_folder : string)
    : list task :=
  map (fun path => (path, selected_filter, output_folder, "multihilo")) image_paths.

(** All futures submitted, nothing started. *)
Definition init (m : machine) (image_paths : list string)
    (selected_filter output_folder : string) : state :=
  {| mach := m; queued := tasks_of image_paths selected_filter output_folder;
     running := []; finished := []; raised := None; results := [] |}.

Inductive step (max_workers : nat) : state -> state -> Prop :=
(* a free worker picks the oldest work item *)
| start s t q :
    queued s = t :: q -> length (running s) < max_workers -> raised s = None ->
    step max_workers s
      {| mach := mach s; queued := q;
         running := (running s ++ [(t, process_with_semaphore t)])%list;
         finished := finished s; raised := None; results := results s |}
(* a worker performs the next event of its call *)
| exec s r1 r2 t X (ev : event Img X) k ans m' :
    running s = (r1 ++ (t, Vis ev k) :: r2)%list ->
    handle ev (mach s) = Some (ans, m') -> raised s = None ->
    step max_workers s
      {| mach := m'; queued := queued s;
         running := (r1 ++ (t, k ans) :: r2)%list;
         finished := finished s; raised := None; results := results s |}
(* a call returns: its future holds the result *)
| finish s r1 r2 t r :
    running s = (r1 ++ (t, Ret r) :: r2)%list -> raised s = None ->
    step max_workers s
      {| mach := mach s; queued := queued s; running := (r1 ++ r2)%list;
         finished := (finished s ++ [r])%list; raised := None; results := results s |}
(* a call raises: [future.result()] raises in the main thread *)
| fail s r1 r2 t e :
    running s = (r1 ++ (t, Raise e) :: r2)%list -> raised s = None ->
    step max_workers s
      {| mach := mach s; queued := queued s; running := (r1 ++ r2)%list;
         finished := finished s; raised := Some e; results := results s |}
(* [as_completed] hands out a finished future, the main thread appends *)
| collect s f1 f2 r :
    finished s = (f1 ++ r :: f2)%list -> raised s = None ->
    step max_workers s
      {| mach := mach s; queued := queued s; running := running s;
         finished := (f1 ++ f2)%list; raised := None;
         results := (results s ++ [r])%list |}.

(** The [for future in as_completed(futures)] loop is over: the
    function returns [results]. *)
Definition returns (s : state) : Prop :=
  queued s = [] /\ running s = [] /\ finished s = [] /\ raised s = None.

(** A call that can move: it has returned, or its next event can be
    performed. *)
Definition movable (m : machine (World:=World) (Img:=Img)) (p : prog Img result) : Prop :=
  (exists r, p = Ret r)
  \/ (exists X (ev : event Img X) k ans m', p = Vis ev k /\ handle ev m = Some (ans, m')).

(** A note on a running call: where it stands with the gate, and how
    many events it may still perform. *)
Definition fits (note : phase * nat) (call : task * prog Img result) : Prop :=
  paired (fun r => original r = source_path (fst call)) (fun _ => False)
    (fst note) (snd call)
  /\ within (snd note) (snd call).

(** Permits held by the running calls. *)
Definition held (notes : list (phase * nat)) : Z :=
  foldr (fun note acc => (holding (fst note) + acc)%Z) 0%Z notes.

(** Steps the pool may still take. *)
Definition potential (notes : list (phase * nat)) (s : state) : nat :=
  10 * length (queued s) + sum_list (map (fun note => snd note + 2) notes)
  + length (finished s).

(** What holds in every state the pool can reach, for a gate of
    capacity [capacity] free at the start. *)
Record invariant (capacity : Z) (image_paths : list string)
    (notes : list (phase * nat)) (s : state) : Prop := Invariant {
  no_exception : raised s = None;
  every_task_once :
    image_paths ≡ₚ (map source_path (queued s)
                    ++ map (fun call => source_path (fst call)) (running s)
                    ++ map original (finished s)
                    ++ map original (results s))%list;
  calls_fit : Forall2 fits notes (running s);
  permits : (semaphore_value (mach s) + held notes = capacity)%Z
}.

End Pool.
End ThreadPool.

(** ** The actor pool of [process_image_actor] (prueba2.py) *)

Module ActorPool.

Section Pool.
Context {World Img : Type} `{Imaging World Img}.

(** The two programs differ in the Task tuple and in [process_image]
    only: [(path, filter, folder)] in prueba.py,
    [(path, filter, folder, "actor")] in prueba2.py. *)
Context {Task Result : Type}.
Variable make_task : string -> string -> string -> Task.
Variable process_image : Task -> prog Img Result.
Variable source_path : Task -> string.
Variable original : Result -> string.

(** Where an actor's thread is in [_run]. *)
Inductive actor_pc : Type :=
| Polling                                   (* in [self.task_queue.get(timeout=1)] *)
| Working (t : Task) (p : prog Img Result)  (* in [process_image(Task)] *)
| Exited.                                   (* left the loop, or died *)

Record actor : Type := Actor {
  task_queue : list Task;
  _running : bool;
  at_pc : actor_pc
}.

(** Where the caller is in [process_image_actor] (the two readings of
    the clock around the loops are left out, they take no part in the
    results). *)
Inductive main_pc : Type :=
| Submitting (i : nat)        (* the [enumerate] loop, before item [i] *)
| Collecting (n : nat)        (* the [range(len(image_paths))] loop, [n] reads done *)
| Stopping (k : nat)          (* the [for actor in actors] loop, before actor [k] *)
| Finished.

Record state : Type := State {
  mach : machine (World:=World) (Img:=Img);
  main : main_pc;
  actors : list actor;
  result_queue : list Result;
  results : list Result
}.

(** [num_actors] actors created and started, nothing submitted. *)
Definition init (m : machine) (num_actors : nat) : state :=
  {| mach := m; main := Submitting 0;
     actors := replicate num_actors (Actor [] true Polling);
     result_queue := []; results := [] |}.

Definition set_pc (a : actor) (p : actor_pc) : actor :=
  {| task_queue := task_queue a; _running := _running a; at_pc := p |}.

Inductive step (image_paths : list string) (selected_filter output_folder : string)
  : state -> state -> Prop :=
(* actors[i % num_actors].submit(Task) *)
| submit s i image_path a1 a a2 :
    main s = Submitting i -> image_paths !! i = Some image_path ->
    actors s = (a1 ++ a :: a2)%list ->
    length (actors s) <> 0 -> length a1 = i mod length (actors s) ->
    step image_paths selected_filter output_folder s
      {| mach := mach s; main := Submitting (S i);
         actors := (a1 ++ Actor (task_queue a ++
                      [make_task image_path selected_filter output_folder])
                      (_running a) (at_pc a) :: a2)%list;
         result_queue := result_queue s; results := results s |}
| submitted s :
    main s = Submitting (length image_paths) ->
    step image_paths selected_filter output_folder s
      {| mach := mach s; main := Collecting 0; actors := actors s;
         result_queue := result_queue s; results := results s |}
(* Result = result_queue.get(); results.append(Result) *)
| collect s n r rest :
    main s = Collecting n -> n < length image_paths -> result_queue s = r :: rest ->
    step image_paths selected_filter output_folder s
      {| mach := mach s; main := Collecting (S n); actors := actors s;
         result_queue := rest; results := (results s ++ [r])%list |}
| collected s :
    main s = Collecting (length image_paths) ->
    step image_paths selected_filter output_folder s
      {| mach := mach s; main := Stopping 0; actors := actors s;
         result_queue := result_queue s; results := results s |}
(* actor.stop() *)
| stop s k a1 a a2 :
    main s = Stopping k -> actors s = (a1 ++ a :: a2)%list -> length a1 = k ->
    step image_paths selected_filter output_folder s
      {| mach := mach s; main := Stopping (S k);
         actors := (a1 ++ Actor (task_queue a) false (at_pc a) :: a2)%list;
         result_queue := result_queue s; results := results s |}
| stopped s :
    main s = Stopping (length (actors s)) ->
    step image_paths selected_filter output_folder s
      {| mach := mach s; main := Finished; actors := actors s;
         result_queue := result_queue s; results := results s |}
(* Task = self.task_queue.get(timeout=1) *)
| dequeue s a1 a a2 t q :
    actors s = (a1 ++ a :: a2)%list -> at_pc a = Polling -> task_queue a = t :: q ->
    step image_paths selected_filter output_folder s
      {| mach := mach s; main := main s;
         actors := (a1 ++ Actor q (_running a) (Working t (process_image t)) :: a2)%list;
         result_queue := result_queue s; results := results s |}
(* an event of process_image(Task) *)
| exec s a1 a a2 t X (ev : event Img X) k ans m' :
    actors s = (a1 ++ a :: a2)%list -> at_pc a = Working t (Vis ev k) ->
    handle ev (mach s) = Some (ans, m') ->
    step image_paths selected_filter output_folder s
      {| mach := m'; main := main s;
         actors := (a1 ++ set_pc a (Working t (k ans)) :: a2)%list;
         result_queue := result_queue s; results := results s |}
(* self.result_queue.put(Result), then the [while self._running] test *)
| put s a1 a a2 t r :
    actors s = (a1 ++ a :: a2)%list -> at_pc a = Working t (Ret r) ->
    step image_paths selected_filter output_folder s
      {| mach := mach s; main := main s;
         actors := (a1 ++ set_pc a (if _running a then Polling else Exited) :: a2)%list;
         result_queue := (result_queue s ++ [r])%list; results := results s |}
(* an exception other than queue.Empty leaves [_run]: the thread ends *)
| die s a1 a a2 t e :
    actors s = (a1 ++ a :: a2)%list -> at_pc a = Working t (Raise e) ->
    step image_paths selected_filter output_folder s
      {| mach := mach s; main := main s;
         actors := (a1 ++ set_pc a Exited :: a2)%list;
         result_queue := result_queue s; results := results s |}
(* queue.Empty, then the [while self._running] test fails *)
| leave s a1 a a2 :
    actors s = (a1 ++ a :: a2)%list -> at_pc a = Polling -> task_queue a = [] ->
    _running a = false ->
    step image_paths selected_filter output_folder s
      {| mach := mach s; main := main s;
         actors := (a1 ++ set_pc a Exited :: a2)%list;
         result_queue := result_queue s; results := results s |}.

(** The function has returned [results]. *)
Definition returns (s : state) : Prop := main s = Finished.

(** The images an actor still owes a Result for. *)
Definition in_flight (a : actor) : list string :=
  (map source_path (task_queue a)
   ++ match at_pc a with Working t _ => [source_path t] | _ => [] end)%list.

(** Tasks submitted, results collected, by the place of the caller. *)
Definition submitted_count (total : nat) (pc : main_pc) : nat :=
  match pc with Submitting i => i | _ => total end.

Definition collected_count (total : nat) (pc : main_pc) : nat :=
  match pc with Submitting _ => 0 | Collecting n => n | _ => total end.

(** A bound [h] on the events left in the call an actor works on. *)
Definition actor_fits (h : nat) (a : actor) : Prop :=
  match at_pc a with
  | Working t p =>
      gate_free (fun r => original r = source_path t) (fun _ => False) p /\ within h p
  | _ => True
  end.

Definition alive (a : actor) : Prop := _running a = true /\ at_pc a <> Exited.

(** Steps the pool may still take. *)
Definition actor_potential (h : nat) (a : actor) : nat :=
  10 * length (task_queue a)
  + match at_pc a with Polling => 1 | Working _ _ => h + 3 | Exited => 0 end.

Definition main_potential (total num_actors : nat) (pc : main_pc) : nat :=
  match pc with
  | Submitting i => 12 * (total - i) + total + num_actors + 3
  | Collecting n => (total - n) + num_actors + 2
  | Stopping k => (num_actors - k) + 1
  | Finished => 0
  end.

Definition potential (total : nat) (notes : list nat) (s : state) : nat :=
  main_potential total (length (actors s)) (main s)
  + sum_list (zip_with actor_potential notes (actors s))
  + length (result_queue s).

(** What holds in every state the pool can reach. *)
Record invariant (image_paths : list string) (num_actors : nat)
    (notes : list nat) (s : state) : Prop := Invariant {
  actors_count : length (actors s) = num_actors;
  main_in_range :
    match main s with
    | Submitting i => i <= length image_paths
    | Collecting n => n <= length image_paths
    | Stopping k => k <= num_actors
    | Finished => True
    end;
  every_task_once :
    take (submitted_count (length image_paths) (main s)) image_paths
    ≡ₚ (concat (map in_flight (actors s))
        ++ map original (result_queue s) ++ map original (results s))%list;
  results_count : length (results s) = collected_count (length image_paths) (main s);
  actors_fit : Forall2 actor_fits notes (actors s);
  actors_alive :
    match main s with
    | Submitting _ | Collecting _ => Forall alive (actors s)
    | _ => True
    end
}.

End Pool.
End ActorPool.

(** ** A small outside world, to run the programs on

    Files are (path, image) pairs, images are numbers; opening a missing
    file raises, converting adds 1, filtering adds 10, saving adds the
    file; the clock counts the files. *)

Module Demo.

Definition World : Type := list (string * nat).

Fixpoint find (path : string) (w : World) : option nat :=
  match w with
  | [] => None
  | (p, im) :: w' => if String.eqb p path then Some im else find path w'
  end.

#[global] Instance imaging : Imaging World nat := {|
  sleep_op := fun w => (inr tt, w);
  open_op := fun path w =>
    match find path w with
    | Some im => (inr im, w)
    | None => (inl (Exception "No such file or directory"), w)
    end;
  convert_op := fun im _ w => (inr (im + 1), w);
  filter_op := fun im _ w => (inr (im + 10), w);
  save_op := fun im path w => (inr tt, (path, im) :: w);
  clock := fun w => inject_Z (Z.of_nat (length w))
|}.

(** A lower-casing that knows the accented capitals of Latin-1 besides
    the ASCII letters: in UTF-8 they are the two-byte sequences [C3 80]
    to [C3 9E] ([C3 97], the multiplication sign, apart), and their small
    letters are 32 further. *)
Fixpoint lower_latin1 (s : string) : string :=
  match s with
  | EmptyString => EmptyString
  | String a s' =>
      match s' with
      | String b s'' =>
          if (nat_of_ascii a =? 195)%nat
             && (128 <=? nat_of_ascii b)%nat && (nat_of_ascii b <=? 158)%nat
             && negb (nat_of_ascii b =? 151)%nat
          then String a (String (ascii_of_nat (nat_of_ascii b + 32)) (lower_latin1 s''))
          else String (PyStr.lower_ascii a) (lower_latin1 s')
      | EmptyString => String (PyStr.lower_ascii a) EmptyString
      end
  end.

Definition unicode : PyStr.Unicode :=
  {| PyStr.str_lower := fun s => if PyStr.isascii s then PyStr.lower s else lower_latin1 s;
     PyStr.str_lower_ascii := fun s (Hascii : PyStr.isascii s = true) =>
       eq_ind_r (x:=true)
         (fun b : bool => (if b then PyStr.lower s else lower_latin1 s) = PyStr.lower s)
         eq_refl Hascii |}.

Definition disk : World := [("/fotos/gato.png", 7); ("/fotos/perro.jpg", 3)].

(** A loaded list of eight images, and of four. *)
Definition eight_images : list string :=
  ["1.png"; "2.png"; "3.png"; "4.png"; "5.png"; "6.png"; "7.png"; "8.png"].

Definition four_images : list string := ["1.png"; "2.png"; "3.png"; "4.png"].

(** One sequential run of 2.0 s and one process-pool run of 0.5 s. *)
Definition one_run_each : Prueba.metrics :=
  {| Prueba.sequential := [2%Q]; Prueba.parallel_process := [(1 # 2)%Q];
     Prueba.parallel_thread := []; Prueba.actor_model := [] |}.

(** Two threads after one increment each. *)
Definition both_incremented : SharedCounter.state :=
  {| SharedCounter.value := 2; SharedCounter.lock := None;
     SharedCounter.threads :=
       [SharedCounter.Thread SharedCounter.Outside 0;
        SharedCounter.Thread SharedCounter.Outside 0];
     SharedCounter.returns := [1%Z; 2%Z] |}.

(** A gate of capacity 1 and two threads, the first of which holds it. *)
Definition first_holds : ProcessingSemaphore.state :=
  {| ProcessingSemaphore.semaphore := 0; ProcessingSemaphore.active_processes := 1;
     ProcessingSemaphore._lock := None;
     ProcessingSemaphore.threads :=
       [ProcessingSemaphore.Holding; ProcessingSemaphore.Idle] |}.

Definition boot (w : World) : machine (World:=World) (Img:=nat) :=
  {| world := w; semaphore_value := 4; active_processes := 0; calls := [] |}.

End Demo.

(** ** Auxiliary notions for the statements *)

(** The message of an [ERROR] result. *)
Definition error_message (image_path : string) (e : exn) : string :=
  "Error en " ++ OsPath.basename image_path ++ ": " ++ str e.

(** Round-robin dealing, as the specification words it: the items of [l]
    whose position, counted from [i], is [k] modulo [a]. *)
Fixpoint dealt {A} (i a k : nat) (l : list A) : list A :=
  match l with
  | [] => []
  | x :: l' => if (i mod a =? k)%nat then x :: dealt (S i) a k l' else dealt (S i) a k l'
  end.

(** How many of the positions below [n] are [k] modulo [a]:
    [floor(n / a)], and one more for the first [n mod a] values of [k]. *)
Definition share (a k n : nat) : nat :=
  (n / a + (if k <? n mod a then 1 else 0))%nat.

(** No separator in a string. *)
Fixpoint sep_free (s : string) : bool :=
  match s with
  | EmptyString => true
  | String a s' => negb (Ascii.eqb a OsPath.sep) && sep_free s'
  end.

(** The output path of the quadruple variant. *)
Definition output_path2 (image_path output_folder method : string) : string :=
  let '(name, ext) := OsPath.splitext (OsPath.basename image_path) in
  OsPath.join output_folder (name ++ "_" ++ method ++ ext).

(** The output path of the triple variant: the tag is the filter name
    as [str.lower] gives it, whichever characters the name is made of. *)
Definition output_path1 {U : PyStr.Unicode}
    (image_path selected_filter output_folder : string) : string :=
  let '(name, ext) := OsPath.splitext (OsPath.basename image_path) in
  OsPath.join output_folder (name ++ "_" ++ PyStr.str_lower selected_filter ++ ext).


(** ** The files a call touches *)

Section Files.
Context {Img : Type}.

(** The paths named by the [Image.open] and the [save] calls of a log. *)
Definition opened (d : entry Img) : option string :=
  match d with
  | Did ev => match ev with Open path => Some path | _ => None end
  end.

Definition saved (d : entry Img) : option string :=
  match d with
  | Did ev => match ev with Save _ path => Some path | _ => None end
  end.

Definition opens (log : list (entry Img)) : list string := omap opened log.
Definition saves (log : list (entry Img)) : list string := omap saved log.

(** An event of a call that reads [source] and writes [target]: it names
    no other file, reads no clock and leaves the gate alone. *)
Definition touches (source target : string) {X} (ev : event Img X) : Prop :=
  match ev with
  | Open path => path = source
  | Save _ path => path = target
  | Sleep | Convert _ _ | Filter _ _ => True
  | Time | Acquire | Release => False
  end.

Definition is_save {X} (ev : event Img X) : bool :=
  match ev with Save _ _ => true | _ => false end.

Definition came_back {X} (ans : answer X) : bool :=
  match ans with inr _ => true | inl _ => false end.

(** A program confined to the two files: every event touches them only, at
    most [budget] calls to [save] are made, and a value that satisfies [ok]
    is returned only once a [save] has come back ([done]). *)
Fixpoint confined {A} (source target : string) (ok : A -> Prop) (budget : nat)
    (done : bool) (p : prog Img A) : Prop :=
  match p with
  | Ret a => ok a -> done = true
  | Raise _ => True
  | Vis ev k =>
      touches source target ev
      /\ (is_save ev = true -> budget <> 0)
      /\ forall ans,
           confined source target ok
             (if is_save ev then Nat.pred budget else budget)
             (done || (is_save ev && came_back ans)) (k ans)
  end.

(** A program that keeps to the two files whatever else it does: every
    [Image.open] names [source], every [save] names [target]. *)
Definition names (source target : string) {X} (ev : event Img X) : Prop :=
  match ev with
  | Open path => path = source
  | Save _ path => path = target
  | _ => True
  end.

Fixpoint keeps_to {A} (source target : string) (p : prog Img A) : Prop :=
  match p with
  | Ret _ | Raise _ => True
  | Vis ev k => names source target ev /\ forall ans, keeps_to source target (k ans)
  end.

End Files.

(** The output path of a task, in either program. *)
Definition target2 (t : Prueba2.task) : string :=
  let '(image_path, _, output_folder, method) := t in
  output_path2 image_path output_folder method.

Definition target1 {U : PyStr.Unicode} (t : Prueba.task) : string :=
  let '(image_path, selected_filter, output_folder) := t in
  output_path1 image_path selected_filter output_folder.

(** What holds of the files during a run of the thread pool started on
    machine [m]: the tasks are those of the loaded images, each call
    keeps to the two files of its task, and the log has grown by entries
    that name loaded images and their output paths. *)
Definition files {World Img : Type} `{Imaging World Img}
    (m : machine (World:=World) (Img:=Img)) (image_paths : list string)
    (selected_filter output_folder : string)
    (s : ThreadPool.state (World:=World) (Img:=Img)) : Prop :=
  Forall (fun t => t ∈ ThreadPool.tasks_of image_paths selected_filter output_folder)
    (ThreadPool.queued s)
  /\ Forall (fun call =>
               fst call ∈ ThreadPool.tasks_of image_paths selected_filter output_folder
               /\ keeps_to (Prueba2.source_path (fst call)) (target2 (fst call)) (snd call))
       (ThreadPool.running s)
  /\ exists new,
       calls (ThreadPool.mach s) = (calls m ++ new)%list
       /\ Forall (fun path => path ∈ image_paths) (opens new)
       /\ Forall (fun path =>
                    path ∈ map (fun image_path =>
                                  output_path2 image_path output_folder "multihilo")
                             image_paths)
            (saves new).

(** The same for the actor pool: every task in an inbox or in progress
    reads one of [sources] and writes one of [targets], and the call in
    progress keeps to the two files of its task. *)
Definition actor_keeps {Img Task Result : Type}
    (source_path target : Task -> string) (sources targets : list string)
    (a : ActorPool.actor (Img:=Img) (Task:=Task) (Result:=Result)) : Prop :=
  Forall (fun t => source_path t ∈ sources /\ target t ∈ targets) (ActorPool.task_queue a)
  /\ match ActorPool.at_pc a with
     | ActorPool.Working t p =>
         source_path t ∈ sources /\ target t ∈ targets
         /\ keeps_to (source_path t) (target t) p
     | _ => True
     end.

Definition actor_files {World Img : Type} `{Imaging World Img} {Task Result : Type}
    (source_path target : Task -> string)
    (m : machine (World:=World) (Img:=Img)) (sources targets : list string)
    (s : ActorPool.state (World:=World) (Img:=Img) (Task:=Task) (Result:=Result))
    : Prop :=
  Forall (actor_keeps source_path target sources targets) (ActorPool.actors s)
  /\ exists new,
       calls (ActorPool.mach s) = (calls m ++ new)%list
       /\ Forall (fun path => path ∈ sources) (opens new)
       /\ Forall (fun path => path ∈ targets) (saves new).

(** ** [ProcessingActor]: one actor and whoever holds it

    The class on its own: a client submits the tasks of [pending] one
    after the other and may call [stop] at any time; the actor's thread
    runs [_run].  The moves of the thread are those it has inside the pool
    of [process_image_actor]. *)

Module ProcessingActor.

Section Actor.
Context {World Img : Type} `{Imaging World Img}.
Context {Task Result : Type}.
Variable process_image : Task -> prog Img Result.

Record state : Type := State {
  mach : machine (World:=World) (Img:=Img);
  self : ActorPool.actor (Img:=Img) (Task:=Task) (Result:=Result);
  result_queue : list Result;
  pending : list Task
}.

(** [ProcessingActor(result_queue)]: an empty inbox, [_running = True],
    the thread started. *)
Definition __init__ (m : machine) (tasks : list Task) : state :=
  {| mach := m; self := ActorPool.Actor [] true ActorPool.Polling;
     result_queue := []; pending := tasks |}.

Inductive step : state -> state -> Prop :=
(* self.task_queue.put(task) *)
| submit s t rest :
    pending s = t :: rest ->
    step s
      {| mach := mach s;
         self := ActorPool.Actor (ActorPool.task_queue (self s) ++ [t])
                   (ActorPool._running (self s)) (ActorPool.at_pc (self s));
         result_queue := result_queue s; pending := rest |}
(* self._running = False *)
| stop s :
    step s
      {| mach := mach s;
         self := ActorPool.Actor (ActorPool.task_queue (self s)) false
                   (ActorPool.at_pc (self s));
         result_queue := result_queue s; pending := pending s |}
(* task = self.task_queue.get(timeout=1) *)
| dequeue s t q :
    ActorPool.at_pc (self s) = ActorPool.Polling ->
    ActorPool.task_queue (self s) = t :: q ->
    step s
      {| mach := mach s;
         self := ActorPool.Actor q (ActorPool._running (self s))
                   (ActorPool.Working t (process_image t));
         result_queue := result_queue s; pending := pending s |}
(* an event of process_image(task) *)
| exec s t X (ev : event Img X) k ans m' :
    ActorPool.at_pc (self s) = ActorPool.Working t (Vis ev k) ->
    handle ev (mach s) = Some (ans, m') ->
    step s
      {| mach := m';
         self := ActorPool.set_pc (self s) (ActorPool.Working t (k ans));
         result_queue := result_queue s; pending := pending s |}
(* self.result_queue.put(result), then the [while self._running] test *)
| put s t r :
    ActorPool.at_pc (self s) = ActorPool.Working t (Ret r) ->
    step s
      {| mach := mach s;
         self := ActorPool.set_pc (self s)
                   (if ActorPool._running (self s)
                    then ActorPool.Polling else ActorPool.Exited);
         result_queue := (result_queue s ++ [r])%list; pending := pending s |}
(* an exception other than queue.Empty leaves [_run]: the thread ends *)
| die s t e :
    ActorPool.at_pc (self s) = ActorPool.Working t (Raise e) ->
    step s
      {| mach := mach s; self := ActorPool.set_pc (self s) ActorPool.Exited;
         result_queue := result_queue s; pending := pending s |}
(* queue.Empty, then the [while self._running] test fails *)
| leave s :
    ActorPool.at_pc (self s) = ActorPool.Polling ->
    ActorPool.task_queue (self s) = [] ->
    ActorPool._running (self s) = false ->
    step s
      {| mach := mach s; self := ActorPool.set_pc (self s) ActorPool.Exited;
         result_queue := result_queue s; pending := pending s |}.

(** The task the thread is working on, if any. *)
Definition current (s : state) : list Task :=
  match ActorPool.at_pc (self s) with
  | ActorPool.Working t _ => [t]
  | _ => []
  end.

(** What the call in progress may still do. *)
Definition call_fits (source_path : Task -> string) (original : Result -> string)
    (s : state) : Prop :=
  match ActorPool.at_pc (self s) with
  | ActorPool.Working t p =>
      gate_free (fun r => original r = source_path t) (fun _ => False) p
  | _ => True
  end.

End Actor.
End ProcessingActor.

(** ** The list of loaded images (both programs) *)

Module Gallery.

(** [self.image_paths] and the rows of [self.listbox]. *)
Record state : Type := State {
  image_paths : list string;
  listbox : list string
}.

Definition __init__ : state := {| image_paths := []; listbox := [] |}.

(** [if path not in self.image_paths: self.image_paths.append(path);
    self.listbox.insert(tk.END, os.path.basename(path))] *)
Definition add_path (path : string) (g : state) : state :=
  if bool_decide (path ∈ image_paths g) then g
  else {| image_paths := (image_paths g ++ [path])%list;
          listbox := (listbox g ++ [OsPath.basename path])%list |}.

(** [load_images], [paths] being what the file dialog returned (nothing
    when it is cancelled). *)
Definition load_images (paths : list string) (g : state) : state :=
  foldl (fun g path => add_path path g) g paths.

Definition image_suffixes : list string := [".png"; ".jpg"; ".jpeg"; ".bmp"; ".gif"].

(** [drop_event], [files] being [self.tk.splitlist(event.data)].  The
    suffixes are ASCII, so only the ASCII letters of [file.lower()] take
    part in the test. *)
Definition drop_event (files : list string) (g : state) : state :=
  foldl (fun g file =>
           if PyStr.endswith_tuple image_suffixes (PyStr.lower file)
           then add_path file g else g)
    g files.

(** [self.image_paths.clear(); self.listbox.delete(0, tk.END)] *)
Definition clear_list (g : state) : state := {| image_paths := []; listbox := [] |}.

(** What the user does to the list. *)
Inductive action : Type :=
| Load (paths : list string)
| Drop (files : list string)
| Clear.

Definition act (g : state) (a : action) : state :=
  match a with
  | Load paths => load_images paths g
  | Drop files => drop_event files g
  | Clear => clear_list g
  end.

(** [index = selection[0]; if index < len(self.image_paths):
    image_path = self.image_paths[index]] of [update_preview]: the image
    previewed for the selected row, if any. *)
Definition selected_image (index : nat) (g : state) : option string :=
  if (index <? length (image_paths g))%nat then image_paths g !! index else None.

(** The rows of the list box are the base names of the loaded paths, and
    no path is loaded twice. *)
Definition mirrored (g : state) : Prop :=
  NoDup (image_paths g) /\ listbox g = map OsPath.basename (image_paths g).

End Gallery.

(** [len(l)] as an integer. *)
Definition len_Z {A} (l : list A) : Z := Z.of_nat (length l).

(** ** prueba.py: [PhotoFilterApp]

    The widgets that only display (log, labels, previews, chart canvas)
    are left out; the progress bar is kept, its value steers the polling
    of [update_ui]. *)

Module PruebaApp.
Import Prueba.

Record app : Type := App {
  images : Gallery.state;
  processed_paths : gmap string string;
  processed_counter : Z;              (* the [_value] of the SharedCounter *)
  error_counter : Z;
  output_folder : string;
  metrics : Prueba.metrics;
  progress_value : Z;
  progress_maximum : Z
}.

Definition __init__ (cwd : string) : app :=
  {| images := Gallery.__init__; processed_paths := ∅;
     processed_counter := SharedCounter.__init__;
     error_counter := SharedCounter.__init__;
     output_folder := OsPath.join cwd "output";
     metrics := {| sequential := []; parallel_process := [];
                   parallel_thread := []; actor_model := [] |};
     progress_value := 0; progress_maximum := 100 |}.

(** The three worker-thread bodies. *)
Inductive runner : Type :=
| run_multiprocess_processing
| run_multithread_processing
| run_actor_processing.

(** [tasks = [(path, selected_filter, self.output_folder)
    for path in self.image_paths]] *)
Definition tasks_of (selected_filter : string) (a : app) : list task :=
  map (fun path => (path, selected_filter, output_folder a))
    (Gallery.image_paths (images a)).




(** The body of the loops of [update_ui], for one result
    ([result["status"] == "OK"] is the tag of the result). *)
Definition tally_result (result0 : result) (a : app) : app :=
  match result0 with
  | OK original0 output0 _ _ =>
      {| images := images a;
         processed_paths := <[original0 := output0]> (processed_paths a);
         processed_counter := snd (SharedCounter.increment (processed_counter a));
         error_counter := error_counter a;
         output_folder := output_folder a; metrics := metrics a;
         progress_value := progress_value a + 1;
         progress_maximum := progress_maximum a |}
  | ERROR _ _ =>
      {| images := images a; processed_paths := processed_paths a;
         processed_counter := processed_counter a;
         error_counter := snd (SharedCounter.increment (error_counter a));
         output_folder := output_folder a; metrics := metrics a;
         progress_value := progress_value a + 1;
         progress_maximum := progress_maximum a |}
  end.

(** [while True: result = result_queue.get_nowait(); ...] until
    [queue.Empty], [arrived] being what the queue holds. *)
Definition drain (arrived : list result) (a : app) : app :=
  foldl (fun a result0 => tally_result result0 a) a arrived.

(** [self.metrics[key].append(elapsed)], by the worker body. *)
Definition history (r : runner) (m : Prueba.metrics) : list Q :=
  match r with
  | run_multiprocess_processing => parallel_process m
  | run_multithread_processing => parallel_thread m
  | run_actor_processing => actor_model m
  end.








(** [compare_strategies]: [outcome] is what [process_image_sequential]
    returned; the state and what the chart shows, [None] when it returns
    at once. *)
Definition compare_strategies {R} (outcome : R * Q) (a : app)
    : app * option (option (list Q * option (Q * Q))) :=
  match Gallery.image_paths (images a) with
  | [] => (a, None)
  | _ :: _ =>
      let '(_, seq_time) := outcome in
      let m := metrics a in
      let m' := {| sequential := (sequential m ++ [seq_time])%list;
                   parallel_process := parallel_process m;
                   parallel_thread := parallel_thread m;
                   actor_model := actor_model m |} in
      ({| images := images a; processed_paths := processed_paths a;
          processed_counter := processed_counter a; error_counter := error_counter a;
          output_folder := output_folder a; metrics := m';
          progress_value := progress_value a; progress_maximum := progress_maximum a |},
       Some (update_comparison_chart m' (Gallery.image_paths (images a))))
  end.




End PruebaApp.

(** ** prueba2.py: [PhotoFilterApp]

    As above, the widgets that only display are left out. *)

Module Prueba2App.
Import Prueba2.
Import PyFloat.

(** [self.execution_times] and [self.metrics]. *)
Record execution_times_dict : Type := Times { Secuencial : Q; Paralelo : Q }.

Record metrics_dict : Type := Metrics {
  history_Secuencial : list Q;
  history_Multihilo : list Q;
  history_Modelo_Actor : list Q
}.

Record app : Type := App {
  images : Gallery.state;
  sequential_results : list result;
  parallel_results : list result;
  all_results : list result;
  output_folder : string;
  metrics : metrics_dict;
  execution_times : execution_times_dict;
  currently_processing : bool;
  progress_value : Z;
  progress_maximum : Z;
  filter_var : string;
  strategy_var : string
}.

Definition __init__ (cwd : string) : app :=
  {| images := Gallery.__init__;
     sequential_results := []; parallel_results := []; all_results := [];
     output_folder := OsPath.join cwd "output";
     metrics := {| history_Secuencial := []; history_Multihilo := [];
                   history_Modelo_Actor := [] |};
     execution_times := {| Secuencial := 0; Paralelo := 0 |};
     currently_processing := false;
     progress_value := 0; progress_maximum := 100;
     filter_var := "Desenfoque"; strategy_var := "multithread" |}.

(** What the user does between two clicks on the start button. *)
Inductive action : Type :=
| Edit (e : Gallery.action)              (* load_images, drop_event, clear_list *)
| SelectOutputFolder (folder : string)   (* select_output_folder *)
| ChooseFilter (name : string)           (* the option menu *)
| ChooseStrategy (name : string).        (* the radio buttons *)

(** [clear_list] empties the three result lists with the image list. *)
Definition act (a : app) (e : action) : app :=
  match e with
  | Edit Gallery.Clear =>
      {| images := Gallery.clear_list (images a);
         sequential_results := []; parallel_results := []; all_results := [];
         output_folder := output_folder a; metrics := metrics a;
         execution_times := execution_times a;
         currently_processing := currently_processing a;
         progress_value := progress_value a; progress_maximum := progress_maximum a;
         filter_var := filter_var a; strategy_var := strategy_var a |}
  | Edit e =>
      {| images := Gallery.act (images a) e;
         sequential_results := sequential_results a;
         parallel_results := parallel_results a; all_results := all_results a;
         output_folder := output_folder a; metrics := metrics a;
         execution_times := execution_times a;
         currently_processing := currently_processing a;
         progress_value := progress_value a; progress_maximum := progress_maximum a;
         filter_var := filter_var a; strategy_var := strategy_var a |}
  | SelectOutputFolder folder =>
      {| images := images a;
         sequential_results := sequential_results a;
         parallel_results := parallel_results a; all_results := all_results a;
         output_folder := if String.eqb folder "" then output_folder a else folder;
         metrics := metrics a; execution_times := execution_times a;
         currently_processing := currently_processing a;
         progress_value := progress_value a; progress_maximum := progress_maximum a;
         filter_var := filter_var a; strategy_var := strategy_var a |}
  | ChooseFilter name =>
      {| images := images a;
         sequential_results := sequential_results a;
         parallel_results := parallel_results a; all_results := all_results a;
         output_folder := output_folder a; metrics := metrics a;
         execution_times := execution_times a;
         currently_processing := currently_processing a;
         progress_value := progress_value a; progress_maximum := progress_maximum a;
         filter_var := name; strategy_var := strategy_var a |}
  | ChooseStrategy name =>
      {| images := images a;
         sequential_results := sequential_results a;
         parallel_results := parallel_results a; all_results := all_results a;
         output_folder := output_folder a; metrics := metrics a;
         execution_times := execution_times a;
         currently_processing := currently_processing a;
         progress_value := progress_value a; progress_maximum := progress_maximum a;
         filter_var := filter_var a; strategy_var := name |}
  end.

(** [start_processing]: the new state and, when the worker thread is
    started, its arguments [(selected_filter, parallel_strategy)]. *)
Definition start_processing (a : app) : app * option (string * string) :=
  match Gallery.image_paths (images a) with
  | [] => (a, None)
  | _ :: _ =>
      if currently_processing a then (a, None)
      else
        let total_images := len_Z (Gallery.image_paths (images a)) in
        ({| images := images a;
            sequential_results := []; parallel_results := []; all_results := [];
            output_folder := output_folder a; metrics := metrics a;
            execution_times := {| Secuencial := 0; Paralelo := 0 |};
            currently_processing := true;
            progress_value := 0; progress_maximum := total_images * 2;
            filter_var := filter_var a; strategy_var := strategy_var a |},
         Some (filter_var a, strategy_var a))
  end.

(** The part of [run_sequential_then_parallel] before the pause:
    [outcome] is what [process_image_sequential] returned; one
    [update_progress] is scheduled for each result. *)
Definition sequential_phase (outcome : list result * Q) (a : app) : app :=
  let '(results, elapsed) := outcome in
  {| images := images a;
     sequential_results := results;
     parallel_results := parallel_results a;
     all_results := (all_results a ++ results)%list;
     output_folder := output_folder a; metrics := metrics a;
     execution_times := {| Secuencial := elapsed;
                           Paralelo := Paralelo (execution_times a) |};
     currently_processing := currently_processing a;
     progress_value := progress_value a + len_Z results;
     progress_maximum := progress_maximum a;
     filter_var := filter_var a; strategy_var := strategy_var a |}.

Definition set_metrics (m : metrics_dict) (a : app) : app :=
  {| images := images a;
     sequential_results := sequential_results a;
     parallel_results := parallel_results a; all_results := all_results a;
     output_folder := output_folder a; metrics := m;
     execution_times := execution_times a;
     currently_processing := currently_processing a;
     progress_value := progress_value a; progress_maximum := progress_maximum a;
     filter_var := filter_var a; strategy_var := strategy_var a |}.

(** The bookkeeping of [run_multithread_version] and of
    [run_actor_version]: [outcome] is what the pool returned and the
    time it took. *)
Definition run_multithread_version (outcome : list result * Q) (a : app)
    : (list result * Q) * app :=
  let m := metrics a in
  (outcome,
   set_metrics {| history_Secuencial := history_Secuencial m;
                  history_Multihilo := (history_Multihilo m ++ [snd outcome])%list;
                  history_Modelo_Actor := history_Modelo_Actor m |} a).

Definition run_actor_version (outcome : list result * Q) (a : app)
    : (list result * Q) * app :=
  let m := metrics a in
  (outcome,
   set_metrics {| history_Secuencial := history_Secuencial m;
                  history_Multihilo := history_Multihilo m;
                  history_Modelo_Actor := (history_Modelo_Actor m ++ [snd outcome])%list |} a).

(** The part of [run_sequential_then_parallel] after the pause. *)
Definition parallel_phase (parallel_strategy : string) (outcome : list result * Q)
    (a : app) : app :=
  let '((results, elapsed), a) :=
    if String.eqb parallel_strategy "multithread"
    then run_multithread_version outcome a
    else run_actor_version outcome a in
  {| images := images a;
     sequential_results := sequential_results a;
     parallel_results := results;
     all_results := (all_results a ++ results)%list;
     output_folder := output_folder a; metrics := metrics a;
     execution_times := {| Secuencial := Secuencial (execution_times a);
                           Paralelo := elapsed |};
     currently_processing := currently_processing a;
     progress_value := progress_value a + len_Z results;
     progress_maximum := progress_maximum a;
     filter_var := filter_var a; strategy_var := strategy_var a |}.

(** [finish_processing]: the flag is lowered (what it displays is below). *)
Definition finish_processing (a : app) : app :=
  {| images := images a;
     sequential_results := sequential_results a;
     parallel_results := parallel_results a; all_results := all_results a;
     output_folder := output_folder a; metrics := metrics a;
     execution_times := execution_times a;
     currently_processing := false;
     progress_value := progress_value a; progress_maximum := progress_maximum a;
     filter_var := filter_var a; strategy_var := strategy_var a |}.

(** *** What is displayed at the end of a comparison *)

(** The two guarded lines of the summary logged by [finish_processing]:
    speedup and efficiency.  The outer [None] is [ZeroDivisionError],
    [Some None] logs neither line. *)
Definition summary (t : execution_times_dict) : option (option (Q * Q)) :=
  if Qlt_le_dec 0 (Paralelo t) then
    match py_div (Secuencial t) (Paralelo t) with
    | Some speedup =>
        match py_div speedup 4 with
        | Some q => Some (Some (speedup, (q * 100)%Q))
        | None => None
        end
    | None => None
    end
  else Some None.

(** The speedup figure of the message box shown last by
    [finish_processing]; [None] is [ZeroDivisionError]. *)
Definition final_message (t : execution_times_dict) : option Q :=
  py_div (Secuencial t) (Paralelo t).

(** The label of the parallel strategy: in the message box from the
    strategy the run was started with, on the chart from the radio
    buttons as they stand when the chart is drawn. *)
Definition strategy_label (name : string) : string :=
  if String.eqb name "multithread" then "Multihilo" else "Modelo Actor".

(** [update_comparison_chart]: the bar heights, the tick labels and the
    two figures written on the chart when they are. *)
Definition update_comparison_chart (parallel_strategy_name : string) (a : app)
    : option (list Q * list string * option (Q * Q)) :=
  let t := execution_times a in
  let times := [Secuencial t; Paralelo t] in
  let strategies := ["Secuencial"; strategy_label (strategy_var a)] in
  if Qlt_le_dec 0 (Paralelo t) then
    match py_div (Secuencial t) (Paralelo t) with
    | Some speedup =>
        match py_div speedup 4 with
        | Some q => Some (times, strategies, Some (speedup, (q * 100)%Q))
        | None => None
        end
    | None => None
    end
  else Some (times, strategies, None).

(** *** The application and its threads, statement by statement

    The callbacks of the interface run in one thread, one at a time and
    each to its end; a thread started by [start_processing] runs
    [run_sequential_then_parallel] beside them, and nothing orders its
    statements with theirs.  The steps below are single statements, so
    that every interleaving of the two is a run.  A statement that
    fetches an attribute and calls a method of the list it finds there
    is one step: were the attribute rebound in between, the call would
    fall on the list that the application no longer reaches, as it does
    when the whole statement comes first. *)

(** One attribute assigned, the others kept. *)
Definition set_images (v : Gallery.state) (a : app) : app :=
  {| images := v; sequential_results := sequential_results a;
     parallel_results := parallel_results a; all_results := all_results a;
     output_folder := output_folder a; metrics := metrics a;
     execution_times := execution_times a; currently_processing := currently_processing a;
     progress_value := progress_value a; progress_maximum := progress_maximum a;
     filter_var := filter_var a; strategy_var := strategy_var a |}.

Definition set_sequential_results (v : list result) (a : app) : app :=
  {| images := images a; sequential_results := v; parallel_results := parallel_results a;
     all_results := all_results a; output_folder := output_folder a; metrics := metrics a;
     execution_times := execution_times a; currently_processing := currently_processing a;
     progress_value := progress_value a; progress_maximum := progress_maximum a;
     filter_var := filter_var a; strategy_var := strategy_var a |}.

Definition set_parallel_results (v : list result) (a : app) : app :=
  {| images := images a; sequential_results := sequential_results a;
     parallel_results := v; all_results := all_results a;
     output_folder := output_folder a; metrics := metrics a;
     execution_times := execution_times a; currently_processing := currently_processing a;
     progress_value := progress_value a; progress_maximum := progress_maximum a;
     filter_var := filter_var a; strategy_var := strategy_var a |}.

Definition set_all_results (v : list result) (a : app) : app :=
  {| images := images a; sequential_results := sequential_results a;
     parallel_results := parallel_results a; all_results := v;
     output_folder := output_folder a; metrics := metrics a;
     execution_times := execution_times a; currently_processing := currently_processing a;
     progress_value := progress_value a; progress_maximum := progress_maximum a;
     filter_var := filter_var a; strategy_var := strategy_var a |}.

Definition set_output_folder (v : string) (a : app) : app :=
  {| images := images a; sequential_results := sequential_results a;
     parallel_results := parallel_results a; all_results := all_results a;
     output_folder := v; metrics := metrics a; execution_times := execution_times a;
     currently_processing := currently_processing a; progress_value := progress_value a;
     progress_maximum := progress_maximum a; filter_var := filter_var a;
     strategy_var := strategy_var a |}.

Definition set_execution_times (v : execution_times_dict) (a : app) : app :=
  {| images := images a; sequential_results := sequential_results a;
     parallel_results := parallel_results a; all_results := all_results a;
     output_folder := output_folder a; metrics := metrics a; execution_times := v;
     currently_processing := currently_processing a; progress_value := progress_value a;
     progress_maximum := progress_maximum a; filter_var := filter_var a;
     strategy_var := strategy_var a |}.

Definition set_currently_processing (v : bool) (a : app) : app :=
  {| images := images a; sequential_results := sequential_results a;
     parallel_results := parallel_results a; all_results := all_results a;
     output_folder := output_folder a; metrics := metrics a;
     execution_times := execution_times a; currently_processing := v;
     progress_value := progress_value a; progress_maximum := progress_maximum a;
     filter_var := filter_var a; strategy_var := strategy_var a |}.

Definition set_progress_value (v : Z) (a : app) : app :=
  {| images := images a; sequential_results := sequential_results a;
     parallel_results := parallel_results a; all_results := all_results a;
     output_folder := output_folder a; metrics := metrics a;
     execution_times := execution_times a; currently_processing := currently_processing a;
     progress_value := v; progress_maximum := progress_maximum a;
     filter_var := filter_var a; strategy_var := strategy_var a |}.

Definition set_progress_maximum (v : Z) (a : app) : app :=
  {| images := images a; sequential_results := sequential_results a;
     parallel_results := parallel_results a; all_results := all_results a;
     output_folder := output_folder a; metrics := metrics a;
     execution_times := execution_times a; currently_processing := currently_processing a;
     progress_value := progress_value a; progress_maximum := v;
     filter_var := filter_var a; strategy_var := strategy_var a |}.

Definition set_filter_var (v : string) (a : app) : app :=
  {| images := images a; sequential_results := sequential_results a;
     parallel_results := parallel_results a; all_results := all_results a;
     output_folder := output_folder a; metrics := metrics a;
     execution_times := execution_times a; currently_processing := currently_processing a;
     progress_value := progress_value a; progress_maximum := progress_maximum a;
     filter_var := v; strategy_var := strategy_var a |}.

Definition set_strategy_var (v : string) (a : app) : app :=
  {| images := images a; sequential_results := sequential_results a;
     parallel_results := parallel_results a; all_results := all_results a;
     output_folder := output_folder a; metrics := metrics a;
     execution_times := execution_times a; currently_processing := currently_processing a;
     progress_value := progress_value a; progress_maximum := progress_maximum a;
     filter_var := filter_var a; strategy_var := v |}.

(** The statements of the callbacks that write the state. *)
Inductive statement : Type :=
| add_image (path : string)
    (* if path not in self.image_paths: append, insert  (load_images, drop_event) *)
| clear_image_paths                  (* self.image_paths.clear() *)
| clear_sequential_results           (* self.sequential_results.clear() *)
| clear_parallel_results             (* self.parallel_results.clear() *)
| clear_all_results                  (* self.all_results.clear() *)
| clear_listbox                      (* self.listbox.delete(0, tk.END) *)
| assign_output_folder (folder : string)     (* self.output_folder = folder *)
| assign_filter_var (name : string)          (* the option menu *)
| assign_strategy_var (name : string)        (* a radio button *)
| raise_flag                         (* self.currently_processing = True *)
| reset_execution_times              (* self.execution_times = {...: 0, ...: 0} *)
| assign_progress_value (v : Z)      (* self.progress_bar["value"] = 0 *)
| assign_progress_maximum (v : Z)    (* self.progress_bar["maximum"] = total_images * 2 *)
| start_thread (selected_filter parallel_strategy : string)
    (* threading.Thread(target=self.run_sequential_then_parallel, ...).start() *)
| increment_progress                 (* self.progress_bar["value"] += 1 *)
| lower_flag.                        (* self.currently_processing = False *)

Definition exec (st : statement) (a : app) : app :=
  match st with
  | add_image path => set_images (Gallery.add_path path (images a)) a
  | clear_image_paths =>
      set_images {| Gallery.image_paths := [];
                    Gallery.listbox := Gallery.listbox (images a) |} a
  | clear_sequential_results => set_sequential_results [] a
  | clear_parallel_results => set_parallel_results [] a
  | clear_all_results => set_all_results [] a
  | clear_listbox =>
      set_images {| Gallery.image_paths := Gallery.image_paths (images a);
                    Gallery.listbox := [] |} a
  | assign_output_folder folder => set_output_folder folder a
  | assign_filter_var name => set_filter_var name a
  | assign_strategy_var name => set_strategy_var name a
  | raise_flag => set_currently_processing true a
  | reset_execution_times => set_execution_times {| Secuencial := 0; Paralelo := 0 |} a
  | assign_progress_value v => set_progress_value v a
  | assign_progress_maximum v => set_progress_maximum v a
  | start_thread _ _ => a
  | increment_progress => set_progress_value (progress_value a + 1) a
  | lower_flag => set_currently_processing false a
  end.

(** What the user does: one of the actions above, or a click on the
    start button. *)
Inductive gesture : Type :=
| Does (e : action)
| ClickStart.

(** The statements that a callback runs, in order, as decided when it
    starts: the tests of [load_images], [drop_event],
    [select_output_folder] and [start_processing] read what only the
    interface thread writes.  A dialog, when a callback opens one, is
    over before its first statement here. *)
Definition statements (g : gesture) (a : app) : list statement :=
  match g with
  | Does (Edit (Gallery.Load paths)) => map add_image paths
  | Does (Edit (Gallery.Drop files)) =>
      map add_image
        (List.filter (fun file =>
                        PyStr.endswith_tuple Gallery.image_suffixes (PyStr.lower file))
           files)
  | Does (Edit Gallery.Clear) =>
      [clear_image_paths; clear_sequential_results; clear_parallel_results;
       clear_all_results; clear_listbox]
  | Does (SelectOutputFolder folder) =>
      if String.eqb folder "" then [] else [assign_output_folder folder]
  | Does (ChooseFilter name) => [assign_filter_var name]
  | Does (ChooseStrategy name) => [assign_strategy_var name]
  | ClickStart =>
      match Gallery.image_paths (images a) with
      | [] => []
      | _ :: _ =>
          if currently_processing a then []
          else
            let total_images := len_Z (Gallery.image_paths (images a)) in
            [raise_flag; clear_sequential_results; clear_parallel_results;
             clear_all_results; reset_execution_times;
             assign_progress_value 0; assign_progress_maximum (total_images * 2);
             start_thread (filter_var a) (strategy_var a)]
      end
  end.

(** What a worker has queued with [self.after(0, ...)] for the interface
    thread to run. *)
Inductive scheduled : Type :=
| UpdateProgress
| FinishProcessing (parallel_strategy : string).

Definition body (c : scheduled) : list statement :=
  match c with
  | UpdateProgress => [increment_progress]
  | FinishProcessing _ => [lower_flag]
  end.

(** The list that the local [results] of a worker is bound to: one that
    only this thread knows, or the very list an attribute of the
    application is bound to ([self.sequential_results] from line 548 on,
    [self.parallel_results] from line 571 on), which [clear_list] and
    [start_processing] empty in place. *)
Inductive local_list : Type :=
| own (results : list result)
| shared.

Definition read (attribute : list result) (results : local_list) : list result :=
  match results with
  | own results => results
  | shared => attribute
  end.

(** Where a thread that runs [run_sequential_then_parallel] is: in a
    call of the engine, or before the line named. *)
Inductive worker : Type :=
| InSequential (selected_filter parallel_strategy : string)
    (* in process_image_sequential *)
| At548 (selected_filter parallel_strategy : string) (results : list result) (elapsed : Q)
    (* self.sequential_results = results *)
| At549 (selected_filter parallel_strategy : string) (results : local_list) (elapsed : Q)
    (* self.execution_times["Secuencial"] = elapsed *)
| At550 (selected_filter parallel_strategy : string) (results : local_list)
    (* self.all_results.extend(results) *)
| At553 (selected_filter parallel_strategy : string) (results : local_list) (index : nat)
    (* for _ in results: self.after(0, self.update_progress) *)
| InParallel (selected_filter parallel_strategy : string)
    (* in the pause, then in the pool of run_multithread_version / run_actor_version *)
| AtAppend (parallel_strategy : string) (results : list result) (elapsed : Q)
    (* self.metrics[...].append(elapsed), the last line but one of either *)
| At571 (parallel_strategy : string) (results : list result) (elapsed : Q)
    (* self.parallel_results = results *)
| At572 (parallel_strategy : string) (results : local_list) (elapsed : Q)
    (* self.execution_times["Paralelo"] = elapsed *)
| At573 (parallel_strategy : string) (results : local_list)
    (* self.all_results.extend(results) *)
| At576 (parallel_strategy : string) (results : local_list) (index : nat)
    (* for _ in results: self.after(0, self.update_progress) *)
| At583 (parallel_strategy : string).
    (* self.after(0, self.finish_processing, parallel_strategy) *)

(** When a thread rebinds [self.sequential_results] (or
    [self.parallel_results]), a thread whose [results] was the list it
    was bound to keeps that list, which the application no longer
    reaches. *)
Definition keep_sequential (current : list result) (w : worker) : worker :=
  match w with
  | At549 f p shared elapsed => At549 f p (own current) elapsed
  | At550 f p shared => At550 f p (own current)
  | At553 f p shared index => At553 f p (own current) index
  | _ => w
  end.

Definition keep_parallel (current : list result) (w : worker) : worker :=
  match w with
  | At572 p shared elapsed => At572 p (own current) elapsed
  | At573 p shared => At573 p (own current)
  | At576 p shared index => At576 p (own current) index
  | _ => w
  end.

Record system : Type := System {
  gui : app;
  running : list statement;     (* what is left of the callback in progress *)
  after_queue : list scheduled; (* the callbacks queued by self.after(0, ...) *)
  workers : list worker
}.

Definition booted (cwd : string) : system :=
  {| gui := __init__ cwd; running := []; after_queue := []; workers := [] |}.

(** The thread that a statement starts. *)
Definition spawned (st : statement) : list worker :=
  match st with
  | start_thread selected_filter parallel_strategy =>
      [InSequential selected_filter parallel_strategy]
  | _ => []
  end.

(** The moves.  Between two callbacks the interface thread takes an
    event of the user or a queued callback (Tk runs the queued ones in
    the order they were queued; any of them may be taken here); it then
    runs the statements of the callback one by one.  A worker runs its
    own statements one by one; the engine may return any list of results
    and any time. *)
Inductive step : system -> system -> Prop :=
| event s g :
    running s = [] ->
    step s {| gui := gui s; running := statements g (gui s);
              after_queue := after_queue s; workers := workers s |}
| callback s q1 c q2 :
    running s = [] ->
    after_queue s = (q1 ++ c :: q2)%list ->
    step s {| gui := gui s; running := body c;
              after_queue := (q1 ++ q2)%list; workers := workers s |}
| run_statement s st rest :
    running s = st :: rest ->
    step s {| gui := exec st (gui s); running := rest;
              after_queue := after_queue s;
              workers := (workers s ++ spawned st)%list |}
| sequential_returns s w1 f p w2 results elapsed :
    workers s = (w1 ++ InSequential f p :: w2)%list ->
    step s {| gui := gui s; running := running s; after_queue := after_queue s;
              workers := (w1 ++ At548 f p results elapsed :: w2)%list |}
| line_548 s w1 f p results elapsed w2 :
    workers s = (w1 ++ At548 f p results elapsed :: w2)%list ->
    step s {| gui := set_sequential_results results (gui s);
              running := running s; after_queue := after_queue s;
              workers := (map (keep_sequential (sequential_results (gui s))) w1
                          ++ At549 f p shared elapsed
                          :: map (keep_sequential (sequential_results (gui s))) w2)%list |}
| line_549 s w1 f p results elapsed w2 :
    workers s = (w1 ++ At549 f p results elapsed :: w2)%list ->
    step s {| gui := set_execution_times
                       {| Secuencial := elapsed;
                          Paralelo := Paralelo (execution_times (gui s)) |} (gui s);
              running := running s; after_queue := after_queue s;
              workers := (w1 ++ At550 f p results :: w2)%list |}
| line_550 s w1 f p results w2 :
    workers s = (w1 ++ At550 f p results :: w2)%list ->
    step s {| gui := set_all_results
                       (all_results (gui s)
                        ++ read (sequential_results (gui s)) results)%list (gui s);
              running := running s; after_queue := after_queue s;
              workers := (w1 ++ At553 f p results 0 :: w2)%list |}
| line_554 s w1 f p results index w2 :
    workers s = (w1 ++ At553 f p results index :: w2)%list ->
    (index < length (read (sequential_results (gui s)) results))%nat ->
    step s {| gui := gui s; running := running s;
              after_queue := (after_queue s ++ [UpdateProgress])%list;
              workers := (w1 ++ At553 f p results (S index) :: w2)%list |}
| line_556 s w1 f p results index w2 :
    workers s = (w1 ++ At553 f p results index :: w2)%list ->
    (length (read (sequential_results (gui s)) results) <= index)%nat ->
    step s {| gui := gui s; running := running s; after_queue := after_queue s;
              workers := (w1 ++ InParallel f p :: w2)%list |}
| parallel_returns s w1 f p w2 results elapsed :
    workers s = (w1 ++ InParallel f p :: w2)%list ->
    step s {| gui := gui s; running := running s; after_queue := after_queue s;
              workers := (w1 ++ AtAppend p results elapsed :: w2)%list |}
| append_metric s w1 p results elapsed w2 :
    workers s = (w1 ++ AtAppend p results elapsed :: w2)%list ->
    step s {| gui := snd ((if String.eqb p "multithread"
                           then run_multithread_version
                           else run_actor_version) (results, elapsed) (gui s));
              running := running s; after_queue := after_queue s;
              workers := (w1 ++ At571 p results elapsed :: w2)%list |}
| line_571 s w1 p results elapsed w2 :
    workers s = (w1 ++ At571 p results elapsed :: w2)%list ->
    step s {| gui := set_parallel_results results (gui s);
              running := running s; after_queue := after_queue s;
              workers := (map (keep_parallel (parallel_results (gui s))) w1
                          ++ At572 p shared elapsed
                          :: map (keep_parallel (parallel_results (gui s))) w2)%list |}
| line_572 s w1 p results elapsed w2 :
    workers s = (w1 ++ At572 p results elapsed :: w2)%list ->
    step s {| gui := set_execution_times
                       {| Secuencial := Secuencial (execution_times (gui s));
                          Paralelo := elapsed |} (gui s);
              running := running s; after_queue := after_queue s;
              workers := (w1 ++ At573 p results :: w2)%list |}
| line_573 s w1 p results w2 :
    workers s = (w1 ++ At573 p results :: w2)%list ->
    step s {| gui := set_all_results
                       (all_results (gui s)
                        ++ read (parallel_results (gui s)) results)%list (gui s);
              running := running s; after_queue := after_queue s;
              workers := (w1 ++ At576 p results 0 :: w2)%list |}
| line_577 s w1 p results index w2 :
    workers s = (w1 ++ At576 p results index :: w2)%list ->
    (index < length (read (parallel_results (gui s)) results))%nat ->
    step s {| gui := gui s; running := running s;
              after_queue := (after_queue s ++ [UpdateProgress])%list;
              workers := (w1 ++ At576 p results (S index) :: w2)%list |}
| line_579 s w1 p results index w2 :
    workers s = (w1 ++ At576 p results index :: w2)%list ->
    (length (read (parallel_results (gui s)) results) <= index)%nat ->
    step s {| gui := gui s; running := running s; after_queue := after_queue s;
              workers := (w1 ++ At583 p :: w2)%list |}
| line_583 s w1 p w2 :
    workers s = (w1 ++ At583 p :: w2)%list ->
    step s {| gui := gui s; running := running s;
              after_queue := (after_queue s ++ [FinishProcessing p])%list;
              workers := (w1 ++ w2)%list |}.

(** A comparison that has been started and has not yet lowered the flag
    is in one of three places: the [start_thread] of a
    [start_processing] in progress, a worker thread, or a queued
    [finish_processing]. *)
Definition starts (sts : list statement) : nat :=
  length (List.filter (fun st => match st with start_thread _ _ => true | _ => false end)
            sts).



(** The flag as it will stand when the callback in progress is over. *)
Definition flag_after (sts : list statement) (flag : bool) : bool :=
  foldl (fun flag st =>
           match st with
           | raise_flag => true
           | lower_flag => false
           | _ => flag
           end) flag sts.

(** A statement that neither writes the flag nor starts a thread. *)
Definition plain (st : statement) : Prop :=
  match st with
  | raise_flag | lower_flag | start_thread _ _ => False
  | _ => True
  end.


(** What the parallel phase of a comparison gets from the engine: the
    list returned by a run of the chosen pool (four workers, four actors)
    on the images loaded when the phase starts. *)
Definition parallel_outcome {World Img : Type} `{Imaging World Img}
    (parallel_strategy selected_filter : string) (a : app)
    (m : machine (World:=World) (Img:=Img)) (results : list result) : Prop :=
  if String.eqb parallel_strategy "multithread" then
    exists k s,
      nsteps (ThreadPool.step 4) k
        (ThreadPool.init m (Gallery.image_paths (images a)) selected_filter
           (output_folder a)) s
      /\ ThreadPool.returns s /\ ThreadPool.results s = results
  else
    exists k s,
      nsteps (ActorPool.step actor_task process_image
                (Gallery.image_paths (images a)) selected_filter (output_folder a)) k
        (ActorPool.init m 4) s
      /\ ActorPool.returns s /\ ActorPool.results s = results.

End Prueba2App.

(** ** Scenes to run the application on *)

Module Scenario.

(** prueba.py with two images loaded, one of which is not on the disk of
    [Demo], and with one. *)
Definition two_loaded : PruebaApp.app :=
  {| PruebaApp.images :=
       Gallery.load_images ["/fotos/gato.png"; "/fotos/pez.png"] Gallery.__init__;
     PruebaApp.processed_paths := ∅;
     PruebaApp.processed_counter := 7; PruebaApp.error_counter := 1;
     PruebaApp.output_folder := "/out";
     PruebaApp.metrics :=
       {| Prueba.sequential := []; Prueba.parallel_process := [];
          Prueba.parallel_thread := [2%Q]; Prueba.actor_model := [] |};
     PruebaApp.progress_value := 8; PruebaApp.progress_maximum := 8 |}.


Definition gato_done : Prueba.result :=
  Prueba.OK "/fotos/gato.png" "/out/gato_grises.png" "Procesado: gato.png" "Grises".

Definition pez_failed : Prueba.result :=
  Prueba.ERROR "/fotos/pez.png" "Error en pez.png: No such file or directory".


(** prueba2.py with one image loaded and the thread pool chosen. *)
Definition ready : Prueba2App.app :=
  Prueba2App.act (Prueba2App.__init__ "/home/u")
    (Prueba2App.Edit (Gallery.Load ["/fotos/gato.png"])).

Definition gato_secuencial : Prueba2.result :=
  Prueba2.OK "/fotos/gato.png" "/home/u/output/gato_secuencial.png"
    "Procesado: gato.png (secuencial)" "Desenfoque" "secuencial".

Definition gato_multihilo : Prueba2.result :=
  Prueba2.OK "/fotos/gato.png" "/home/u/output/gato_multihilo.png"
    "Procesado: gato.png (multihilo)" "Desenfoque" "multihilo".

(** A comparison that took 2 s and then 0.5 s. *)
Definition compared : Prueba2App.app :=
  Prueba2App.finish_processing
    (Prueba2App.parallel_phase "multithread" ([gato_multihilo], (1 # 2)%Q)
       (Prueba2App.sequential_phase ([gato_secuencial], 2%Q)
          (fst (Prueba2App.start_processing ready)))).

(** The same comparison when the sequential phase is over, and when
    all is over. *)
Definition halfway : Prueba2App.system :=
  {| Prueba2App.gui :=
       Prueba2App.sequential_phase ([gato_secuencial], 2%Q)
         (fst (Prueba2App.start_processing ready));
     Prueba2App.running := []; Prueba2App.after_queue := [];
     Prueba2App.workers := [Prueba2App.InParallel "Desenfoque" "multithread"] |}.

Definition over : Prueba2App.system :=
  {| Prueba2App.gui := compared; Prueba2App.running := [];
     Prueba2App.after_queue := []; Prueba2App.workers := [] |}.

End Scenario.
(** * Facts *)

(** ** The path functions at work *)

Example basename_nested : OsPath.basename "/home/u/fotos/gato.png" = "gato.png".
Proof. reflexivity. Qed.

Example splitext_plain : OsPath.splitext "gato.png" = ("gato", ".png").
Proof. reflexivity. Qed.

Example splitext_hidden : OsPath.splitext ".bashrc" = (".bashrc", "").
Proof. reflexivity. Qed.

Example splitext_two_dots : OsPath.splitext "a.tar.gz" = ("a.tar", ".gz").
Proof. reflexivity. Qed.

Example join_plain : OsPath.join "/tmp/output" "gato_actor.png" = "/tmp/output/gato_actor.png".
Proof. reflexivity. Qed.

Example join_trailing_sep : OsPath.join "out/" "gato_actor.png" = "out/gato_actor.png".
Proof. reflexivity. Qed.

(** ** Runs on the small world *)

Example demo_ok :
  fst (run (Prueba2.process_image ("/fotos/gato.png", "Grises", "/out", "actor"))
         (Demo.boot Demo.disk))
  = Returned (Prueba2.OK "/fotos/gato.png" "/out/gato_actor.png"
                "Procesado: gato.png (actor)" "Grises" "actor").
Proof. reflexivity. Qed.

Example demo_missing :
  fst (run (Prueba2.process_image ("/fotos/pez.png", "Grises", "/out", "actor"))
         (Demo.boot Demo.disk))
  = Returned (Prueba2.ERROR "/fotos/pez.png"
                "Error en pez.png: No such file or directory" "actor").
Proof. reflexivity. Qed.

Example demo_prueba_tag :
  fst (run (Prueba.process_image (U:=Demo.unicode) ("/fotos/gato.png", "Grises", "/out"))
         (Demo.boot Demo.disk))
  = Returned (Prueba.OK "/fotos/gato.png" "/out/gato_grises.png" "Procesado: gato.png" "Grises").
Proof. reflexivity. Qed.

Example demo_sequential :
  fst (run (Prueba2.process_image_sequential ["/fotos/pez.png"; "/fotos/perro.jpg"] "Bordes" "/out")
         (Demo.boot Demo.disk))
  = Returned ([Prueba2.ERROR "/fotos/pez.png"
                 "Error en pez.png: No such file or directory" "secuencial";
               Prueba2.OK "/fotos/perro.jpg" "/out/perro_secuencial.jpg"
                 "Procesado: perro.jpg (secuencial)" "Bordes" "secuencial"],
              (3 - 2)%Q).
Proof. reflexivity. Qed.

(** ** Running programs *)

Section RunFacts.
Context {World Img : Type} `{Imaging World Img}.

Lemma run_bind {A B} (c : prog Img A) (k : A -> prog Img B) (m : machine) :
  run (bind c k) m =
  match run c m with
  | (Returned a, m') => run (k a) m'
  | (Raised e, m') => (Raised e, m')
  | (Blocked, m') => (Blocked, m')
  end.
Proof.
  revert m. induction c as [a | e | X ev h IH]; intros m; simpl; try reflexivity.
  destruct (handle ev m) as [[ans m'] | ]; [apply IH | reflexivity].
Qed.

(** Only an [Acquire] can make a thread wait. *)
Lemma handle_other {X} (ev : event Img X) (m : machine) :
  kind_of ev <> KAcquire -> exists ans m', handle ev m = Some (ans, m').
Proof.
  destruct ev; simpl; intros Hk; try congruence; eauto;
    match goal with |- context [let '(_, _) := ?o in _] => destruct o; eauto end.
Qed.

(** The gate never raises. *)
Lemma handle_gate_returned {X} (ev : event Img X) (m m' : machine) (ans : answer X) :
  handle ev m = Some (ans, m') -> kind_of ev <> KOther -> returned ans.
Proof.
  destruct ev; simpl; intros Hh Hk; try congruence.
  - destruct (0 <? semaphore_value m)%Z; inversion Hh; subst. by eexists.
  - inversion Hh; subst. by eexists.
Qed.

Lemma isolates_weaken {A} (Perr Perr' : exn -> A -> Prop) (Pok Pok' : A -> Prop)
    (p : prog Img A) :
  (forall e a, Perr e a -> Perr' e a) -> (forall a, Pok a -> Pok' a) ->
  isolates Perr Pok p -> isolates Perr' Pok' p.
Proof.
  intros Herr Hok. induction p as [a | e | X ev h IH]; simpl; auto.
  intros (Hk & He & Hv). split; [done | split].
  - intros e. destruct (He e) as (a & Ha & Hp). eauto.
  - intros v. apply IH, Hv.
Qed.

(** A program that isolates failures always returns. *)
Lemma isolates_run {A} (Perr : exn -> A -> Prop) (Pok : A -> Prop) (p : prog Img A) :
  isolates Perr Pok p ->
  forall m, exists a m', run p m = (Returned a, m') /\ (Pok a \/ exists e, Perr e a).
Proof.
  induction p as [a | e | X ev h IH]; simpl.
  - intros Ha m. eauto.
  - intros [].
  - intros (Hk & He & Hv) m.
    destruct (handle_other ev m) as (ans & m' & Hh); [congruence | ].
    rewrite Hh. destruct ans as [e | v].
    + destruct (He e) as (a & Ha & Hp). rewrite Ha. simpl. eauto 6.
    + apply IH, Hv.
Qed.

(** Programs that isolate failures touch neither the semaphore nor its
    tally. *)
Lemma isolates_gate {A} (Perr : exn -> A -> Prop) (Pok : A -> Prop) (p : prog Img A) :
  isolates Perr Pok p ->
  forall m, semaphore_value (snd (run p m)) = semaphore_value m
            /\ active_processes (snd (run p m)) = active_processes m.
Proof.
  induction p as [a | e | X ev h IH]; simpl; auto.
  intros (Hk & He & Hv) m.
  assert (Hm : forall ans m', handle ev m = Some (ans, m') ->
               semaphore_value m' = semaphore_value m
               /\ active_processes m' = active_processes m).
  { clear -Hk. destruct ev; simpl in *; try congruence; intros ans m' Hh;
      repeat match goal with
             | H : context [let '(_, _) := ?o in _] |- _ => destruct o
             end; inversion Hh; subst; auto. }
  destruct (handle ev m) as [[ans m'] | ] eqn:Hh; [ | auto].
  destruct (Hm _ _ eq_refl) as [<- <-]. destruct ans as [e | v].
  - destruct (He e) as (a & -> & _). auto.
  - apply IH, Hv.
Qed.

End RunFacts.

(** ** Strings and paths *)

Lemma prefix_append (a b : string) : String.prefix a (a ++ b) = true.
Proof.
  induction a as [ | c a IH]; simpl.
  - by destruct b.
  - destruct (ascii_dec c c); [exact IH | congruence].
Qed.

Lemma contains_here (needle rest : string) : PyStr.contains needle (needle ++ rest) = true.
Proof.
  destruct needle as [ | c needle].
  - simpl. destruct rest; reflexivity.
  - change (String.prefix (String c needle) (String c needle ++ rest)
            || PyStr.contains (String c needle) (needle ++ rest) = true).
    by rewrite prefix_append.
Qed.

Lemma contains_middle (before needle rest : string) :
  PyStr.contains needle (before ++ needle ++ rest) = true.
Proof.
  induction before as [ | c before IH].
  - exact (contains_here needle rest).
  - change (String.prefix needle (String c (before ++ needle ++ rest))
            || PyStr.contains needle (before ++ needle ++ rest) = true).
    rewrite IH. apply orb_true_r.
Qed.

Lemma error_message_readable (image_path : string) (e : exn) :
  error_message image_path e <> ""
  /\ PyStr.contains (OsPath.basename image_path) (error_message image_path e) = true.
Proof.
  split; [discriminate | ]. apply (contains_middle "Error en ").
Qed.

Lemma rfind_from_sep (s : string) (i found : Z) :
  (found < i)%Z ->
  let r := PyStr.rfind_from OsPath.sep s i found in
  (r = found /\ sep_free s = true)
  \/ ((i <= r)%Z /\ sep_free (PyStr.drop (Z.to_nat (r + 1 - i)) s) = true).
Proof.
  revert i found. induction s as [ | a s IH]; intros i found Hlt; simpl.
  - left. done.
  - destruct (Ascii.eqb a OsPath.sep) eqn:Ha; simpl.
    + destruct (IH (i + 1)%Z i ltac:(lia)) as [[Hr Hs] | [Hr Hs]].
      * right. rewrite Hr. split; [lia | ].
        replace (Z.to_nat (i + 1 - i)) with 1%nat by lia. exact Hs.
      * right. split; [lia | ].
        replace (Z.to_nat (PyStr.rfind_from OsPath.sep s (i + 1) i + 1 - i))
          with (S (Z.to_nat (PyStr.rfind_from OsPath.sep s (i + 1) i + 1 - (i + 1)))) by lia.
        exact Hs.
    + destruct (IH (i + 1)%Z found ltac:(lia)) as [[Hr Hs] | [Hr Hs]].
      * left. split; [exact Hr | exact Hs].
      * right. split; [lia | ].
        replace (Z.to_nat (PyStr.rfind_from OsPath.sep s (i + 1) found + 1 - i))
          with (S (Z.to_nat (PyStr.rfind_from OsPath.sep s (i + 1) found + 1 - (i + 1)))) by lia.
        exact Hs.
Qed.

(** A base name holds no separator. *)
Lemma basename_sep_free (p : string) : sep_free (OsPath.basename p) = true.
Proof.
  unfold OsPath.basename, PyStr.rfind.
  destruct (rfind_from_sep p 0 (-1) ltac:(lia)) as [[Hr Hs] | [Hr Hs]].
  - rewrite Hr. exact Hs.
  - replace (PyStr.rfind_from OsPath.sep p 0 (-1) + 1)%Z
      with (PyStr.rfind_from OsPath.sep p 0 (-1) + 1 - 0)%Z by lia.
    exact Hs.
Qed.

Lemma startswith_take (c : ascii) (n : nat) (s : string) :
  PyStr.startswith c (PyStr.take n s) = true -> PyStr.startswith c s = true.
Proof. destruct n, s; simpl; auto; discriminate. Qed.

Lemma sep_free_startswith (s : string) :
  sep_free s = true -> PyStr.startswith OsPath.sep s = false.
Proof.
  destruct s as [ | a s]; simpl; [done | ].
  destruct (Ascii.eqb a OsPath.sep); [discriminate | done].
Qed.

(** The stem that [splitext] gives for a base name does not start with a
    separator, so neither does the file name built on it. *)
Lemma splitext_stem (p : string) :
  PyStr.startswith OsPath.sep (fst (OsPath.splitext (OsPath.basename p))) = false.
Proof.
  pose proof (sep_free_startswith _ (basename_sep_free p)) as Hb.
  unfold OsPath.splitext.
  repeat match goal with |- context [if ?c then _ else _] => destruct c end; simpl; auto.
  destruct (PyStr.startswith OsPath.sep (PyStr.take _ _)) eqn:Ht; [ | done].
  apply startswith_take in Ht. congruence.
Qed.

Lemma output_filename_relative (p tag : string) :
  let '(name, ext) := OsPath.splitext (OsPath.basename p) in
  PyStr.startswith OsPath.sep (name ++ "_" ++ tag ++ ext) = false.
Proof.
  pose proof (splitext_stem p) as Hs.
  destruct (OsPath.splitext (OsPath.basename p)) as [name ext]. simpl in Hs.
  destruct name; [reflexivity | exact Hs].
Qed.


(** ** process_image *)

(** One step of the walk down the tree of [process_image]: the event is not
    a gate operation, a failure gives the error result at once, a success
    goes on. *)
Ltac walk :=
  repeat first
    [ progress simpl
    | match goal with
      | |- context [String.eqb ?a ?b] => destruct (String.eqb a b)
      | |- context [OsPath.splitext ?p] => destruct (OsPath.splitext p)
      | |- _ /\ _ => split
      | |- forall _, _ => intro
      | |- exists _, _ = _ /\ _ => eexists; split; [reflexivity | ]
      end
    | reflexivity ].

Section ProcessImageFacts.
Context {Img : Type}.
Context {U : PyStr.Unicode}.

Lemma process_image2_isolates (image_path selected_filter output_folder method : string) :
  isolates (Img:=Img)
    (fun e r => r = Prueba2.ERROR image_path (error_message image_path e) method)
    (fun r => r = Prueba2.OK image_path (output_path2 image_path output_folder method)
                    ("Procesado: " ++ OsPath.basename image_path ++ " (" ++ method ++ ")")
                    selected_filter method)
    (Prueba2.process_image (image_path, selected_filter, output_folder, method)).
Proof.
  unfold Prueba2.process_image, output_path2, error_message. walk.
Qed.

Lemma process_image1_isolates (image_path selected_filter output_folder : string) :
  isolates (Img:=Img)
    (fun e r => r = Prueba.ERROR image_path (error_message image_path e))
    (fun r => r = Prueba.OK image_path
                    (output_path1 image_path selected_filter output_folder)
                    ("Procesado: " ++ OsPath.basename image_path) selected_filter)
    (Prueba.process_image (image_path, selected_filter, output_folder)).
Proof.
  unfold Prueba.process_image, output_path1, error_message. walk.
Qed.

End ProcessImageFacts.

Section SequentialFacts.
Context {World Img : Type} `{Imaging World Img}.
Context {U : PyStr.Unicode}.

(** [process_image] always returns, and its result names its image. *)
Lemma process_image2_returns (image_path selected_filter output_folder method : string)
    (m : machine) :
  exists r m',
    run (Prueba2.process_image (image_path, selected_filter, output_folder, method)) m
    = (Returned r, m')
    /\ Prueba2.original r = image_path /\ Prueba2.method r = method.
Proof.
  destruct (isolates_run _ _ _
              (process_image2_isolates image_path selected_filter output_folder method) m)
    as (r & m' & Hrun & [-> | [e ->]]); eauto.
Qed.

Lemma process_image1_returns (image_path selected_filter output_folder : string)
    (m : machine) :
  exists r m',
    run (Prueba.process_image (image_path, selected_filter, output_folder)) m
    = (Returned r, m')
    /\ Prueba.original r = image_path.
Proof.
  destruct (isolates_run _ _ _
              (process_image1_isolates image_path selected_filter output_folder) m)
    as (r & m' & Hrun & [-> | [e ->]]); eauto.
Qed.

Lemma sequential_loop2_run (image_paths : list string) (selected_filter output_folder : string) :
  forall (results : list Prueba2.result) (m : machine),
  exists rs m',
    run (Prueba2.sequential_loop image_paths selected_filter output_folder results) m
    = (Returned (results ++ rs)%list, m')
    /\ map Prueba2.original rs = image_paths.
Proof.
  induction image_paths as [ | image_path rest IH]; intros results m.
  - exists [], m. simpl. by rewrite app_nil_r.
  - cbn [Prueba2.sequential_loop]. rewrite run_bind.
    destruct (process_image2_returns image_path selected_filter output_folder "secuencial" m)
      as (r & m1 & -> & Ho & _).
    destruct (IH (results ++ [r])%list m1) as (rs & m' & -> & Hrs).
    exists (r :: rs), m'. rewrite <- app_assoc. simpl. by rewrite Ho, Hrs.
Qed.

Lemma sequential_loop1_run (image_paths : list string) (selected_filter output_folder : string) :
  forall (results : list Prueba.result) (m : machine),
  exists rs m',
    run (Prueba.sequential_loop image_paths selected_filter output_folder results) m
    = (Returned (results ++ rs)%list, m')
    /\ map Prueba.original rs = image_paths.
Proof.
  induction image_paths as [ | image_path rest IH]; intros results m.
  - exists [], m. simpl. by rewrite app_nil_r.
  - cbn [Prueba.sequential_loop]. rewrite run_bind.
    destruct (process_image1_returns image_path selected_filter output_folder m)
      as (r & m1 & -> & Ho).
    destruct (IH (results ++ [r])%list m1) as (rs & m' & -> & Hrs).
    exists (r :: rs), m'. rewrite <- app_assoc. simpl. by rewrite Ho, Hrs.
Qed.

Lemma sequential2_run (image_paths : list string) (selected_filter output_folder : string)
    (m : machine) :
  exists results elapsed_time m',
    run (Prueba2.process_image_sequential image_paths selected_filter output_folder) m
    = (Returned (results, elapsed_time), m')
    /\ map Prueba2.original results = image_paths.
Proof.
  unfold Prueba2.process_image_sequential. rewrite run_bind. cbn [run time_time perform handle].
  rewrite run_bind.
  match goal with
  | |- context [run (_ image_paths _ _ []) ?m0] =>
      destruct (sequential_loop2_run image_paths selected_filter output_folder [] m0)
        as (rs & m' & -> & Hrs)
  end.
  simpl. eauto.
Qed.

Lemma sequential1_run (image_paths : list string) (selected_filter output_folder : string)
    (m : machine) :
  exists results elapsed_time m',
    run (Prueba.process_image_sequential image_paths selected_filter output_folder) m
    = (Returned (results, elapsed_time), m')
    /\ map Prueba.original results = image_paths.
Proof.
  unfold Prueba.process_image_sequential. rewrite run_bind. cbn [run time_time perform handle].
  rewrite run_bind.
  match goal with
  | |- context [run (_ image_paths _ _ []) ?m0] =>
      destruct (sequential_loop1_run image_paths selected_filter output_folder [] m0)
        as (rs & m' & -> & Hrs)
  end.
  simpl. eauto.
Qed.

End SequentialFacts.

Lemma map_lookup_original {A} (f : A -> string) (l : list A) (paths : list string) :
  map f l = paths ->
  length l = length paths
  /\ forall i p, paths !! i = Some p -> f <$> (l !! i) = Some p.
Proof.
  intros <-. split; [by rewrite length_map | ].
  intros i p Hp. by rewrite <- list_lookup_fmap.
Qed.

(** ** Claims about the per-task operation and the sequential strategy *)

(** C1. [process_image] never raises past its own boundary: whatever the
    collaborators do, a run returns exactly one result; as soon as one step
    (sleeping, opening, converting, filtering, saving) raises [e], the
    result is the [ERROR] result whose message is
    ["Error en <basename>: <str e>"], a non-empty string that contains the
    base name of the image; and a batch holding the task still returns one
    result per path, so a failing task robs no sibling of its result.
    Both programs. *)
Theorem process_image_isolates_failures :
  forall (World Img : Type) (I : Imaging World Img) (U : PyStr.Unicode)
         (image_path selected_filter output_folder method : string)
         (m : machine (World:=World) (Img:=Img)),
    (* prueba2.py *)
    (isolates (Img:=Img)
       (fun e r => r = Prueba2.ERROR image_path (error_message image_path e) method)
       (fun r => Prueba2.status r = "OK")
       (Prueba2.process_image (image_path, selected_filter, output_folder, method))
     /\ (exists r m',
           run (Prueba2.process_image (image_path, selected_filter, output_folder, method)) m
           = (Returned r, m'))
     /\ (forall before after : list string,
           exists results elapsed m',
             run (Prueba2.process_image_sequential (before ++ image_path :: after)
                    selected_filter output_folder) m
             = (Returned (results, elapsed), m')
             /\ map Prueba2.original results = (before ++ image_path :: after)%list))
    (* prueba.py *)
    /\ (isolates (Img:=Img)
          (fun e r => r = Prueba.ERROR image_path (error_message image_path e))
          (fun r => Prueba.status r = "OK")
          (Prueba.process_image (image_path, selected_filter, output_folder))
        /\ (exists r m',
              run (Prueba.process_image (image_path, selected_filter, output_folder)) m
              = (Returned r, m'))
        /\ (forall before after : list string,
              exists results elapsed m',
                run (Prueba.process_image_sequential (before ++ image_path :: after)
                       selected_filter output_folder) m
                = (Returned (results, elapsed), m')
                /\ map Prueba.original results = (before ++ image_path :: after)%list))
    (* the message *)
    /\ (forall e, error_message image_path e <> ""
                  /\ PyStr.contains (OsPath.basename image_path)
                       (error_message image_path e) = true).
Proof.
  intros World Img I U image_path selected_filter output_folder method m.
  split; [ | split]; [split; [ | split] | split; [ | split] | ].
  - eapply isolates_weaken; [ | | apply process_image2_isolates]; simpl; [eauto | ].
    by intros r ->.
  - destruct (process_image2_returns image_path selected_filter output_folder method m)
      as (r & m' & Hr & _). eauto.
  - intros before after. apply sequential2_run.
  - eapply isolates_weaken; [ | | apply process_image1_isolates]; simpl; [eauto | ].
    by intros r ->.
  - destruct (process_image1_returns image_path selected_filter output_folder m)
      as (r & m' & Hr & _). eauto.
  - intros before after. apply sequential1_run.
  - apply error_message_readable.
Qed.

(** C5. The Sequential strategy returns one result per input path, in
    submission order: the [i]-th result's [original] is the [i]-th path.
    Both programs. *)
Theorem sequential_preserves_order :
  forall (World Img : Type) (I : Imaging World Img) (U : PyStr.Unicode)
         (image_paths : list string) (selected_filter output_folder : string)
         (m : machine (World:=World) (Img:=Img)),
    (exists results elapsed m',
       run (Prueba2.process_image_sequential image_paths selected_filter output_folder) m
       = (Returned (results, elapsed), m')
       /\ length results = length image_paths
       /\ forall i p, image_paths !! i = Some p ->
                      Prueba2.original <$> (results !! i) = Some p)
    /\ (exists results elapsed m',
          run (Prueba.process_image_sequential image_paths selected_filter output_folder) m
          = (Returned (results, elapsed), m')
          /\ length results = length image_paths
          /\ forall i p, image_paths !! i = Some p ->
                         Prueba.original <$> (results !! i) = Some p).
Proof.
  intros World Img I U image_paths selected_filter output_folder m. split.
  - destruct (sequential2_run image_paths selected_filter output_folder m)
      as (results & elapsed & m' & Hrun & Ho).
    exists results, elapsed, m'. split; [exact Hrun | ].
    by apply map_lookup_original.
  - destruct (sequential1_run image_paths selected_filter output_folder m)
      as (results & elapsed & m' & Hrun & Ho).
    exists results, elapsed, m'. split; [exact Hrun | ].
    by apply map_lookup_original.
Qed.

Section OutputPath.
Context {World Img : Type} `{Imaging World Img}.
Context {U : PyStr.Unicode}.

Lemma process_image2_ok (image_path selected_filter output_folder method : string)
    (m m' : machine) (r : Prueba2.result) :
  run (Prueba2.process_image (image_path, selected_filter, output_folder, method)) m
  = (Returned r, m') ->
  Prueba2.status r = "OK" ->
  Prueba2.output r = Some (output_path2 image_path output_folder method).
Proof.
  intros Hrun Hok.
  destruct (isolates_run _ _ _
              (process_image2_isolates image_path selected_filter output_folder method) m)
    as (r0 & m0 & Hrun0 & Hr0).
  rewrite Hrun in Hrun0. inversion Hrun0; subst r0 m0.
  destruct Hr0 as [-> | [e ->]]; [reflexivity | discriminate].
Qed.

Lemma process_image1_ok (image_path selected_filter output_folder : string)
    (m m' : machine) (r : Prueba.result) :
  run (Prueba.process_image (image_path, selected_filter, output_folder)) m
  = (Returned r, m') ->
  Prueba.status r = "OK" ->
  Prueba.output r = Some (output_path1 image_path selected_filter output_folder).
Proof.
  intros Hrun Hok.
  destruct (isolates_run _ _ _
              (process_image1_isolates image_path selected_filter output_folder) m)
    as (r0 & m0 & Hrun0 & Hr0).
  rewrite Hrun in Hrun0. inversion Hrun0; subst r0 m0.
  destruct Hr0 as [-> | [e ->]]; [reflexivity | discriminate].
Qed.

End OutputPath.




Lemma unrecognized_names (selected_filter : string) :
  recognized selected_filter = false ->
  String.eqb selected_filter "Desenfoque" = false
  /\ String.eqb selected_filter "Grises" = false
  /\ String.eqb selected_filter "Contorno" = false
  /\ String.eqb selected_filter "Emboss" = false
  /\ String.eqb selected_filter "Sharpen" = false
  /\ String.eqb selected_filter "Detalles" = false
  /\ String.eqb selected_filter "Bordes" = false.
Proof.
  unfold recognized. intros Hr.
  repeat match goal with
         | H : (_ || _)%bool = false |- _ => apply orb_false_elim in H; destruct H
         end.
  auto 10.
Qed.

(** C10. A filter name outside the seven known ones is not an error: when
    the collaborators do their part (the sleep, the opening, the RGB
    conversion, the saving), [process_image] returns the [OK] result, and
    what it asked of them is exactly those four calls: the image saved is
    the RGB conversion of the image opened, no filter was applied.  Both
    programs; in prueba.py the file saved to carries the name as
    [str.lower] gives it, whichever characters the name is made of. *)
Theorem unrecognized_filter_is_accepted :
  forall (World Img : Type) (I : Imaging World Img) (U : PyStr.Unicode)
         (image_path selected_filter output_folder method : string)
         (m : machine (World:=World) (Img:=Img))
         (w1 w2 w3 w4 w4' : World) (im rgb : Img),
    recognized selected_filter = false ->
    sleep_op (world m) = (inr tt, w1) ->
    open_op image_path w1 = (inr im, w2) ->
    convert_op im "RGB" w2 = (inr rgb, w3) ->
    save_op rgb (output_path2 image_path output_folder method) w3 = (inr tt, w4) ->
    save_op rgb (output_path1 image_path selected_filter output_folder) w3 = (inr tt, w4') ->
    run (Prueba2.process_image (image_path, selected_filter, output_folder, method)) m
    = (Returned (Prueba2.OK image_path (output_path2 image_path output_folder method)
                   ("Procesado: " ++ OsPath.basename image_path ++ " (" ++ method ++ ")")
                   selected_filter method),
       {| world := w4; semaphore_value := semaphore_value m;
          active_processes := active_processes m;
          calls := (calls m ++ [Did Sleep; Did (Open image_path); Did (Convert im "RGB");
                               Did (Save rgb (output_path2 image_path output_folder method))])%list |})
    /\ run (Prueba.process_image (image_path, selected_filter, output_folder)) m
       = (Returned (Prueba.OK image_path
                      (output_path1 image_path selected_filter output_folder)
                      ("Procesado: " ++ OsPath.basename image_path) selected_filter),
          {| world := w4'; semaphore_value := semaphore_value m;
             active_processes := active_processes m;
             calls := (calls m ++ [Did Sleep; Did (Open image_path); Did (Convert im "RGB");
                                  Did (Save rgb (output_path1 image_path selected_filter
                                                   output_folder))])%list |}).
Proof.
  intros World Img I U image_path selected_filter output_folder method m
         w1 w2 w3 w4 w4' im rgb Hf Hsleep Hopen Hconv Hsave2 Hsave1.
  destruct (unrecognized_names _ Hf) as (E1 & E2 & E3 & E4 & E5 & E6 & E7).
  unfold output_path1, output_path2 in *.
  split.
  - unfold Prueba2.process_image. rewrite E1, E2, E3, E4, E5, E6, E7.
    destruct (OsPath.splitext (OsPath.basename image_path)) as [name ext].
    simpl. rewrite Hsleep. simpl. rewrite Hopen. simpl. rewrite Hconv. simpl.
    simpl in Hsave2. rewrite Hsave2. simpl. unfold outside. simpl.
    by rewrite <- !app_assoc.
  - unfold Prueba.process_image. rewrite E1, E2, E3, E4, E5, E6, E7.
    destruct (OsPath.splitext (OsPath.basename image_path)) as [name ext].
    simpl. rewrite Hsleep. simpl. rewrite Hopen. simpl. rewrite Hconv. simpl.
    simpl in Hsave1. rewrite Hsave1. simpl. unfold outside. simpl.
    by rewrite <- !app_assoc.
Qed.

Lemma unrecognized_filter_is_accepted_witness :
  recognized "ÁRBOL" = false
  /\ run (Prueba2.process_image ("/fotos/gato.png", "ÁRBOL", "/out", "multihilo"))
       (Demo.boot Demo.disk)
     = (Returned (Prueba2.OK "/fotos/gato.png" "/out/gato_multihilo.png"
                    "Procesado: gato.png (multihilo)" "ÁRBOL" "multihilo"),
        {| world := ("/out/gato_multihilo.png", 8%nat) :: Demo.disk;
           semaphore_value := 4; active_processes := 0;
           calls := [Did Sleep; Did (Open "/fotos/gato.png"); Did (Convert 7%nat "RGB");
                     Did (Save 8%nat "/out/gato_multihilo.png")] |})
  /\ run (Prueba.process_image (U:=Demo.unicode) ("/fotos/gato.png", "ÁRBOL", "/out"))
       (Demo.boot Demo.disk)
     = (Returned (Prueba.OK "/fotos/gato.png" "/out/gato_árbol.png"
                    "Procesado: gato.png" "ÁRBOL"),
        {| world := ("/out/gato_árbol.png", 8%nat) :: Demo.disk;
           semaphore_value := 4; active_processes := 0;
           calls := [Did Sleep; Did (Open "/fotos/gato.png"); Did (Convert 7%nat "RGB");
                     Did (Save 8%nat "/out/gato_árbol.png")] |}).
Proof.
  split; [reflexivity | ].
  exact (unrecognized_filter_is_accepted _ _ Demo.imaging Demo.unicode
           "/fotos/gato.png" "ÁRBOL" "/out" "multihilo" (Demo.boot Demo.disk)
           Demo.disk Demo.disk Demo.disk
           (("/out/gato_multihilo.png", 8%nat) :: Demo.disk)
           (("/out/gato_árbol.png", 8%nat) :: Demo.disk)
           7%nat 8%nat eq_refl eq_refl eq_refl eq_refl eq_refl eq_refl).
Defined.

(** ** Speedup and efficiency *)

Section Metrics.
Import PyFloat.
Local Open Scope Q_scope.

Lemma py_div_nonzero (a b : Q) : ~ b == 0 -> py_div a b = Some (a / b).
Proof.
  intros Hb. unfold py_div. destruct (Qeq_bool b 0) eqn:E; [ | reflexivity].
  apply Qeq_bool_eq in E. contradiction.
Qed.

Lemma positive_nonzero (b : Q) : 0 < b -> ~ b == 0.
Proof. intros Hlt Heq. rewrite Heq in Hlt. exact (Qlt_irrefl 0 Hlt). Qed.

Lemma len_positive {A} (l : list A) : l <> [] -> 0 < len l.
Proof.
  destruct l as [ | x l]; [done | intros _].
  unfold len, Qlt. simpl. lia.
Qed.

Lemma average_mean (samples : list Q) :
  samples <> [] -> Prueba.average samples = Some (mean samples).
Proof.
  intros Hne. unfold Prueba.average, mean.
  apply py_div_nonzero, positive_nonzero, len_positive, Hne.
Qed.

Lemma avg_time_defined (samples : list Q) : Prueba.avg_time samples <> None.
Proof.
  destruct samples as [ | x l]; simpl; [done | ].
  change (Prueba.average (x :: l) <> None). by rewrite average_mean.
Qed.

(** What [update_comparison_chart] logs, case by case. *)
Lemma speedup_report_cases (m : Prueba.metrics) (image_paths : list string) :
  Prueba.speedup_report m image_paths =
  match Prueba.sequential m, Prueba.parallel_process m with
  | _ :: _, _ :: _ =>
      if Qlt_le_dec 0 (mean (Prueba.parallel_process m)) then
        let speedup := mean (Prueba.sequential m) / mean (Prueba.parallel_process m) in
        if Qlt_le_dec 0 (len image_paths)
        then Some (Some (speedup, speedup / len image_paths * 100))
        else Some (Some (speedup, 0))
      else Some None
  | _, _ => Some None
  end.
Proof.
  unfold Prueba.speedup_report.
  destruct (Prueba.sequential m) as [ | x xs] eqn:Es; [reflexivity | ].
  destruct (Prueba.parallel_process m) as [ | y ys] eqn:Ep; [reflexivity | ].
  rewrite !average_mean by done.
  destruct (Qlt_le_dec 0 (mean (y :: ys))) as [Hpar | Hpar]; [ | reflexivity].
  rewrite (py_div_nonzero _ _ (positive_nonzero _ Hpar)).
  destruct (Qlt_le_dec 0 (len image_paths)) as [Hn | Hn]; [ | reflexivity].
  by rewrite (py_div_nonzero _ _ (positive_nonzero _ Hn)).
Qed.

Lemma update_metrics_cases (secuencial paralelo : Q) :
  Prueba2.update_metrics secuencial paralelo =
  Some (Prueba2.Labels
          (if Qlt_le_dec 0 secuencial then Some secuencial else None)
          (if Qlt_le_dec 0 paralelo then Some paralelo else None)
          (if Qlt_le_dec 0 paralelo then Some (secuencial / paralelo) else None)
          (if Qlt_le_dec 0 paralelo then Some (secuencial / paralelo / 4 * 100) else None)).
Proof.
  unfold Prueba2.update_metrics.
  destruct (Qlt_le_dec 0 paralelo) as [Hpar | Hpar]; [ | reflexivity].
  by rewrite (py_div_nonzero _ _ (positive_nonzero _ Hpar)).
Qed.

End Metrics.

(** C3, as stated, fails on prueba.py: with a sequential mean of 2.0 s, a
    process-pool mean of 0.5 s and the pool of 4 workers, the speedup
    logged is 4.0 but the efficiency logged for eight loaded images is
    50.0: the divisor is the number of images, not the worker count. *)
Lemma efficiency_ignores_worker_count :
  exists speedup efficiency : Q,
    Prueba.speedup_report Demo.one_run_each Demo.eight_images
    = Some (Some (speedup, efficiency))
    /\ (PyFloat.mean (Prueba.sequential Demo.one_run_each) == 2)%Q
    /\ (PyFloat.mean (Prueba.parallel_process Demo.one_run_each) == 1 # 2)%Q
    /\ (speedup == 4)%Q
    /\ (efficiency == 50)%Q
    /\ ~ (efficiency == speedup / inject_Z Prueba.max_workers * 100)%Q.
Proof.
  eexists; eexists. split; [vm_compute; reflexivity | ].
  repeat split; try reflexivity. discriminate.
Qed.

(** C3, amended to what the programs compute.
    prueba.py ([update_comparison_chart]): with at least one sample in the
    sequential and in the process-pool history and a positive process-pool
    mean, the speedup logged is mean(sequential) / mean(process pool) and
    the efficiency logged is speedup / (number of loaded images) * 100,
    or 0 when no image is loaded; means 2.0 and 0.5 give speedup 4.0, and
    efficiency 100.0 when four images are loaded.
    prueba2.py ([update_metrics]): with a positive parallel time, speedup
    is the sequential time of the last comparison over its parallel time
    and efficiency is speedup / 4 * 100, 4 being the pool size and actor
    count; times 2.0 and 0.5 give 4.0 and 100.0.
    Neither divides by zero: with an empty history or a mean (a time) that
    is not positive, nothing is computed. *)
Theorem speedup_and_efficiency_as_computed :
  forall (m : Prueba.metrics) (image_paths : list string) (secuencial paralelo : Q),
    (* prueba.py *)
    Prueba.update_comparison_chart m image_paths <> None
    /\ (Prueba.sequential m = [] \/ Prueba.parallel_process m = []
        \/ (PyFloat.mean (Prueba.parallel_process m) <= 0)%Q ->
        Prueba.speedup_report m image_paths = Some None)
    /\ (Prueba.sequential m <> [] -> Prueba.parallel_process m <> [] ->
        (0 < PyFloat.mean (Prueba.parallel_process m))%Q ->
        exists speedup efficiency : Q,
          Prueba.speedup_report m image_paths = Some (Some (speedup, efficiency))
          /\ speedup = (PyFloat.mean (Prueba.sequential m)
                        / PyFloat.mean (Prueba.parallel_process m))%Q
          /\ (image_paths <> [] ->
              efficiency = (speedup / PyFloat.len image_paths * 100)%Q)
          /\ (image_paths = [] -> efficiency = 0%Q)
          /\ ((PyFloat.mean (Prueba.sequential m) == 2)%Q ->
              (PyFloat.mean (Prueba.parallel_process m) == 1 # 2)%Q ->
              length image_paths = 4%nat ->
              (speedup == 4)%Q /\ (efficiency == 100)%Q))
    (* prueba2.py *)
    /\ (exists l, Prueba2.update_metrics secuencial paralelo = Some l
          /\ ((paralelo <= 0)%Q ->
              Prueba2.lbl_speedup l = None /\ Prueba2.lbl_eficiencia l = None)
          /\ ((0 < paralelo)%Q ->
              Prueba2.lbl_speedup l = Some (secuencial / paralelo)%Q
              /\ Prueba2.lbl_eficiencia l
                 = Some (secuencial / paralelo / inject_Z Prueba2.max_workers * 100)%Q
              /\ ((secuencial == 2)%Q -> (paralelo == 1 # 2)%Q ->
                  (secuencial / paralelo == 4)%Q
                  /\ (secuencial / paralelo / inject_Z Prueba2.max_workers * 100 == 100)%Q))).
Proof.
  intros m image_paths secuencial paralelo.
  split; [ | split; [ | split]].
  - unfold Prueba.update_comparison_chart.
    repeat match goal with
           | |- context [Prueba.avg_time ?l] =>
               let E := fresh "E" in
               destruct (Prueba.avg_time l) eqn:E;
               [ | exfalso; exact (avg_time_defined _ E)]
           end.
    destruct (Prueba.speedup_report m image_paths) eqn:Er; [discriminate | ].
    exfalso. revert Er. rewrite speedup_report_cases.
    destruct (Prueba.sequential m); [discriminate | ].
    destruct (Prueba.parallel_process m); [discriminate | ].
    destruct (Qlt_le_dec 0 _); [ | discriminate].
    cbv zeta. destruct (Qlt_le_dec 0 _); discriminate.
  - rewrite speedup_report_cases. intros [Hs | [Hp | Hle]].
    + by rewrite Hs.
    + rewrite Hp. by destruct (Prueba.sequential m).
    + destruct (Prueba.sequential m); [done | ].
      destruct (Prueba.parallel_process m); [done | ].
      destruct (Qlt_le_dec 0 _) as [Hlt | _]; [ | done].
      exfalso. exact (Qlt_irrefl _ (Qlt_le_trans _ _ _ Hlt Hle)).
  - intros Hs Hp Hpos. rewrite speedup_report_cases.
    destruct (Prueba.sequential m) as [ | x xs] eqn:Es; [done | ].
    destruct (Prueba.parallel_process m) as [ | y ys] eqn:Ep; [done | ].
    destruct (Qlt_le_dec 0 (PyFloat.mean (y :: ys))) as [_ | Hle];
      [ | exfalso; exact (Qlt_irrefl _ (Qlt_le_trans _ _ _ Hpos Hle))].
    cbv zeta.
    destruct (Qlt_le_dec 0 (PyFloat.len image_paths)) as [Hn | Hn].
    + eexists; eexists. split; [reflexivity | ]. split; [reflexivity | ].
      split; [reflexivity | ]. split.
      * intros ->. exfalso. exact (Qlt_irrefl _ Hn).
      * intros H2 H12 H4. rewrite H2, H12.
        unfold PyFloat.len. rewrite H4. split; reflexivity.
    + eexists; eexists. split; [reflexivity | ]. split; [reflexivity | ].
      split; [ | split; [reflexivity | ]].
      * intros Hne. exfalso.
        exact (Qlt_irrefl _ (Qlt_le_trans _ _ _ (len_positive _ Hne) Hn)).
      * intros _ _ H4. exfalso. revert Hn. unfold PyFloat.len. rewrite H4.
        intros Hn. apply (Qlt_irrefl 0). eapply Qlt_le_trans; [ | exact Hn]. reflexivity.
  - rewrite update_metrics_cases. eexists. split; [reflexivity | ]. simpl.
    destruct (Qlt_le_dec 0 paralelo) as [Hlt | Hle].
    + split.
      * intros Hle. exfalso. exact (Qlt_irrefl _ (Qlt_le_trans _ _ _ Hlt Hle)).
      * intros _. split; [reflexivity | split; [reflexivity | ]].
        intros -> ->. split; reflexivity.
    + split; [done | ].
      intros Hlt. exfalso. exact (Qlt_irrefl _ (Qlt_le_trans _ _ _ Hlt Hle)).
Qed.

Lemma speedup_and_efficiency_as_computed_witness :
  Prueba.speedup_report Demo.one_run_each Demo.four_images = Some (Some (2 / (1 # 2), 2 / (1 # 2) / 4 * 100))%Q
  /\ exists speedup efficiency : Q,
       Prueba.speedup_report Demo.one_run_each Demo.four_images
       = Some (Some (speedup, efficiency))
       /\ (speedup == 4)%Q /\ (efficiency == 100)%Q.
Proof.
  split; [vm_compute; reflexivity | ].
  destruct (proj1 (proj2 (proj2
              (speedup_and_efficiency_as_computed Demo.one_run_each Demo.four_images 2 (1 # 2))))
              ltac:(discriminate) ltac:(discriminate) ltac:(reflexivity))
    as (speedup & efficiency & Hrep & _ & _ & _ & Hex).
  exists speedup, efficiency. split; [exact Hrep | ].
  apply Hex; reflexivity.
Defined.

(** ** Round-robin submission *)

Section RoundRobin.
Local Open Scope nat_scope.

Lemma succ_div_mod (a n : nat) :
  a <> 0 ->
  (S (n mod a) < a /\ S n / a = n / a /\ S n mod a = S (n mod a))
  \/ (S (n mod a) = a /\ S n / a = S (n / a) /\ S n mod a = 0).
Proof.
  intros Ha.
  pose proof (Nat.div_mod_eq n a) as Hn.
  pose proof (Nat.mod_upper_bound n a Ha) as Hr.
  destruct (decide (S (n mod a) < a)) as [Hlt | Hge].
  - left. split; [exact Hlt | ].
    assert (Hq : S n / a = n / a)
      by (symmetry; apply (Nat.div_unique _ _ _ (S (n mod a))); lia).
    split; [exact Hq | ].
    symmetry. apply (Nat.mod_unique _ _ (n / a)); lia.
  - right. split; [lia | ].
    assert (Hq : S n / a = S (n / a))
      by (symmetry; apply (Nat.div_unique _ _ _ 0); lia).
    split; [exact Hq | ].
    symmetry. apply (Nat.mod_unique _ _ (S (n / a))); lia.
Qed.

Lemma share_succ (a k n : nat) :
  k < a -> share a k (S n) = share a k n + (if n mod a =? k then 1 else 0).
Proof.
  intros Hk. unfold share.
  destruct (succ_div_mod a n ltac:(lia)) as [(Hlt & -> & ->) | (Heq & -> & ->)];
    repeat match goal with
           | |- context [?x <? ?y] => destruct (Nat.ltb_spec x y)
           | |- context [?x =? ?y] => destruct (Nat.eqb_spec x y)
           end; lia.
Qed.

Lemma dealt_length {A} (a k : nat) (l : list A) :
  k < a -> forall i, length (dealt i a k l) + share a k i = share a k (i + length l).
Proof.
  intros Hk. induction l as [ | x l IH]; intros i; simpl.
  - by rewrite Nat.add_0_r.
  - replace (i + S (length l)) with (S i + length l) by lia.
    rewrite <- IH, share_succ by done.
    destruct (i mod a =? k); simpl; lia.
Qed.

Lemma dealt_count {A} (a k : nat) (l : list A) :
  k < a -> length (dealt 0 a k l) = share a k (length l).
Proof.
  intros Hk. pose proof (dealt_length a k l Hk 0) as Hd.
  simpl in Hd. unfold share at 1 in Hd.
  rewrite Nat.Div0.div_0_l, Nat.Div0.mod_0_l in Hd. simpl in Hd. lia.
Qed.

(** [floor(T/A) <= share <= ceil(T/A)] *)
Lemma share_floor_ceil (a k n : nat) :
  a <> 0 -> n / a <= share a k n <= (n + a - 1) / a.
Proof.
  intros Ha. unfold share.
  pose proof (Nat.div_mod_eq n a) as Hn.
  pose proof (Nat.mod_upper_bound n a Ha) as Hr.
  destruct (Nat.ltb_spec k (n mod a)) as [Hlt | Hge].
  - assert ((n + a - 1) / a = S (n / a))
      by (symmetry; apply (Nat.div_unique _ _ _ (n mod a - 1)); lia).
    lia.
  - assert (n / a <= (n + a - 1) / a) by (apply Nat.Div0.div_le_mono; lia).
    lia.
Qed.

Lemma dealt_elem {A} (a k : nat) (l : list A) :
  forall i j x, l !! j = Some x -> (i + j) mod a = k -> x ∈ dealt i a k l.
Proof.
  induction l as [ | y l IH]; intros i j x Hj Hk; [done | ].
  destruct j as [ | j]; simpl in *.
  - inversion Hj; subst y. rewrite Nat.add_0_r in Hk. rewrite Hk, Nat.eqb_refl.
    apply list_elem_of_here.
  - assert (x ∈ dealt (S i) a k l) 
      by (apply (IH _ j); [done | by replace (S i + j) with (i + S j) by lia]).
    destruct (i mod a =? k); [by apply list_elem_of_further | done].
Qed.

End RoundRobin.

Section Submission.
Import Prueba2.

Lemma py_index_in_range {A} (l : list A) (k : nat) :
  (k < length l)%nat -> py_index l (Z.of_nat k) = Some k.
Proof.
  intros Hk. unfold py_index.
  destruct (Z.leb_spec 0 (Z.of_nat k)); [ | lia].
  destruct (Z.ltb_spec (Z.of_nat k) (Z.of_nat (length l))); [ | lia].
  simpl. by rewrite Nat2Z.id.
Qed.

Lemma submit_all_dealt (selected_filter output_folder : string) (a : nat)
    (image_paths : list string) :
  a <> 0%nat ->
  forall (n : nat) (inboxes : list (list task)),
    length inboxes = a ->
    submit_all (Z.of_nat n) image_paths selected_filter output_folder (Z.of_nat a) inboxes
    = Some (imap (fun k q =>
                    (q ++ dealt n a k
                            (map (fun p => (p, selected_filter, output_folder, "actor"))
                               image_paths))%list)
              inboxes).
Proof.
  intros Ha.
  induction image_paths as [ | image_path rest IH]; intros n inboxes Hlen.
  - simpl. f_equal. apply list_eq. intros k. rewrite list_lookup_imap.
    destruct (inboxes !! k) as [q | ]; [ | done].
    change (Some q = Some (q ++ [])%list). by rewrite app_nil_r.
  - cbn [submit_all].
    destruct (Z.eqb_spec (Z.of_nat a) 0) as [? | _]; [lia | ].
    rewrite <- Nat2Z.inj_mod.
    assert (Hk : (n mod a < length inboxes)%nat)
      by (rewrite Hlen; by apply Nat.mod_upper_bound).
    rewrite (py_index_in_range _ _ Hk).
    destruct (lookup_lt_is_Some_2 _ _ Hk) as [q Hq]. rewrite Hq.
    replace (Z.of_nat n + 1)%Z with (Z.of_nat (S n)) by lia.
    rewrite IH by (by rewrite length_insert).
    f_equal. apply list_eq. intros k. rewrite !list_lookup_imap.
    destruct (decide (k = n mod a)) as [-> | Hne].
    + rewrite list_lookup_insert_eq by done. rewrite Hq. simpl.
      rewrite Nat.eqb_refl. by rewrite <- app_assoc.
    + rewrite list_lookup_insert_ne by done.
      destruct (inboxes !! k); simpl; [ | done].
      destruct (Nat.eqb_spec (n mod a) k); [congruence | done].
Qed.

Lemma distribute_dealt (image_paths : list string) (selected_filter output_folder : string)
    (a : nat) :
  a <> 0%nat ->
  distribute image_paths selected_filter output_folder (Z.of_nat a)
  = Some (map (fun k => dealt 0 a k
                          (map (fun p => (p, selected_filter, output_folder, "actor"))
                             image_paths))
            (seq 0 a)).
Proof.
  intros Ha. unfold distribute. rewrite Nat2Z.id.
  rewrite (submit_all_dealt _ _ a _ Ha 0) by apply length_replicate.
  f_equal. apply list_eq. intros k.
  rewrite list_lookup_imap, list_lookup_fmap.
  destruct (decide (k < a)%nat) as [Hk | Hk].
  - rewrite lookup_replicate_2 by done. rewrite lookup_seq_lt by done. reflexivity.
  - rewrite (proj1 (lookup_replicate_None _ _ _)) by lia.
    rewrite lookup_seq_ge by lia. reflexivity.
Qed.

End Submission.

(** C6. Round-robin submission of the actor pool: with [A > 0] actors,
    the task of index [i] is sent to actor [i mod A]; actor [k] is sent
    exactly the tasks whose index is [k] modulo [A], in order; it is sent
    [floor(T/A)] tasks, and one more when [k < T mod A], hence between
    [floor(T/A)] and [ceil(T/A)], and two actors differ by at most one. *)
Theorem round_robin_distribution :
  forall (image_paths : list string) (selected_filter output_folder : string)
         (num_actors : Z),
    (0 < num_actors)%Z ->
    exists inboxes : list (list Prueba2.task),
      Prueba2.distribute image_paths selected_filter output_folder num_actors = Some inboxes
      /\ length inboxes = Z.to_nat num_actors
      /\ (forall i p,
            image_paths !! i = Some p ->
            exists q, inboxes !! (i mod Z.to_nat num_actors)%nat = Some q
                      /\ (p, selected_filter, output_folder, "actor") ∈ q)
      /\ (forall k q,
            inboxes !! k = Some q ->
            q = dealt 0 (Z.to_nat num_actors) k
                  (map (fun p => (p, selected_filter, output_folder, "actor")) image_paths)
            /\ length q
               = (length image_paths / Z.to_nat num_actors
                  + (if k <? length image_paths mod Z.to_nat num_actors then 1 else 0))%nat
            /\ (length image_paths / Z.to_nat num_actors <= length q)%nat
            /\ (length q
                <= (length image_paths + Z.to_nat num_actors - 1) / Z.to_nat num_actors)%nat)
      /\ (forall k k' q q',
            inboxes !! k = Some q -> inboxes !! k' = Some q' ->
            (length q <= length q' + 1)%nat).
Proof.
  intros image_paths selected_filter output_folder num_actors Hpos.
  set (a := Z.to_nat num_actors).
  assert (Ha : a <> 0%nat) by (subst a; lia).
  set (tasks := map (fun p => (p, selected_filter, output_folder, "actor")) image_paths).
  assert (Hinbox : forall k q,
             map (fun k => dealt 0 a k tasks) (seq 0 a) !! k = Some q ->
             (k < a)%nat /\ q = dealt 0 a k tasks).
  { intros k q. rewrite list_lookup_fmap.
    destruct (seq 0 a !! k) as [k0 | ] eqn:Hk; [ | done].
    apply lookup_seq in Hk as [-> Hk]. simpl. intros [= <-]. done. }
  assert (Hlen : forall k, (k < a)%nat ->
             length (dealt 0 a k tasks) = share a k (length image_paths)).
  { intros k Hk. rewrite dealt_count by done. subst tasks. by rewrite length_map. }
  exists (map (fun k => dealt 0 a k tasks) (seq 0 a)).
  split; [ | split; [ | split; [ | split]]].
  - replace num_actors with (Z.of_nat a) by (subst a; lia).
    by apply distribute_dealt.
  - by rewrite length_map, length_seq.
  - intros i p Hp. exists (dealt 0 a (i mod a) tasks). split.
    + rewrite list_lookup_fmap, lookup_seq_lt by (by apply Nat.mod_upper_bound). done.
    + apply (dealt_elem a (i mod a) tasks 0 i); [ | done].
      subst tasks. by rewrite list_lookup_fmap, Hp.
  - intros k q Hq. destruct (Hinbox k q Hq) as [Hk ->].
    split; [done | ]. rewrite (Hlen k Hk).
    split; [reflexivity | ]. apply share_floor_ceil, Ha.
  - intros k k' q q' Hq Hq'.
    destruct (Hinbox k q Hq) as [Hk ->]. destruct (Hinbox k' q' Hq') as [Hk' ->].
    rewrite (Hlen k Hk), (Hlen k' Hk'). unfold share.
    destruct (k <? _)%nat, (k' <? _)%nat; lia.
Qed.

Lemma round_robin_distribution_witness :
  (0 < 4)%Z
  /\ Prueba2.distribute ["a.png"; "b.png"; "c.png"; "d.png"; "e.png"; "f.png"] "Grises" "/out" 4
     = Some [[("a.png", "Grises", "/out", "actor"); ("e.png", "Grises", "/out", "actor")];
             [("b.png", "Grises", "/out", "actor"); ("f.png", "Grises", "/out", "actor")];
             [("c.png", "Grises", "/out", "actor")];
             [("d.png", "Grises", "/out", "actor")]]
  /\ exists inboxes,
       Prueba2.distribute ["a.png"; "b.png"; "c.png"; "d.png"; "e.png"; "f.png"]
         "Grises" "/out" 4 = Some inboxes
       /\ length inboxes = 4%nat.
Proof.
  split; [reflexivity | split; [reflexivity | ]].
  destruct (round_robin_distribution
              ["a.png"; "b.png"; "c.png"; "d.png"; "e.png"; "f.png"] "Grises" "/out" 4
              eq_refl) as (inboxes & Hd & Hl & _).
  exists inboxes. split; [exact Hd | exact Hl].
Defined.

(** ** SharedCounter *)

Lemma insert_lookup_same {A} (l : list A) (i : nat) (x y : A) :
  l !! i = Some x -> <[i := y]> l !! i = Some y.
Proof. intros Hi. apply list_lookup_insert_eq. by eapply lookup_lt_Some. Qed.

Module SharedCounterFacts.
Import SharedCounter.

Lemma pending_insert (ts : list thread) (i : nat) (t t' : thread) :
  ts !! i = Some t ->
  (pending (<[i := t']> ts) + todo t = pending ts + todo t')%nat.
Proof.
  unfold pending. revert i. induction ts as [ | x ts IH]; intros i Hi; [done | ].
  destruct i as [ | i]; simpl in *.
  - inversion Hi; subst. lia.
  - specialize (IH i Hi). lia.
Qed.

Lemma pending_init (calls_per_thread : list nat) :
  pending (map (Thread Outside) calls_per_thread) = sum_list calls_per_thread.
Proof.
  unfold pending. induction calls_per_thread as [ | c l IH]; simpl; [done | by rewrite IH].
Qed.

Lemma counter_invariant_init (calls_per_thread : list nat) :
  invariant (sum_list calls_per_thread) (init calls_per_thread).
Proof.
  split; simpl; try done.
  - intros i t Ht Hpc. exfalso. apply Hpc.
    apply list_lookup_fmap_Some in Ht as (c & -> & _). done.
  - intros i t Ht. apply list_lookup_fmap_Some in Ht as (c & -> & _). done.
  - rewrite pending_init. lia.
Qed.

(** Looking a thread up after thread [i] has moved. *)
Ltac moved H :=
  apply list_lookup_insert_Some in H as [(<- & <- & ?) | (? & H)].

Lemma seq_snoc_count (l : list Z) (v : Z) :
  l = map Z.of_nat (seq 1 (length l)) -> v = (Z.of_nat (length l) + 1)%Z ->
  (l ++ [v])%list = map Z.of_nat (seq 1 (length (l ++ [v]))).
Proof.
  intros Hl ->. rewrite length_app. simpl.
  rewrite seq_app, map_app. simpl. rewrite <- Hl. f_equal. f_equal. lia.
Qed.

Lemma counter_invariant_step (n : nat) (s s' : state) :
  invariant n s -> step s s' -> invariant n s'.
Proof.
  intros [Hin Hho Hfree Hheld Hret Hacc] Hstep.
  destruct Hstep as [s i k Hi Hlock | s i k Hi | s i k v Hi | s i k Hi].
  - (* taking the lock *)
    assert (Hout : forall j t, threads s !! j = Some t -> at_pc t = Outside).
    { intros j t Ht. destruct (decide (at_pc t = Outside)) as [ | Hne]; [done | ].
      destruct (Hin j t Ht Hne) as [Hl _]. congruence. }
    split; simpl.
    + intros j t Ht Hpc. moved Ht; [simpl; split; [done | lia] | ].
      exfalso. apply Hpc. by eapply Hout.
    + intros j [= <-]. eexists. split; [by eapply insert_lookup_same | done].
    + done.
    + intros j t Ht. moved Ht; simpl; [by apply Hfree | ].
      by rewrite (Hout j t Ht).
    + done.
    + pose proof (pending_insert _ _ _ (Thread Locked (S k)) Hi). simpl in *. lia.
  - (* reading the value *)
    destruct (Hin i _ Hi ltac:(done)) as [Hl Hk]. pose proof (Hheld i _ Hi) as Hv.
    simpl in *. split; simpl.
    + intros j t Ht Hpc. moved Ht; [done | ]. by apply Hin.
    + intros j Hj. rewrite Hl in Hj. inversion Hj; subst j.
      eexists. split; [by eapply insert_lookup_same | done].
    + intros Hn. congruence.
    + intros j t Ht. moved Ht; simpl; [done | ]. exact (Hheld j t Ht).
    + done.
    + pose proof (pending_insert _ _ _ (Thread (Loaded (value s)) k) Hi). simpl in *. lia.
  - (* writing the value *)
    destruct (Hin i _ Hi ltac:(done)) as [Hl Hk].
    destruct (Hheld i _ Hi) as [-> Hv]. simpl in *. split; simpl.
    + intros j t Ht Hpc. moved Ht; [done | ]. by apply Hin.
    + intros j Hj. rewrite Hl in Hj. inversion Hj; subst j.
      eexists. split; [by eapply insert_lookup_same | done].
    + intros Hn. congruence.
    + intros j t Ht. moved Ht; simpl; [lia | ].
      destruct (decide (at_pc t = Outside)) as [-> | Hne]; [done | ].
      destruct (Hin j t Ht Hne) as [Hl' _]. congruence.
    + done.
    + pose proof (pending_insert _ _ _ (Thread Stored k) Hi). simpl in *. lia.
  - (* returning the value, giving the lock back *)
    destruct (Hin i _ Hi ltac:(done)) as [Hl Hk].
    pose proof (Hheld i _ Hi) as Hv. simpl in *. split; simpl.
    + intros j t Ht Hpc. moved Ht; [done | ].
      destruct (Hin j t Ht Hpc) as [Hl' _]. congruence.
    + done.
    + intros _. rewrite length_app. simpl. lia.
    + intros j t Ht. moved Ht; simpl; [done | ].
      destruct (decide (at_pc t = Outside)) as [-> | Hne]; [done | ].
      destruct (Hin j t Ht Hne) as [Hl' _]. congruence.
    + by apply seq_snoc_count.
    + pose proof (pending_insert _ _ _ (Thread Outside (pred k)) Hi).
      rewrite length_app. simpl in *. lia.
Qed.

Lemma counter_invariant_reachable (calls_per_thread : list nat) (s : state) :
  rtc step (init calls_per_thread) s -> invariant (sum_list calls_per_thread) s.
Proof.
  revert s. apply rtc_ind_r.
  - apply counter_invariant_init.
  - intros s1 s2 _ Hs Hinv. by eapply counter_invariant_step.
Qed.

Lemma pending_finished (ts : list thread) :
  Forall (fun t => t = Thread Outside 0) ts -> pending ts = 0%nat.
Proof.
  unfold pending. induction 1 as [ | t ts -> _ IH]; simpl; [done | exact IH].
Qed.

Lemma finished_value (n : nat) (s : state) :
  invariant n s -> finished s ->
  lock s = None /\ value s = Z.of_nat n /\ length (returns s) = n.
Proof.
  intros [Hin Hho Hfree Hheld Hret Hacc] Hfin.
  assert (Hl : lock s = None).
  { destruct (lock s) as [i | ] eqn:El; [ | done].
    destruct (Hho i eq_refl) as (t & Ht & Hpc).
    exfalso. apply Hpc.
    by rewrite (proj1 (Forall_lookup _ _) Hfin i t Ht). }
  rewrite (pending_finished _ Hfin) in Hacc. simpl in Hacc.
  split; [done | ]. split; [ | done]. rewrite Hfree by done. by rewrite Hacc.
Qed.

(** While an increment is still to be done, some thread can move. *)
Lemma counter_progress (n : nat) (s : state) :
  invariant n s -> finished s \/ exists s', step s s'.
Proof.
  intros [Hin Hho Hfree Hheld Hret Hacc].
  destruct (lock s) as [i | ] eqn:El.
  - right. destruct (Hho i eq_refl) as ([p k] & Ht & Hpc). simpl in Hpc.
    destruct p as [ | | v | ]; [done | | | ]; eexists.
    + by eapply step_load.
    + by eapply step_store.
    + by eapply step_return.
  - destruct (decide (Forall (fun t => t = Thread Outside 0) (threads s))) as [Hf | Hf];
      [by left | right].
    apply not_Forall_Exists in Hf; [ | intros t; apply _].
    apply Exists_exists in Hf as ([p k] & Ht & Hne).
    apply list_elem_of_lookup in Ht as [i Ht].
    assert (p = Outside) as ->.
    { destruct (decide (p = Outside)) as [ | Hp]; [done | ].
      destruct (Hin i _ Ht Hp) as [Hl _]. congruence. }
    destruct k as [ | k]; [exfalso; by apply Hne | ].
    eexists. by eapply step_lock.
Qed.

Lemma sum_insert {A} (f : A -> nat) (l : list A) (i : nat) (x y : A) :
  l !! i = Some x ->
  (sum_list (map f (<[i := y]> l)) + f x = sum_list (map f l) + f y)%nat.
Proof.
  revert i. induction l as [ | z l IH]; intros i Hi; [done | ].
  destruct i as [ | i]; simpl in *.
  - inversion Hi; subst. lia.
  - specialize (IH i Hi). lia.
Qed.

Lemma sum_le {A} (f g : A -> nat) (l : list A) :
  (forall i x, l !! i = Some x -> (f x <= g x)%nat) ->
  (sum_list (map f l) <= sum_list (map g l))%nat.
Proof.
  induction l as [ | z l IH]; intros Hl; simpl; [done | ].
  pose proof (Hl 0%nat z eq_refl).
  assert (sum_list (map f l) <= sum_list (map g l))%nat
    by (apply IH; intros i x Hx; exact (Hl (S i) x Hx)).
  lia.
Qed.

Lemma sum_scaled {A} (c : nat) (f : A -> nat) (l : list A) :
  sum_list (map (fun x => c * f x) l) = (c * sum_list (map f l))%nat.
Proof. induction l as [ | z l IH]; simpl; [lia | rewrite IH; lia]. Qed.

(** Every step is one more unit of work. *)
Lemma work_step (s s' : state) : step s s' -> work s' = S (work s).
Proof.
  intros Hstep. unfold work.
  destruct Hstep as [s i k Hi Hlock | s i k Hi | s i k v Hi | s i k Hi]; simpl;
    match goal with
    | |- context [<[i := ?t']> (threads s)] =>
        pose proof (sum_insert (fun t => phase (at_pc t)) _ _ _ t' Hi) as Hs
    end; simpl in Hs; rewrite ?length_app; simpl; lia.
Qed.

Lemma work_nsteps (k : nat) (s s' : state) : nsteps step k s s' -> work s' = (k + work s)%nat.
Proof.
  induction 1 as [ | k s1 s2 s3 Hs _ IH]; [done | ].
  rewrite IH, (work_step _ _ Hs). lia.
Qed.

Lemma work_bounded (n : nat) (s : state) : invariant n s -> (work s <= 4 * n)%nat.
Proof.
  intros [Hin Hho Hfree Hheld Hret Hacc]. unfold work.
  assert (sum_list (map (fun t => phase (at_pc t)) (threads s))
          <= sum_list (map (fun t => 4 * todo t) (threads s)))%nat as Hle.
  { apply sum_le. intros i [p k] Hi. simpl.
    destruct (decide (p = Outside)) as [-> | Hp]; [simpl; lia | ].
    destruct (Hin i _ Hi Hp) as [_ Hk]. simpl in Hk. destruct p; simpl; lia. }
  pose proof (sum_scaled 4 todo (threads s)) as Heq. unfold pending in Hacc.
  lia.
Qed.

End SharedCounterFacts.

(** C7. A [SharedCounter] starts at zero; [increment] adds one and returns
    the new value, [get_value] returns the value.  With any number of
    threads calling [increment], under every interleaving of their steps
    (the lock, the read, the write and the return being separate steps):
    the values returned are 1, 2, 3, ... in the order of the returns, some
    thread can always move until all calls have returned, which happens
    after exactly four steps per call, and then [get_value] gives the
    number of calls. *)
Theorem shared_counter_counts_exactly :
  forall (calls_per_thread : list nat) (k : nat) (s : SharedCounter.state),
    nsteps SharedCounter.step k (SharedCounter.init calls_per_thread) s ->
    SharedCounter.__init__ = 0%Z
    /\ (forall v, SharedCounter.increment v = ((v + 1)%Z, (v + 1)%Z)
                  /\ SharedCounter.get_value v = v)
    /\ SharedCounter.returns s
       = map Z.of_nat (seq 1 (length (SharedCounter.returns s)))
    /\ (k <= 4 * sum_list calls_per_thread)%nat
    /\ (SharedCounter.finished s \/ exists s', SharedCounter.step s s')
    /\ (SharedCounter.finished s ->
        SharedCounter.observe s = Some (Z.of_nat (sum_list calls_per_thread))
        /\ length (SharedCounter.returns s) = sum_list calls_per_thread
        /\ k = (4 * sum_list calls_per_thread)%nat).
Proof.
  intros calls_per_thread k s Hk.
  pose proof (SharedCounterFacts.counter_invariant_reachable _ _ (rtc_nsteps_2 _ _ _ Hk)) as Hinv.
  pose proof (SharedCounterFacts.work_nsteps _ _ _ Hk) as Hw.
  pose proof (SharedCounterFacts.work_bounded _ _ Hinv) as Hb.
  assert (Hw0 : SharedCounter.work (SharedCounter.init calls_per_thread) = 0%nat).
  { unfold SharedCounter.work, SharedCounter.init. simpl.
    clear. induction calls_per_thread as [ | c l IH]; simpl; [done | exact IH]. }
  split; [reflexivity | ]. split; [by intros v | ].
  split; [apply (SharedCounter.returns_count _ _ Hinv) | ].
  split; [lia | ].
  split; [by eapply SharedCounterFacts.counter_progress | ].
  intros Hfin.
  destruct (SharedCounterFacts.finished_value _ _ Hinv Hfin) as (Hl & Hv & Hr).
  unfold SharedCounter.observe, SharedCounter.get_value. rewrite Hl, Hv.
  split; [done | ]. split; [done | ].
  transitivity (SharedCounter.work s); [lia | ]. unfold SharedCounter.work.
  rewrite Hr.
  assert (sum_list (map (fun t => SharedCounter.phase (SharedCounter.at_pc t))
                      (SharedCounter.threads s)) = 0%nat) as ->; [ | lia].
  clear -Hfin. induction Hfin as [ | t l -> _ IH]; simpl; [done | exact IH].
Qed.

(** Two threads, one increment each: thread 0 goes first. *)
Lemma two_threads_run :
  nsteps SharedCounter.step 8 (SharedCounter.init [1; 1]%nat) Demo.both_incremented.
Proof.
  eapply nsteps_l; [eapply (SharedCounter.step_lock _ 0 0); reflexivity | ].
  eapply nsteps_l; [eapply (SharedCounter.step_load _ 0); reflexivity | ].
  eapply nsteps_l; [eapply (SharedCounter.step_store _ 0); reflexivity | ].
  eapply nsteps_l; [eapply (SharedCounter.step_return _ 0); reflexivity | ].
  eapply nsteps_l; [eapply (SharedCounter.step_lock _ 1 0); reflexivity | ].
  eapply nsteps_l; [eapply (SharedCounter.step_load _ 1); reflexivity | ].
  eapply nsteps_l; [eapply (SharedCounter.step_store _ 1); reflexivity | ].
  eapply nsteps_l; [eapply (SharedCounter.step_return _ 1); reflexivity | ].
  apply nsteps_O.
Qed.

Lemma shared_counter_counts_exactly_witness :
  nsteps SharedCounter.step 8 (SharedCounter.init [1; 1]%nat) Demo.both_incremented
  /\ SharedCounter.finished Demo.both_incremented
  /\ SharedCounter.observe Demo.both_incremented = Some 2%Z.
Proof.
  split; [exact two_threads_run | ].
  assert (Hfin : SharedCounter.finished Demo.both_incremented)
    by (repeat constructor).
  split; [exact Hfin | ].
  exact (proj1 (proj2 (proj2 (proj2 (proj2 (proj2
           (shared_counter_counts_exactly [1; 1]%nat 8 Demo.both_incremented
              two_threads_run))))) Hfin)).
Defined.

(** ** ProcessingSemaphore *)

Module ProcessingSemaphoreFacts.
Import ProcessingSemaphore.
Local Open Scope Z_scope.

Lemma tally_insert (f : pc -> bool) (l : list pc) (i : nat) (p q : pc) :
  l !! i = Some p ->
  tally f (<[i := q]> l) + (if f p then 1 else 0) = tally f l + (if f q then 1 else 0).
Proof.
  revert i. induction l as [ | x l IH]; intros i Hi; [done | ].
  destruct i as [ | i]; simpl in *.
  - inversion Hi; subst. lia.
  - specialize (IH i Hi). lia.
Qed.

Lemma tally_nonneg (f : pc -> bool) (l : list pc) : 0 <= tally f l.
Proof. induction l as [ | x l IH]; simpl; [done | destruct (f x); lia]. Qed.

Lemma tally_le (f g : pc -> bool) (l : list pc) :
  (forall p, f p = true -> g p = true) -> tally f l <= tally g l.
Proof.
  intros Hfg. induction l as [ | x l IH]; simpl; [done | ].
  destruct (f x) eqn:Ef; [rewrite (Hfg x Ef) | destruct (g x)]; lia.
Qed.

Lemma tally_idle (f : pc -> bool) (n : nat) : f Idle = false -> tally f (replicate n Idle) = 0.
Proof. intros Hf. induction n as [ | n IH]; simpl; [done | rewrite Hf, IH; done]. Qed.

Lemma gate_invariant_init (max_concurrent : Z) (n : nat) :
  0 <= max_concurrent -> invariant max_concurrent (init max_concurrent n).
Proof.
  intros Hc. split; simpl.
  - done.
  - rewrite tally_idle by done. lia.
  - by rewrite tally_idle.
  - intros i p Hi. apply lookup_replicate in Hi as [-> _]. done.
  - intros i v [Hi | Hi]; apply lookup_replicate in Hi as [? _]; done.
Qed.

(** Looking thread [j] up after thread [i] has moved: it is [i] at its
    new place, or another thread where it was. *)
Ltac moved H :=
  let Heq := fresh "Heq" in
  apply list_lookup_insert_Some in H as [(<- & Heq & ?) | (? & H)].

(** The bookkeeping of one move of thread [i], from [p] to [q]. *)
Ltac account Hi q :=
  pose proof (tally_insert admitted _ _ _ q Hi);
  pose proof (tally_insert counted _ _ _ q Hi);
  simpl in *.

Lemma gate_invariant_step (max_concurrent : Z) (s s' : state) :
  invariant max_concurrent s -> step s s' -> invariant max_concurrent s'.
Proof.
  intros [Hsem Hout Hact Hcrit Hfresh] Hstep.
  assert (Hsolo : forall i j p q, threads s !! i = Some p -> critical p = true ->
                     threads s !! j = Some q -> critical q = true -> i = j).
  { intros i j p q Hi Hp Hj Hq.
    pose proof (Hcrit i p Hi Hp). pose proof (Hcrit j q Hj Hq). congruence. }
  destruct Hstep as [s i Hi Hpos | s i Hi Hl | s i Hi | s i v Hi | s i Hi
                      | s i Hi Hl | s i Hi | s i v Hi | s i Hi | s i Hi];
    unfold goto;
    match goal with
    | |- invariant _ (State _ _ _ (<[_ := ?q]> _)) => account Hi q
    end;
    try pose proof (Hfresh i _ (or_introl Hi));
    try pose proof (Hfresh i _ (or_intror Hi));
    (split; simpl; [ lia | lia | lia | intros j p Hj Hp | intros j w Hj ]).
  all: try (moved Hj;
            first [ subst p; discriminate
                  | exact (Hcrit _ _ Hi eq_refl)
                  | exact (Hcrit _ _ Hj Hp)
                  | reflexivity
                  | pose proof (Hcrit _ _ Hj Hp); congruence
                  | exfalso; by pose proof (Hsolo i j _ _ Hi eq_refl Hj Hp) ]).
  all: destruct Hj as [Hj | Hj]; moved Hj;
    first [ congruence
          | exact (Hfresh _ _ (or_introl Hj))
          | exact (Hfresh _ _ (or_intror Hj))
          | exfalso; by pose proof (Hsolo i j _ _ Hi eq_refl Hj eq_refl) ].
Qed.

Lemma gate_invariant_reachable (max_concurrent : Z) (n : nat) (s : state) :
  0 <= max_concurrent -> reachable max_concurrent n s -> invariant max_concurrent s.
Proof.
  intros Hc. revert s. apply rtc_ind_r.
  - by apply gate_invariant_init.
  - intros s1 s2 _ Hs Hinv. by eapply gate_invariant_step.
Qed.

Lemma gate_invariant_bounds (max_concurrent : Z) (s : state) :
  invariant max_concurrent s -> 0 <= active_processes s <= max_concurrent.
Proof.
  intros [Hsem Hout Hact Hcrit Hfresh]. rewrite Hact.
  pose proof (tally_nonneg counted (threads s)).
  pose proof (tally_le counted admitted (threads s)) as Hle.
  assert (forall p, counted p = true -> admitted p = true) as Hca by (by intros []).
  specialize (Hle Hca). lia.
Qed.

End ProcessingSemaphoreFacts.

(** C4. A gate built with capacity [C > 0], used by any number of threads
    that each release only after their own acquire has returned: in every
    state reachable by the steps of the gate (taking a permit, taking the
    lock, reading, writing and giving back in [acquire] and in [release],
    interleaved at will), [0 <= active_processes <= C], and so is every
    value [get_active] reads. *)
Theorem gate_active_within_capacity :
  forall (max_concurrent : Z) (n : nat) (s : ProcessingSemaphore.state),
    (0 < max_concurrent)%Z ->
    ProcessingSemaphore.reachable max_concurrent n s ->
    (0 <= ProcessingSemaphore.active_processes s <= max_concurrent)%Z
    /\ (forall v, ProcessingSemaphore.get_active s = Some v ->
                  (0 <= v <= max_concurrent)%Z).
Proof.
  intros max_concurrent n s Hc Hr.
  assert (0 <= ProcessingSemaphore.active_processes s <= max_concurrent)%Z as Hb.
  { apply ProcessingSemaphoreFacts.gate_invariant_bounds.
    eapply ProcessingSemaphoreFacts.gate_invariant_reachable; [lia | exact Hr]. }
  split; [exact Hb | ].
  unfold ProcessingSemaphore.get_active. intros v.
  destruct (ProcessingSemaphore._lock s); [discriminate | ].
  intros [= <-]. exact Hb.
Qed.

(** Thread 0 goes through [acquire] on a gate of capacity 1. *)
Lemma first_thread_acquires :
  ProcessingSemaphore.reachable 1 2 Demo.first_holds.
Proof.
  unfold ProcessingSemaphore.reachable.
  eapply rtc_l; [eapply (ProcessingSemaphore.sem_acquire _ 0); reflexivity | ].
  eapply rtc_l; [eapply (ProcessingSemaphore.inc_lock _ 0); reflexivity | ].
  eapply rtc_l; [eapply (ProcessingSemaphore.inc_load _ 0); reflexivity | ].
  eapply rtc_l; [eapply (ProcessingSemaphore.inc_store _ 0); reflexivity | ].
  eapply rtc_l; [eapply (ProcessingSemaphore.inc_unlock _ 0); reflexivity | ].
  apply rtc_refl.
Qed.

Lemma gate_active_within_capacity_witness :
  (0 < 1)%Z
  /\ ProcessingSemaphore.reachable 1 2 Demo.first_holds
  /\ (0 <= ProcessingSemaphore.active_processes Demo.first_holds <= 1)%Z.
Proof.
  split; [reflexivity | ]. split; [exact first_thread_acquires | ].
  exact (proj1 (gate_active_within_capacity 1 2 Demo.first_holds eq_refl
                  first_thread_acquires)).
Defined.

(** The proviso matters: a release without an acquire takes the tally
    below zero. *)
Example unmatched_release :
  active_processes (snd (run (Img:=nat) release (Demo.boot Demo.disk))) = (-1)%Z.
Proof. reflexivity. Qed.

(** ** The gate around a task *)

Section Guarded.
Context {Img : Type}.
Context {U : PyStr.Unicode}.

Lemma isolates_gate_free {A} (Perr : exn -> A -> Prop) (Pok : A -> Prop) (p : prog Img A) :
  isolates Perr Pok p ->
  gate_free (fun a => Pok a \/ exists e, Perr e a) (fun _ => False) p.
Proof.
  induction p as [a | e | X ev h IH]; simpl; auto.
  intros (-> & He & Hv) [e | v].
  - destruct (He e) as (a & -> & Hp). simpl. eauto.
  - apply IH, Hv.
Qed.

Lemma gate_free_weaken {A} (P Q : A -> Prop) (E F : exn -> Prop) (p : prog Img A) :
  (forall a, P a -> Q a) -> (forall e, E e -> F e) -> gate_free P E p -> gate_free Q F p.
Proof.
  intros HPQ HEF. induction p as [a | e | X ev h IH]; simpl; auto.
  destruct (kind_of ev); auto.
Qed.

Lemma gate_free_bind {A B} (P : A -> Prop) (Q : B -> Prop) (E : exn -> Prop)
    (c : prog Img A) (k : A -> prog Img B) :
  gate_free P E c -> (forall a, P a -> gate_free Q E (k a)) -> gate_free Q E (bind c k).
Proof.
  intros Hc Hk. induction c as [a | e | X ev h IH]; simpl in *; auto.
  destruct (kind_of ev); auto.
Qed.

(** The body runs inside the gate and the release follows on both
    exits. *)
Lemma try_finally_release {A} (P : A -> Prop) (E : exn -> Prop) (body : prog Img A) :
  gate_free P E body -> paired P E Inside (try_finally body release).
Proof.
  induction body as [a | e | X ev h IH]; simpl.
  - intros Ha. split; [done | ]. intros ans [v ->]. done.
  - intros He. split; [done | ]. intros ans [v ->]. done.
  - destruct (kind_of ev); [done | done | ]. intros Hh ans. apply IH, Hh.
Qed.

Lemma guarded_paired {A} (P : A -> Prop) (E : exn -> Prop) (body : prog Img A) :
  gate_free P E body -> paired P E Before (guarded body).
Proof.
  intros Hb. unfold guarded. simpl. split; [done | ].
  intros ans [v ->]. simpl. by apply try_finally_release.
Qed.

Lemma process_with_semaphore2_paired (image_path selected_filter output_folder method : string) :
  paired (Img:=Img) (fun r => Prueba2.original r = image_path) (fun _ => False) Before
    (Prueba2.process_with_semaphore (image_path, selected_filter, output_folder, method)).
Proof.
  apply (guarded_paired _ _
           (bind (Prueba2.process_image
                    (image_path, selected_filter, output_folder, method)) ret)).
  eapply gate_free_bind.
  - apply isolates_gate_free, process_image2_isolates.
  - intros r Hr. simpl. by destruct Hr as [-> | [e ->]].
Qed.

Lemma process_with_semaphore1_paired (image_path selected_filter output_folder : string) :
  paired (Img:=Img) (fun r => Prueba.original r = image_path) (fun _ => False) Before
    (Prueba.process_with_semaphore (image_path, selected_filter, output_folder)).
Proof.
  apply (guarded_paired _ _
           (bind (Prueba.process_image (image_path, selected_filter, output_folder)) ret)).
  eapply gate_free_bind.
  - apply isolates_gate_free, process_image1_isolates.
  - intros r Hr. simpl. by destruct Hr as [-> | [e ->]].
Qed.

End Guarded.

Section GuardedRuns.
Context {World Img : Type} `{Imaging World Img}.

Lemma acquires_snoc (log : list (entry Img)) (d : entry Img) :
  acquires (log ++ [d]) = (acquires log + match entry_kind d with KAcquire => 1 | _ => 0 end)%nat.
Proof. induction log as [ | x log IH]; simpl; [lia | rewrite IH; lia]. Qed.

Lemma releases_snoc (log : list (entry Img)) (d : entry Img) :
  releases (log ++ [d]) = (releases log + match entry_kind d with KRelease => 1 | _ => 0 end)%nat.
Proof. induction log as [ | x log IH]; simpl; [lia | rewrite IH; lia]. Qed.

Lemma run_paired {A} (P : A -> Prop) (E : exn -> Prop) (p : prog Img A) :
  forall (ph : phase) (m : machine),
    paired P E ph p ->
    match run p m with
    | (Returned a, m') => P a /\ settled ph m m'
    | (Raised e, m') => E e /\ settled ph m m'
    | (Blocked, m') => ph = Before /\ waiting m m'
    end.
Proof.
  induction p as [a | e | X ev h IH]; intros ph m Hp.
  - destruct Hp as [-> Ha]. simpl. unfold settled. simpl. repeat split; auto; lia.
  - destruct Hp as [-> He]. simpl. unfold settled. simpl. repeat split; auto; lia.
  - assert (Hother : forall (w : World) (a : answer X),
               kind_of ev = KOther ->
               match run (h a) (outside ev a w m) with
               | (Returned b, m') => P b /\ settled ph m m'
               | (Raised e, m') => E e /\ settled ph m m'
               | (Blocked, m') => ph = Before /\ waiting m m'
               end).
    { intros w a Hk. simpl in Hp. rewrite Hk in Hp.
      specialize (IH a ph (outside ev a w m) (Hp a)).
      unfold settled, waiting in *. simpl in IH.
      rewrite acquires_snoc, releases_snoc in IH. simpl in IH. rewrite Hk in IH.
      destruct (run (h a) (outside ev a w m)) as [[b | e | ] m']; intuition lia. }
    destruct ev; simpl run;
      try match goal with
          | |- context [let '(_, _) := ?o in _] => destruct o as [a w]; by apply Hother
          end.
    + by apply Hother.
    + (* Acquire *)
      destruct Hp as [-> Hp]. simpl.
      destruct (Z.ltb_spec 0 (semaphore_value m)) as [Hpos | Hneg].
      * specialize (IH (inr tt) Inside
                      (gate Acquire (semaphore_value m - 1) (active_processes m + 1) m)
                      (Hp _ ltac:(by eexists))).
        unfold settled in *. simpl in IH.
        rewrite acquires_snoc, releases_snoc in IH. simpl in IH.
        destruct (run (h (inr tt)) _) as [[b | e | ] m']; [ | | by destruct IH].
        -- split; [tauto | ]. simpl. intuition lia.
        -- split; [tauto | ]. simpl. intuition lia.
      * split; [done | ]. unfold waiting. repeat split; auto.
    + (* Release *)
      destruct Hp as [-> Hp]. simpl.
      specialize (IH (inr tt) After
                    (gate Release (semaphore_value m + 1) (active_processes m - 1) m)
                    (Hp _ ltac:(by eexists))).
      unfold settled in *. simpl in IH.
      rewrite acquires_snoc, releases_snoc in IH. simpl in IH.
      destruct (run (h (inr tt)) _) as [[b | e | ] m']; [ | | by destruct IH].
      * split; [tauto | ]. simpl. intuition lia.
      * split; [tauto | ]. simpl. intuition lia.
Qed.

End GuardedRuns.

(** C8. In the ThreadPool+Gate strategy the wrapper
    [process_with_semaphore] keeps acquire and release paired: on every
    path through it, whatever the collaborators answer, the gate is
    acquired once and then released exactly once before the wrapper ends.
    The same holds around any guarded body that performs no gate operation
    itself, whether it returns or raises.  On a run: either the acquire
    waits (no permit) and nothing is released, or the run ends with one
    more acquire and one more release logged, and the permits and the
    active tally back to what they were.  Both programs. *)
Theorem gate_released_on_every_exit :
  forall (World Img : Type) (I : Imaging World Img) (U : PyStr.Unicode)
         (image_path selected_filter output_folder method : string)
         (m : machine (World:=World) (Img:=Img)),
    paired (Img:=Img) (fun r => Prueba2.original r = image_path) (fun _ => False) Before
      (Prueba2.process_with_semaphore (image_path, selected_filter, output_folder, method))
    /\ paired (Img:=Img) (fun r => Prueba.original r = image_path) (fun _ => False) Before
         (Prueba.process_with_semaphore (image_path, selected_filter, output_folder))
    /\ (forall (A : Type) (body : prog Img A),
          gate_free (fun _ => True) (fun _ => True) body ->
          paired (fun _ => True) (fun _ => True) Before (guarded body)
          /\ match run (guarded body) m with
             | (Returned _, m') | (Raised _, m') => settled Before m m'
             | (Blocked, m') => waiting m m'
             end)
    /\ ((0 < semaphore_value m)%Z ->
        (exists r m',
            run (Prueba2.process_with_semaphore
                   (image_path, selected_filter, output_folder, method)) m
            = (Returned r, m')
            /\ settled Before m m')
        /\ (exists r m',
              run (Prueba.process_with_semaphore
                     (image_path, selected_filter, output_folder)) m
              = (Returned r, m')
              /\ settled Before m m')).
Proof.
  intros World Img I U image_path selected_filter output_folder method m.
  pose proof (process_with_semaphore2_paired (Img:=Img)
                image_path selected_filter output_folder method) as H2.
  pose proof (process_with_semaphore1_paired (Img:=Img)
                image_path selected_filter output_folder) as H1.
  split; [exact H2 | ]. split; [exact H1 | ]. split.
  - intros A body Hb. pose proof (guarded_paired _ _ body Hb) as Hg.
    split; [exact Hg | ].
    pose proof (run_paired _ _ _ Before m Hg) as Hr.
    destruct (run (guarded body) m) as [[a | e | ] m']; tauto.
  - intros Hpos. split.
    + pose proof (run_paired _ _ _ Before m H2) as Hr.
      destruct (run _ m) as [[r | e | ] m']; [ | by destruct Hr | ].
      * exists r, m'. tauto.
      * destruct Hr as (_ & _ & _ & Hs & _ & Hle). lia.
    + pose proof (run_paired _ _ _ Before m H1) as Hr.
      destruct (run _ m) as [[r | e | ] m']; [ | by destruct Hr | ].
      * exists r, m'. tauto.
      * destruct Hr as (_ & _ & _ & Hs & _ & Hle). lia.
Qed.

(** A guarded body that raises: the gate is released all the same. *)
Example guarded_body_raises :
  run (Img:=nat) (guarded (bind (Image_open "/fotos/pez.png") (fun _ => ret tt)))
    (Demo.boot Demo.disk)
  = (Raised (Exception "No such file or directory"),
     {| world := Demo.disk; semaphore_value := 4; active_processes := 0;
        calls := [Did Acquire; Did (Open "/fotos/pez.png"); Did Release] |}).
Proof. reflexivity. Qed.

(** With no permit left the wrapper waits, and releases nothing. *)
Example guarded_waits :
  run (Img:=nat) (Prueba2.process_with_semaphore ("/fotos/gato.png", "Grises", "/out", "multihilo"))
    {| world := Demo.disk; semaphore_value := 0; active_processes := 4; calls := [] |}
  = (Blocked,
     {| world := Demo.disk; semaphore_value := 0; active_processes := 4; calls := [] |}).
Proof. reflexivity. Qed.

(** ** The thread pool *)

(** Walking down every path of a program, counting its events. *)
Ltac count_events :=
  repeat first
    [ exact I
    | progress simpl
    | match goal with
      | |- forall _ : answer _, _ => intros [? | ?]
      | |- context [String.eqb ?a ?b] => destruct (String.eqb a b)
      | |- context [OsPath.splitext ?p] => destruct (OsPath.splitext p)
      end ].

Section Lengths.
Context {Img : Type}.
Context {U : PyStr.Unicode}.

Lemma process_image2_within (t : Prueba2.task) :
  within (Img:=Img) 5 (Prueba2.process_image t).
Proof. destruct t as [[[image_path selected_filter] output_folder] method]. count_events. Qed.

Lemma process_with_semaphore2_within (t : Prueba2.task) :
  within (Img:=Img) 7 (Prueba2.process_with_semaphore t).
Proof. destruct t as [[[image_path selected_filter] output_folder] method]. count_events. Qed.

Lemma process_image2_gate_free (t : Prueba2.task) :
  gate_free (Img:=Img) (fun r => Prueba2.original r = Prueba2.source_path t)
    (fun _ => False) (Prueba2.process_image t).
Proof.
  destruct t as [[[image_path selected_filter] output_folder] method].
  eapply gate_free_weaken; [ | | apply isolates_gate_free, process_image2_isolates].
  - intros r [-> | [e ->]]; reflexivity.
  - done.
Qed.

Lemma process_image1_within (t : Prueba.task) :
  within (Img:=Img) 5 (Prueba.process_image t).
Proof. destruct t as [[image_path selected_filter] output_folder]. count_events. Qed.

Lemma process_image1_gate_free (t : Prueba.task) :
  gate_free (Img:=Img) (fun r => Prueba.original r = Prueba.source_path t)
    (fun _ => False) (Prueba.process_image t).
Proof.
  destruct t as [[image_path selected_filter] output_folder].
  eapply gate_free_weaken; [ | | apply isolates_gate_free, process_image1_isolates].
  - intros r [-> | [e ->]]; reflexivity.
  - done.
Qed.

End Lengths.

Module ThreadPoolFacts.
Import Prueba2 ThreadPool.

Section Pool.
Context {World Img : Type} `{Imaging World Img}.
Local Abbreviation state := (state (World:=World) (Img:=Img)).
Local Abbreviation machine := (machine (World:=World) (Img:=Img)).

Lemma held_app (n1 n2 : list (phase * nat)) : held (n1 ++ n2) = (held n1 + held n2)%Z.
Proof. induction n1 as [ | x n1 IH]; simpl; [done | rewrite IH; lia]. Qed.

(** One event of a call that fits its note: the call still fits, one
    event shorter, and the permits add up. *)
Lemma exec_fits {X} (note : phase * nat) (t : task) (ev : event Img X)
    (k : answer X -> prog Img result) (m m' : machine) (ans : answer X) :
  fits note (t, Vis ev k) -> handle ev m = Some (ans, m') ->
  exists ph' h',
    fits (ph', h') (t, k ans)
    /\ snd note = S h'
    /\ (semaphore_value m' + holding ph' = semaphore_value m + holding (fst note))%Z.
Proof.
  destruct note as [ph h]. unfold fits. simpl. intros [Hp Hw] Hh.
  destruct h as [ | h]; [done | ].
  destruct ev; simpl in *;
    repeat match goal with
           | H : context [let '(_, _) := ?o in _] |- _ => destruct o
           end;
    try (inversion Hh; subst; exists ph, h; simpl; repeat split; auto; fail).
  - destruct (0 <? semaphore_value m)%Z; [ | done]. inversion Hh; subst.
    destruct Hp as [-> Hp]. exists Inside, h. simpl.
    split; [ | split; [done | lia]].
    split; [apply Hp; by eexists | apply Hw].
  - inversion Hh; subst. destruct Hp as [-> Hp]. exists After, h. simpl.
    split; [ | split; [done | lia]].
    split; [apply Hp; by eexists | apply Hw].
Qed.

Lemma pool_invariant_init (m : machine) (image_paths : list string)
    (selected_filter output_folder : string) :
  invariant (semaphore_value m) image_paths []
    (init m image_paths selected_filter output_folder).
Proof.
  split; simpl; [done | | constructor | lia].
  rewrite app_nil_r. unfold tasks_of. rewrite map_map. simpl. by rewrite map_id.
Qed.

Lemma pool_potential_init (m : machine) (image_paths : list string)
    (selected_filter output_folder : string) :
  potential [] (init m image_paths selected_filter output_folder)
  = (10 * length image_paths)%nat.
Proof.
  unfold potential, init. cbn [queued finished]. unfold tasks_of.
  rewrite length_map. simpl. lia.
Qed.

Lemma sum_app (f : phase * nat -> nat) (n1 n2 : list (phase * nat)) :
  sum_list (map f (n1 ++ n2)) = (sum_list (map f n1) + sum_list (map f n2))%nat.
Proof. induction n1 as [ | x n1 IH]; simpl; [done | rewrite IH; lia]. Qed.

Lemma pool_invariant_step (max_workers : nat) (capacity : Z) (image_paths : list string)
    (notes : list (phase * nat)) (s s' : state) :
  invariant capacity image_paths notes s -> step max_workers s s' ->
  exists notes',
    invariant capacity image_paths notes' s'
    /\ (potential notes' s' < potential notes s)%nat.
Proof.
  intros [Hraised Hperm Hfit Hsem] Hstep.
  destruct Hstep as [s t q Hq Hfree _ | s r1 r2 t X ev k ans m' Hr Hh _
                      | s r1 r2 t r Hr _ | s r1 r2 t e Hr _ | s f1 f2 r Hf _].
  - (* start *)
    exists (notes ++ [(Before, 7)])%list. split.
    + split; simpl; [done | | | ].
      * rewrite Hperm, Hq. simpl. rewrite map_app. simpl. solve_Permutation.
      * apply Forall2_app; [done | ]. constructor; [ | constructor].
        split; simpl.
        -- destruct t as [[[image_path selected_filter] output_folder] method].
           apply process_with_semaphore2_paired.
        -- apply process_with_semaphore2_within.
      * rewrite held_app. simpl. lia.
    + unfold potential. simpl. rewrite Hq, sum_app. simpl. lia.
  - (* exec *)
    rewrite Hr in Hfit. apply Forall2_app_inv_r in Hfit as (n1 & n2' & Hn1 & Hn2 & ->).
    apply Forall2_cons_inv_r in Hn2 as (note & n2 & Hnote & Hn2 & ->).
    destruct (exec_fits _ _ _ _ _ _ _ Hnote Hh) as (ph' & h' & Hfit' & Hh' & Hsem').
    exists (n1 ++ (ph', h') :: n2)%list. split.
    + split; simpl; [done | | | ].
      * rewrite Hperm, Hr, !map_app. done.
      * apply Forall2_app; [done | ]. by constructor.
      * rewrite held_app in *. simpl in *. lia.
    + unfold potential. simpl. rewrite !sum_app. simpl. lia.
  - (* finish *)
    rewrite Hr in Hfit. apply Forall2_app_inv_r in Hfit as (n1 & n2' & Hn1 & Hn2 & ->).
    apply Forall2_cons_inv_r in Hn2 as ([ph h] & n2 & Hnote & Hn2 & ->).
    destruct Hnote as [[Hph Ho] _]. simpl in Hph, Ho. subst ph.
    exists (n1 ++ n2)%list. split.
    + split; simpl; [done | | | ].
      * rewrite Hperm, Hr, !map_app. simpl. rewrite Ho. solve_Permutation.
      * by apply Forall2_app.
      * rewrite held_app in *. simpl in *. lia.
    + unfold potential. simpl. rewrite !sum_app, length_app. simpl. lia.
  - (* fail: a call never raises *)
    rewrite Hr in Hfit. apply Forall2_app_inv_r in Hfit as (n1 & n2' & Hn1 & Hn2 & ->).
    apply Forall2_cons_inv_r in Hn2 as ([ph h] & n2 & Hnote & Hn2 & ->).
    destruct Hnote as [[_ []] _].
  - (* collect *)
    exists notes. split.
    + split; simpl; [done | | done | done].
      rewrite Hperm, Hf, !map_app. simpl. solve_Permutation.
    + unfold potential. simpl. rewrite Hf, !length_app. simpl. lia.
Qed.

Lemma pool_invariant_nsteps (max_workers : nat) (capacity : Z) (image_paths : list string)
    (k : nat) (s s' : state) :
  nsteps (step max_workers) k s s' ->
  forall notes, invariant capacity image_paths notes s ->
  exists notes',
    invariant capacity image_paths notes' s'
    /\ (k + potential notes' s' <= potential notes s)%nat.
Proof.
  induction 1 as [s | k s1 s2 s3 Hs _ IH]; intros notes Hinv.
  - exists notes. split; [done | lia].
  - destruct (pool_invariant_step _ _ _ _ _ _ Hinv Hs) as (notes2 & Hinv2 & Hlt).
    destruct (IH _ Hinv2) as (notes3 & Hinv3 & Hle).
    exists notes3. split; [done | lia].
Qed.

(** When the loop is over, the results are those of the tasks. *)
Lemma pool_invariant_returns (capacity : Z) (image_paths : list string)
    (notes : list (phase * nat)) (s : state) :
  invariant capacity image_paths notes s -> returns s ->
  map original (results s) ≡ₚ image_paths
  /\ length (results s) = length image_paths.
Proof.
  intros [_ Hperm _ _] (Hq & Hr & Hf & _).
  rewrite Hq, Hr, Hf in Hperm. simpl in Hperm.
  split; [done | ].
  apply Permutation_length in Hperm. by rewrite length_map in Hperm.
Qed.

Lemma held_positive (notes : list (phase * nat)) :
  (0 < held notes)%Z -> exists n1 h n2, notes = (n1 ++ (Inside, h) :: n2)%list.
Proof.
  induction notes as [ | [ph h] notes IH]; simpl; [lia | ].
  destruct ph; simpl; intros Hpos.
  - destruct (IH ltac:(lia)) as (n1 & h' & n2 & ->).
    by exists ((Before, h) :: n1), h', n2.
  - by exists [], h, notes.
  - destruct (IH ltac:(lia)) as (n1 & h' & n2 & ->).
    by exists ((After, h) :: n1), h', n2.
Qed.

Lemma handle_with_permit {X} (ev : event Img X) (m : machine) :
  (0 < semaphore_value m)%Z -> exists ans m', handle ev m = Some (ans, m').
Proof.
  intros Hpos. destruct (kind_of ev) eqn:Hk.
  - destruct ev; try discriminate. simpl.
    destruct (Z.ltb_spec 0 (semaphore_value m)); [eauto | lia].
  - apply handle_other. congruence.
  - apply handle_other. congruence.
Qed.

Lemma some_call_moves (capacity : Z) (m : machine) (notes : list (phase * nat))
    (calls : list (task * prog Img result)) :
  Forall2 fits notes calls -> calls <> [] ->
  (semaphore_value m + held notes = capacity)%Z -> (0 < capacity)%Z ->
  exists r1 t p r2, calls = (r1 ++ (t, p) :: r2)%list /\ movable m p.
Proof.
  intros Hfit Hne Hsem Hcap.
  destruct (Z.ltb_spec 0 (semaphore_value m)) as [Hpos | Hneg].
  - destruct Hfit as [ | [ph h] [t p] notes calls [Hp _] _]; [done | ].
    exists [], t, p, calls. split; [done | ].
    destruct p as [r | e | X ev k]; simpl in Hp.
    + left. eauto.
    + by destruct Hp.
    + right. destruct (handle_with_permit ev m Hpos) as (ans & m' & Hh). eauto 8.
  - destruct (held_positive notes ltac:(lia)) as (n1 & h & n2 & ->).
    apply Forall2_app_inv_l in Hfit as (r1 & r2' & Hr1 & Hr2 & ->).
    apply Forall2_cons_inv_l in Hr2 as ([t p] & r2 & [Hp _] & Hr2 & ->).
    exists r1, t, p, r2. split; [done | ]. simpl in Hp.
    destruct p as [r | e | X ev k]; simpl in Hp.
    + by destruct Hp.
    + by destruct Hp.
    + right. destruct (handle_other ev m) as (ans & m' & Hh); [ | eauto 8].
      intros Hk. rewrite Hk in Hp. by destruct Hp.
Qed.

Lemma pool_progress (max_workers : nat) (capacity : Z) (image_paths : list string)
    (notes : list (phase * nat)) (s : state) :
  invariant capacity image_paths notes s ->
  (0 < max_workers)%nat -> (0 < capacity)%Z ->
  returns s \/ exists s', step max_workers s s'.
Proof.
  intros [Hraised Hperm Hfit Hsem] Hw Hcap.
  destruct (finished s) as [ | r f] eqn:Hf.
  - destruct (running s) as [ | c rest] eqn:Hr.
    + destruct (queued s) as [ | t q] eqn:Hq.
      * left. by repeat split.
      * right. eexists. eapply start; [exact Hq | rewrite Hr; simpl; lia | done].
    + right.
      destruct (some_call_moves capacity (mach s) notes (c :: rest))
        as (r1 & t & p & r2 & Hdec & Hmov); [done | done | done | done | ].
      rewrite <- Hr in Hdec.
      destruct Hmov as [[r ->] | (X & ev & k & ans & m' & -> & Hh)]; eexists.
      * by eapply finish.
      * by eapply exec.
  - right. eexists. eapply (collect _ _ [] f r); [exact Hf | done].
Qed.

(** Each event leaves the permits non-negative and moves a unit between
    the permits and the tally, or nothing. *)
Lemma handle_tally {X} (ev : event Img X) (m m' : machine) (ans : answer X) :
  handle ev m = Some (ans, m') ->
  ((0 <= semaphore_value m)%Z -> (0 <= semaphore_value m')%Z)
  /\ (active_processes m' + semaphore_value m'
      = active_processes m + semaphore_value m)%Z.
Proof.
  destruct ev; simpl; intros Hh;
    repeat match goal with
           | H : context [let '(_, _) := ?o in _] |- _ => destruct o
           end;
    try (inversion Hh; subst; simpl; split; [auto | lia]; lia).
  destruct (Z.ltb_spec 0 (semaphore_value m)); [ | done].
  inversion Hh; subst; simpl. split; lia.
Qed.

Lemma pool_tally_nsteps (max_workers k : nat) (s s' : state) :
  nsteps (step max_workers) k s s' ->
  (0 <= semaphore_value (mach s))%Z ->
  (0 <= semaphore_value (mach s'))%Z
  /\ (active_processes (mach s') + semaphore_value (mach s')
      = active_processes (mach s) + semaphore_value (mach s))%Z.
Proof.
  induction 1 as [s | k s1 s2 s3 Hs _ IH]; intros Hpos; [split; [done | lia] | ].
  assert ((0 <= semaphore_value (mach s2))%Z
          /\ (active_processes (mach s2) + semaphore_value (mach s2)
              = active_processes (mach s1) + semaphore_value (mach s1))%Z) as [Hpos2 Heq2].
  { destruct Hs as [s t q Hq Hfree _ | s r1 r2 t X ev k0 ans m' Hr Hh _
                     | s r1 r2 t r Hr _ | s r1 r2 t e Hr _ | s f1 f2 r Hf _];
      simpl; try (split; [done | lia]).
    destruct (handle_tally _ _ _ _ Hh) as [Hp He]. split; [auto | lia]. }
  destruct (IH Hpos2) as [Hpos3 Heq3]. split; [done | lia].
Qed.

(** During a run of the pool that starts with the gate idle, the active
    tally stays between zero and the capacity. *)
Lemma pool_active_within_capacity (max_workers k : nat) (m : machine)
    (image_paths : list string) (selected_filter output_folder : string) (s : state) :
  (0 <= semaphore_value m)%Z -> active_processes m = 0%Z ->
  nsteps (step max_workers) k (init m image_paths selected_filter output_folder) s ->
  (0 <= active_processes (mach s) <= semaphore_value m)%Z.
Proof.
  intros Hcap Hidle Hk.
  destruct (pool_tally_nsteps _ _ _ _ Hk Hcap) as [Hpos Heq]. simpl in Heq.
  destruct (pool_invariant_nsteps _ _ _ _ _ _ Hk []
              (pool_invariant_init m image_paths selected_filter output_folder))
    as (notes & [_ _ _ Hsem] & _).
  assert (0 <= held notes)%Z.
  { clear. induction notes as [ | [ph h] notes IH]; simpl; [done | ].
    destruct ph; simpl; lia. }
  lia.
Qed.

End Pool.
End ThreadPoolFacts.

(** ** The actor pool *)

Module ActorPoolFacts.
Import ActorPool.

Section Pool.
Context {World Img : Type} `{Imaging World Img}.
Context {Task Result : Type}.
Variable make_task : string -> string -> string -> Task.
Variable process_image : Task -> prog Img Result.
Variable source_path : Task -> string.
Variable original : Result -> string.

(** What the pool needs of the task operation: the task built for a path
    names that path; [process_image] performs no gate operation, never
    raises, returns a result that names the image of its task, and
    performs at most five events. *)
Hypothesis make_task_path :
  forall image_path selected_filter output_folder,
    source_path (make_task image_path selected_filter output_folder) = image_path.
Hypothesis process_image_free :
  forall t, gate_free (fun r => original r = source_path t) (fun _ => False)
              (process_image t).
Hypothesis process_image_within : forall t, within 5 (process_image t).

Local Abbreviation state := (state (World:=World) (Img:=Img) (Task:=Task) (Result:=Result)).
Local Abbreviation machine := (machine (World:=World) (Img:=Img)).
Local Abbreviation actor := (actor (Img:=Img) (Task:=Task) (Result:=Result)).
Local Abbreviation init := (ActorPool.init (Task:=Task) (Result:=Result)).
Local Abbreviation step := (ActorPool.step make_task process_image).
Local Abbreviation invariant := (ActorPool.invariant source_path original).
Local Abbreviation in_flight := (ActorPool.in_flight source_path).
Local Abbreviation actor_fits := (ActorPool.actor_fits source_path original).

Lemma split_notes (notes : list nat) (a1 : list actor) (a : actor) (a2 : list actor) :
  Forall2 actor_fits notes (a1 ++ a :: a2) ->
  exists n1 h n2,
    notes = (n1 ++ h :: n2)%list
    /\ Forall2 actor_fits n1 a1 /\ actor_fits h a /\ Forall2 actor_fits n2 a2
    /\ length n1 = length a1.
Proof.
  intros Hfit. apply Forall2_app_inv_r in Hfit as (n1 & n2' & Hn1 & Hn2 & ->).
  apply Forall2_cons_inv_r in Hn2 as (h & n2 & Hh & Hn2 & ->).
  exists n1, h, n2. repeat split; auto. by eapply Forall2_length.
Qed.

Lemma potential_split (n1 : list nat) (h : nat) (n2 : list nat)
    (a1 : list actor) (a : actor) (a2 : list actor) :
  length n1 = length a1 ->
  sum_list (zip_with actor_potential (n1 ++ h :: n2) (a1 ++ a :: a2))
  = (sum_list (zip_with actor_potential n1 a1) + actor_potential h a
     + sum_list (zip_with actor_potential n2 a2))%nat.
Proof.
  intros Hlen. rewrite zip_with_app by done. rewrite sum_list_with_app. simpl. lia.
Qed.

Lemma in_flight_split (a1 : list actor) (a : actor) (a2 : list actor) :
  concat (map in_flight (a1 ++ a :: a2))
  = (concat (map in_flight a1) ++ in_flight a ++ concat (map in_flight a2))%list.
Proof. by rewrite map_app, concat_app. Qed.

Lemma length_split (a1 : list actor) (a a' : actor) (a2 : list actor) :
  length (a1 ++ a' :: a2) = length (a1 ++ a :: a2).
Proof. by rewrite !length_app. Qed.

(** An actor moves, the caller stays where it is. *)
Lemma actor_moves (image_paths : list string) (num_actors : nat) (notes : list nat)
    (s : state) (a1 : list actor) (a a' : actor) (a2 : list actor)
    (rq' : list Result) (m' : machine) :
  invariant image_paths num_actors notes s ->
  actors s = (a1 ++ a :: a2)%list ->
  (forall h, actor_fits h a ->
             exists h', actor_fits h' a'
                        /\ (actor_potential h' a' + length rq'
                            < actor_potential h a + length (result_queue s))%nat) ->
  (in_flight a' ++ map original rq' ≡ₚ in_flight a ++ map original (result_queue s))%list ->
  match main s with
  | Submitting _ | Collecting _ => alive a -> alive a'
  | _ => True
  end ->
  exists notes',
    invariant image_paths num_actors notes'
      {| mach := m'; main := main s; actors := (a1 ++ a' :: a2)%list;
         result_queue := rq'; results := results s |}
    /\ (potential (length image_paths) notes'
          {| mach := m'; main := main s; actors := (a1 ++ a' :: a2)%list;
             result_queue := rq'; results := results s |}
        < potential (length image_paths) notes s)%nat.
Proof.
  intros [Hcount Hrange Hperm Hres Hfit Halive] Ha Hnote Hflight Hlive.
  rewrite Ha in Hfit.
  destruct (split_notes _ _ _ _ Hfit) as (n1 & h & n2 & -> & Hn1 & Hh & Hn2 & Hlen).
  destruct (Hnote h Hh) as (h' & Hh' & Hpot).
  exists (n1 ++ h' :: n2)%list. split.
  - split; simpl.
    + by rewrite (length_split a1 a a' a2), <- Ha.
    + done.
    + rewrite Hperm, Ha, !in_flight_split.
      rewrite <- !app_assoc.
      apply Permutation_app_head.
      transitivity ((in_flight a ++ map original (result_queue s))
                    ++ concat (map in_flight a2) ++ map original (results s))%list;
        [solve_Permutation | ].
      rewrite <- Hflight. solve_Permutation.
    + done.
    + apply Forall2_app; [done | by constructor].
    + rewrite Ha in Halive.
      destruct (main s); try done;
        apply Forall_app in Halive as [Hl1 Hl2];
        apply Forall_cons in Hl2 as [Hla Hl2];
        apply Forall_app; (split; [done | ]); apply Forall_cons; auto.
  - unfold potential. simpl.
    rewrite (length_split a1 a a' a2), <- Ha, Ha.
    rewrite !potential_split by done. rewrite <- Ha. lia.
Qed.

Lemma actors_invariant_init (m : machine) (image_paths : list string) (num_actors : nat) :
  invariant image_paths num_actors (replicate num_actors 0%nat) (init m num_actors).
Proof.
  split; simpl.
  - apply length_replicate.
  - lia.
  - induction num_actors as [ | n IH]; simpl; [done | exact IH].
  - done.
  - induction num_actors as [ | n IH]; simpl; constructor; [done | exact IH].
  - apply Forall_replicate. by split.
Qed.

Lemma actors_potential_init (m : machine) (total num_actors : nat) :
  potential total (replicate num_actors 0%nat) (init m num_actors)
  = (13 * total + 2 * num_actors + 3)%nat.
Proof.
  unfold potential, init. cbn [main actors result_queue main_potential].
  rewrite length_replicate.
  assert (sum_list (zip_with actor_potential (replicate num_actors 0%nat)
                      (replicate num_actors (Actor (Task:=Task) (Result:=Result) [] true Polling)))
        = num_actors) as ->.
  { induction num_actors as [ | n IH]; simpl; [done | ]. simpl in IH. by rewrite IH. }
  simpl. lia.
Qed.

Lemma actors_invariant_step (image_paths : list string) (selected_filter output_folder : string)
    (num_actors : nat) (notes : list nat) (s s' : state) :
  invariant image_paths num_actors notes s ->
  step image_paths selected_filter output_folder s s' ->
  exists notes',
    invariant image_paths num_actors notes' s'
    /\ (potential (length image_paths) notes' s'
        < potential (length image_paths) notes s)%nat.
Proof.
  intros Hinv Hstep.
  destruct Hstep as [s i image_path a1 a a2 Hm Hi Ha Hne Hk | s Hm | s n r rest Hm Hn Hq
                      | s Hm | s k a1 a a2 Hm Ha Hk | s Hm
                      | s a1 a a2 t q Ha Hpc Hq | s a1 a a2 t X ev k ans m' Ha Hpc Hh
                      | s a1 a a2 t r Ha Hpc | s a1 a a2 t e Ha Hpc
                      | s a1 a a2 Ha Hpc Hq Hrun].
  - (* submit *)
    destruct Hinv as [Hcount Hrange Hperm Hres Hfit Halive].
    rewrite Hm in *. simpl in *. rewrite Ha in Hfit, Halive.
    destruct (split_notes _ _ _ _ Hfit) as (n1 & h & n2 & -> & Hn1 & Hh & Hn2 & Hlen).
    pose proof (lookup_lt_Some _ _ _ Hi) as Hlt.
    exists (n1 ++ h :: n2)%list. split.
    + split; simpl.
      * by rewrite (length_split a1 a _ a2), <- Ha.
      * lia.
      * rewrite (take_S_r _ _ _ Hi), Hperm, Ha, !in_flight_split.
        destruct a as [q running pc]. unfold ActorPool.in_flight. simpl.
        rewrite map_app. simpl. rewrite make_task_path. solve_Permutation.
      * done.
      * apply Forall2_app; [done | by constructor].
      * apply Forall_app in Halive as [Hl1 Hl2].
        apply Forall_cons in Hl2 as [Hla Hl2].
        apply Forall_app. split; [done | ]. apply Forall_cons. split; [ | done].
        exact Hla.
    + unfold potential. cbn [main actors result_queue]. rewrite Hm, Ha.
      rewrite (length_split a1 a _ a2). rewrite !potential_split by done.
      unfold actor_potential. cbn [task_queue at_pc main_potential].
      rewrite !length_app. simpl. lia.
  - (* the submission loop is over *)
    destruct Hinv as [Hcount Hrange Hperm Hres Hfit Halive].
    rewrite Hm in *. simpl in *.
    exists notes. split; [split; simpl; auto; lia | ].
    unfold potential. simpl. rewrite Hm. simpl. lia.
  - (* collect *)
    destruct Hinv as [Hcount Hrange Hperm Hres Hfit Halive].
    rewrite Hm in *. simpl in *.
    exists notes. split.
    + split; simpl; auto; try lia.
      * rewrite Hperm, Hq, map_app. simpl. solve_Permutation.
      * rewrite length_app. simpl. lia.
    + unfold potential. simpl. rewrite Hm, Hq. simpl. lia.
  - (* the collection loop is over *)
    destruct Hinv as [Hcount Hrange Hperm Hres Hfit Halive].
    rewrite Hm in *. simpl in *.
    exists notes. split; [split; simpl; auto; lia | ].
    unfold potential. simpl. rewrite Hm. simpl. lia.
  - (* stop *)
    destruct Hinv as [Hcount Hrange Hperm Hres Hfit Halive].
    rewrite Hm in *. simpl in *. rewrite Ha in Hfit.
    destruct (split_notes _ _ _ _ Hfit) as (n1 & h & n2 & -> & Hn1 & Hh & Hn2 & Hlen).
    assert (k < num_actors)%nat
      by (rewrite <- Hcount, Ha, length_app; simpl; lia).
    exists (n1 ++ h :: n2)%list. split.
    + split; simpl.
      * by rewrite (length_split a1 a _ a2), <- Ha.
      * lia.
      * rewrite Hperm, Ha, !in_flight_split. done.
      * done.
      * apply Forall2_app; [done | by constructor].
      * done.
    + unfold potential. cbn [main actors result_queue]. rewrite Hm, Ha.
      rewrite (length_split a1 a _ a2). rewrite !potential_split by done.
      unfold actor_potential. cbn [task_queue at_pc main_potential].
      rewrite !length_app. simpl. lia.
  - (* the stop loop is over *)
    destruct Hinv as [Hcount Hrange Hperm Hres Hfit Halive].
    rewrite Hm in *. simpl in *.
    exists notes. split; [split; simpl; auto; lia | ].
    unfold potential. simpl. rewrite Hm. simpl. lia.
  - (* an actor takes a task *)
    eapply (actor_moves _ _ _ s a1 a _ a2 (result_queue s) (mach s)); try done.
    + intros h _. exists 5%nat. split.
      * split; [apply process_image_free | apply process_image_within].
      * unfold actor_potential. rewrite Hpc, Hq. simpl. lia.
    + unfold ActorPool.in_flight. rewrite Hpc, Hq. simpl. solve_Permutation.
    + destruct (main s); try done; by intros [Hr _].
  - (* an actor performs an event of its task *)
    eapply (actor_moves _ _ _ s a1 a _ a2 (result_queue s) m'); try done.
    + intros h. unfold ActorPool.actor_fits. rewrite Hpc. simpl. intros [Hg Hw].
      destruct h as [ | h]; [done | ]. exists h. split.
      * split; [ | apply Hw]. destruct (kind_of ev); first [done | apply Hg].
      * unfold actor_potential. rewrite Hpc. simpl. lia.
    + unfold ActorPool.in_flight. rewrite Hpc. simpl. done.
    + destruct (main s); try done; by intros [Hr _].
  - (* an actor hands its result over *)
    eapply (actor_moves _ _ _ s a1 a _ a2 (result_queue s ++ [r])%list (mach s)); try done.
    + intros h _. exists 0%nat. split.
      * unfold ActorPool.actor_fits. simpl. by destruct (_running a).
      * unfold actor_potential. rewrite Hpc. simpl. rewrite length_app. simpl.
        destruct (_running a); lia.
    + assert (original r = source_path t) as Ho.
      { destruct Hinv as [_ _ _ _ Hfit _]. rewrite Ha in Hfit.
        destruct (split_notes _ _ _ _ Hfit) as (n1 & h & n2 & _ & _ & Hh & _).
        unfold ActorPool.actor_fits in Hh. rewrite Hpc in Hh. by destruct Hh. }
      unfold ActorPool.in_flight. rewrite Hpc. simpl. rewrite map_app. simpl. rewrite Ho.
      destruct (_running a); simpl; solve_Permutation.
    + destruct (main s); try done;
        intros [Hr Hx]; (split; simpl; [done | by rewrite Hr]).
  - (* a task never raises *)
    exfalso. destruct Hinv as [_ _ _ _ Hfit _]. rewrite Ha in Hfit.
    destruct (split_notes _ _ _ _ Hfit) as (n1 & h & n2 & _ & _ & Hh & _).
    unfold ActorPool.actor_fits in Hh. rewrite Hpc in Hh. by destruct Hh.
  - (* an idle actor sees the stop flag *)
    eapply (actor_moves _ _ _ s a1 a _ a2 (result_queue s) (mach s)); try done.
    + intros h _. exists 0%nat. split; [done | ].
      unfold actor_potential. simpl. rewrite Hpc, Hq. simpl. lia.
    + unfold ActorPool.in_flight. simpl. rewrite Hpc, Hq. done.
    + destruct (main s); try done; intros [Hr _]; congruence.
Qed.

Lemma actors_invariant_nsteps (image_paths : list string) (selected_filter output_folder : string)
    (num_actors k : nat) (s s' : state) :
  nsteps (step image_paths selected_filter output_folder) k s s' ->
  forall notes, invariant image_paths num_actors notes s ->
  exists notes',
    invariant image_paths num_actors notes' s'
    /\ (k + potential (length image_paths) notes' s'
        <= potential (length image_paths) notes s)%nat.
Proof.
  induction 1 as [s | k s1 s2 s3 Hs _ IH]; intros notes Hinv.
  - exists notes. split; [done | lia].
  - destruct (actors_invariant_step _ _ _ _ _ _ _ Hinv Hs) as (notes2 & Hinv2 & Hlt).
    destruct (IH _ Hinv2) as (notes3 & Hinv3 & Hle).
    exists notes3. split; [done | lia].
Qed.

(** Once every result is collected nothing is left in flight. *)
Lemma actors_invariant_collected (image_paths : list string) (num_actors : nat)
    (notes : list nat) (s : state) :
  invariant image_paths num_actors notes s ->
  submitted_count (length image_paths) (main s) = length image_paths ->
  collected_count (length image_paths) (main s) = length image_paths ->
  map original (results s) ≡ₚ image_paths
  /\ length (results s) = length image_paths.
Proof.
  intros [_ _ Hperm Hres _ _] Hsub Hcol.
  rewrite Hsub, take_ge in Hperm by done. rewrite Hcol in Hres.
  pose proof (Permutation_length Hperm) as Hlen.
  rewrite !length_app, !length_map in Hlen.
  assert (concat (map in_flight (actors s)) = []) as Hc
    by (apply length_zero_iff_nil; lia).
  assert (result_queue s = []) as Hq by (apply length_zero_iff_nil; lia).
  rewrite Hc, Hq in Hperm. simpl in Hperm. done.
Qed.

Lemma actors_invariant_returns (image_paths : list string) (num_actors : nat)
    (notes : list nat) (s : state) :
  invariant image_paths num_actors notes s -> returns s ->
  map original (results s) ≡ₚ image_paths
  /\ length (results s) = length image_paths.
Proof.
  intros Hinv Hret. unfold returns in Hret.
  apply (actors_invariant_collected _ _ _ _ Hinv); by rewrite Hret.
Qed.

Lemma concat_nonempty {A} (l : list (list A)) :
  concat l <> [] -> exists l1 x l2, l = (l1 ++ x :: l2)%list /\ x <> [].
Proof.
  induction l as [ | x l IH]; simpl; [done | ].
  destruct x as [ | y x].
  - simpl. intros Hne. destruct (IH Hne) as (l1 & x' & l2 & -> & Hx).
    by exists ([] :: l1), x', l2.
  - intros _. by exists [], (y :: x), l.
Qed.

Lemma split_at {A} (l : list A) (k : nat) :
  (k < length l)%nat -> exists l1 x l2, l = (l1 ++ x :: l2)%list /\ length l1 = k.
Proof.
  intros Hk. destruct (lookup_lt_is_Some_2 _ _ Hk) as [x Hx].
  apply list_elem_of_split_length in Hx as (l1 & l2 & -> & ->). eauto.
Qed.

(** Until the function returns, the caller or some actor can move. *)
Lemma actors_progress (image_paths : list string) (selected_filter output_folder : string)
    (num_actors : nat) (notes : list nat) (s : state) :
  invariant image_paths num_actors notes s -> (0 < num_actors)%nat ->
  returns s \/ exists s', step image_paths selected_filter output_folder s s'.
Proof.
  intros Hinv Hpos. pose proof Hinv as [Hcount Hrange Hperm Hres Hfit Halive].
  assert (Hwork : concat (map in_flight (actors s)) <> [] ->
                  Forall alive (actors s) ->
                  exists s', step image_paths selected_filter output_folder s s').
  { intros Hne Hal. apply concat_nonempty in Hne as (l1 & x & l2 & Hl & Hx).
    apply fmap_app_inv in Hl as (a1 & a2' & -> & Ha2 & Ha).
    destruct a2' as [ | a a2]; [done | ]. simpl in Ha2. inversion Ha2; subst.
    rewrite Ha in Hfit, Hal.
    destruct (split_notes _ _ _ _ Hfit) as (n1 & h & n2 & _ & _ & Hh & _).
    apply Forall_app in Hal as [_ Hal]. apply Forall_cons in Hal as [[_ Hex] _].
    unfold ActorPool.actor_fits in Hh. unfold ActorPool.in_flight in Hx.
    destruct (at_pc a) as [ | t p | ] eqn:Hpc; [ | | done].
    - destruct (task_queue a) as [ | t q] eqn:Hq; [done | ].
      eexists. by eapply dequeue.
    - destruct p as [r | e | X ev k]; simpl in Hh.
      + eexists. by eapply put.
      + by destruct Hh.
      + destruct Hh as [Hg _].
        destruct (handle_other ev (mach s)) as (ans & m' & Hh).
        { intros Hk. by rewrite Hk in Hg. }
        eexists. by eapply exec. }
  destruct (main s) as [i | n | k | ] eqn:Hm; simpl in *.
  - (* submitting *)
    right. destruct (decide (i = length image_paths)) as [-> | Hi].
    + eexists. by eapply submitted.
    + destruct (lookup_lt_is_Some_2 image_paths i ltac:(lia)) as [p Hp].
      destruct (split_at (actors s) (i mod length (actors s))) as (a1 & a & a2 & Ha & Hk).
      { apply Nat.mod_upper_bound. lia. }
      eexists. eapply submit; eauto. lia.
  - (* collecting *)
    right. destruct (decide (n = length image_paths)) as [-> | Hn].
    + eexists. by eapply collected.
    + destruct (result_queue s) as [ | r rest] eqn:Hq.
      * apply Hwork; [ | done].
        intros Hc. rewrite Hc in Hperm. simpl in Hperm.
        apply Permutation_length in Hperm.
        rewrite length_take, length_map in Hperm. lia.
      * eexists. eapply collect; eauto. lia.
  - (* stopping *)
    right. destruct (decide (k = length (actors s))) as [-> | Hk].
    + eexists. by eapply stopped.
    + destruct (split_at (actors s) k) as (a1 & a & a2 & Ha & Hk'); [lia | ].
      eexists. by eapply stop.
  - by left.
Qed.

End Pool.
End ActorPoolFacts.

(** ** One result per task, whatever the strategy *)

(** C9. For every batch, each strategy returns a list with one result per
    task, whose [original] paths are the source paths of the tasks up to
    order.  Sequential (both programs): the run returns such a list.
    ThreadPool+Gate (prueba2.py) and ActorPool (both programs): under
    every interleaving of the steps of the workers (each call to a
    collaborator and each gate operation being one step) and of the
    caller, the run can always go on until the function returns, it
    returns within a bounded number of steps, and the list returned is
    such a list: no result is lost, none comes twice. *)
Theorem every_task_yields_one_result :
  forall (World Img : Type) (I : Imaging World Img) (U : PyStr.Unicode)
         (image_paths : list string) (selected_filter output_folder : string)
         (m : machine (World:=World) (Img:=Img)),
    (* Sequential *)
    (exists results elapsed m',
        run (Prueba2.process_image_sequential image_paths selected_filter output_folder) m
        = (Returned (results, elapsed), m')
        /\ length results = length image_paths
        /\ map Prueba2.original results ≡ₚ image_paths)
    /\ (exists results elapsed m',
          run (Prueba.process_image_sequential image_paths selected_filter output_folder) m
          = (Returned (results, elapsed), m')
          /\ length results = length image_paths
          /\ map Prueba.original results ≡ₚ image_paths)
    (* ThreadPool+Gate *)
    /\ (forall (max_workers k : nat) (s : ThreadPool.state),
          (0 < max_workers)%nat -> (0 < semaphore_value m)%Z ->
          nsteps (ThreadPool.step max_workers) k
            (ThreadPool.init m image_paths selected_filter output_folder) s ->
          (k <= 10 * length image_paths)%nat
          /\ (ThreadPool.returns s \/ exists s', ThreadPool.step max_workers s s')
          /\ (ThreadPool.returns s ->
              length (ThreadPool.results s) = length image_paths
              /\ map Prueba2.original (ThreadPool.results s) ≡ₚ image_paths))
    (* ActorPool, prueba2.py *)
    /\ (forall (num_actors k : nat) (s : ActorPool.state),
          (0 < num_actors)%nat ->
          nsteps (ActorPool.step Prueba2.actor_task Prueba2.process_image
                    image_paths selected_filter output_folder) k
            (ActorPool.init m num_actors) s ->
          (k <= 13 * length image_paths + 2 * num_actors + 3)%nat
          /\ (ActorPool.returns s
              \/ exists s', ActorPool.step Prueba2.actor_task Prueba2.process_image
                              image_paths selected_filter output_folder s s')
          /\ (ActorPool.returns s ->
              length (ActorPool.results s) = length image_paths
              /\ map Prueba2.original (ActorPool.results s) ≡ₚ image_paths))
    (* ActorPool, prueba.py *)
    /\ (forall (num_actors k : nat) (s : ActorPool.state),
          (0 < num_actors)%nat ->
          nsteps (ActorPool.step Prueba.actor_task Prueba.process_image
                    image_paths selected_filter output_folder) k
            (ActorPool.init m num_actors) s ->
          (k <= 13 * length image_paths + 2 * num_actors + 3)%nat
          /\ (ActorPool.returns s
              \/ exists s', ActorPool.step Prueba.actor_task Prueba.process_image
                              image_paths selected_filter output_folder s s')
          /\ (ActorPool.returns s ->
              length (ActorPool.results s) = length image_paths
              /\ map Prueba.original (ActorPool.results s) ≡ₚ image_paths)).
Proof.
  intros World Img I U image_paths selected_filter output_folder m.
  split; [ | split; [ | split; [ | split]]].
  - destruct (sequential2_run image_paths selected_filter output_folder m)
      as (results & elapsed & m' & Hrun & Ho).
    exists results, elapsed, m'. split; [exact Hrun | ].
    split; [ | by rewrite Ho].
    by rewrite <- Ho, length_map.
  - destruct (sequential1_run image_paths selected_filter output_folder m)
      as (results & elapsed & m' & Hrun & Ho).
    exists results, elapsed, m'. split; [exact Hrun | ].
    split; [ | by rewrite Ho].
    by rewrite <- Ho, length_map.
  - intros max_workers k s Hw Hcap Hk.
    destruct (ThreadPoolFacts.pool_invariant_nsteps _ _ _ _ _ _ Hk []
                (ThreadPoolFacts.pool_invariant_init m image_paths selected_filter
                   output_folder))
      as (notes & Hinv & Hle).
    rewrite ThreadPoolFacts.pool_potential_init in Hle.
    split; [lia | ]. split.
    + by eapply ThreadPoolFacts.pool_progress.
    + intros Hret.
      destruct (ThreadPoolFacts.pool_invariant_returns _ _ _ _ Hinv Hret) as [Hperm Hlen].
      done.
  - intros num_actors k s Hpos Hk.
    destruct (ActorPoolFacts.actors_invariant_nsteps
                Prueba2.actor_task Prueba2.process_image Prueba2.source_path Prueba2.original
                ltac:(done) process_image2_gate_free process_image2_within
                _ _ _ _ _ _ _ Hk _
                (ActorPoolFacts.actors_invariant_init _ _ m image_paths num_actors))
      as (notes & Hinv & Hle).
    rewrite ActorPoolFacts.actors_potential_init in Hle.
    split; [lia | ]. split.
    + eapply ActorPoolFacts.actors_progress; eauto.
    + intros Hret.
      destruct (ActorPoolFacts.actors_invariant_returns _ _ _ _ _ _ Hinv Hret)
        as [Hperm Hlen].
      done.
  - intros num_actors k s Hpos Hk.
    destruct (ActorPoolFacts.actors_invariant_nsteps
                Prueba.actor_task Prueba.process_image Prueba.source_path Prueba.original
                ltac:(done) process_image1_gate_free process_image1_within
                _ _ _ _ _ _ _ Hk _
                (ActorPoolFacts.actors_invariant_init _ _ m image_paths num_actors))
      as (notes & Hinv & Hle).
    rewrite ActorPoolFacts.actors_potential_init in Hle.
    split; [lia | ]. split.
    + eapply ActorPoolFacts.actors_progress; eauto.
    + intros Hret.
      destruct (ActorPoolFacts.actors_invariant_returns _ _ _ _ _ _ Hinv Hret)
        as [Hperm Hlen].
      done.
Qed.


(** ** Two runs to the end *)

(** The next event of the call at the head of [running], of the call
    behind it, of the only call. *)
Ltac first_call_moves :=
  eapply nsteps_l;
  [eapply (ThreadPool.exec _ _ [] [_]); [reflexivity | reflexivity | reflexivity] | ];
  cbn.
Ltac second_call_moves :=
  eapply nsteps_l;
  [eapply (ThreadPool.exec _ _ [_] []); [reflexivity | reflexivity | reflexivity] | ];
  cbn.

(** Two images, two workers, a gate of capacity one: the second call gets
    the gate first and the first call waits for it; the results come back
    in completion order, one per image, and the gate is free again. *)
Example thread_pool_run :
  exists s,
    nsteps (ThreadPool.step 2) 17
      (ThreadPool.init
         {| world := Demo.disk; semaphore_value := 1; active_processes := 0; calls := [] |}
         ["/fotos/gato.png"; "/fotos/pez.png"] "Bordes" "/out") s
    /\ ThreadPool.returns s
    /\ ThreadPool.results s
       = [Prueba2.ERROR "/fotos/pez.png" "Error en pez.png: No such file or directory"
            "multihilo";
          Prueba2.OK "/fotos/gato.png" "/out/gato_multihilo.png"
            "Procesado: gato.png (multihilo)" "Bordes" "multihilo"]
    /\ semaphore_value (ThreadPool.mach s) = 1%Z
    /\ active_processes (ThreadPool.mach s) = 0%Z.
Proof.
  eexists. split; [ | split; [ | split; [ | split]]].
  - eapply nsteps_l; [eapply ThreadPool.start; [reflexivity | simpl; lia | reflexivity] | ].
    cbn.
    eapply nsteps_l; [eapply ThreadPool.start; [reflexivity | simpl; lia | reflexivity] | ].
    cbn.
    (* the call for pez.png: acquire, sleep, open (which raises), release *)
    do 4 second_call_moves.
    (* the call for gato.png: acquire, sleep, open, convert, filter, save, release *)
    do 7 first_call_moves.
    eapply nsteps_l; [eapply (ThreadPool.finish _ _ [_] []); reflexivity | ]. cbn.
    eapply nsteps_l; [eapply (ThreadPool.finish _ _ [] []); reflexivity | ]. cbn.
    eapply nsteps_l; [eapply (ThreadPool.collect _ _ [] [_]); reflexivity | ]. cbn.
    eapply nsteps_l; [eapply (ThreadPool.collect _ _ [] []); reflexivity | ]. cbn.
    apply nsteps_O.
  - repeat split; reflexivity.
  - reflexivity.
  - reflexivity.
  - reflexivity.
Qed.

(** Three images, two actors: the second actor is done first; the results
    come back in completion order, one per image. *)
Example actor_pool_run :
  exists s,
    nsteps (ActorPool.step Prueba2.actor_task Prueba2.process_image
              ["/fotos/gato.png"; "/fotos/pez.png"; "/fotos/perro.jpg"] "Grises" "/out") 29
      (ActorPool.init (Demo.boot Demo.disk) 2) s
    /\ ActorPool.returns s
    /\ ActorPool.results s
       = [Prueba2.ERROR "/fotos/pez.png" "Error en pez.png: No such file or directory" "actor";
          Prueba2.OK "/fotos/gato.png" "/out/gato_actor.png"
            "Procesado: gato.png (actor)" "Grises" "actor";
          Prueba2.OK "/fotos/perro.jpg" "/out/perro_actor.jpg"
            "Procesado: perro.jpg (actor)" "Grises" "actor"].
Proof.
  eexists. split; [ | split].
  - (* the three submissions: actors 0, 1, 0 *)
    eapply nsteps_l;
      [eapply (ActorPool.submit _ _ _ _ _ _ 0 _ [] _ [_]);
       [reflexivity | reflexivity | reflexivity | discriminate | reflexivity] | ]. cbn.
    eapply nsteps_l;
      [eapply (ActorPool.submit _ _ _ _ _ _ 1 _ [_] _ []);
       [reflexivity | reflexivity | reflexivity | discriminate | reflexivity] | ]. cbn.
    eapply nsteps_l;
      [eapply (ActorPool.submit _ _ _ _ _ _ 2 _ [] _ [_]);
       [reflexivity | reflexivity | reflexivity | discriminate | reflexivity] | ]. cbn.
    eapply nsteps_l; [eapply ActorPool.submitted; reflexivity | ]. cbn.
    (* the second actor: pez.png, which cannot be opened *)
    eapply nsteps_l; [eapply (ActorPool.dequeue _ _ _ _ _ _ [_] _ []); reflexivity | ]. cbn.
    do 2 (eapply nsteps_l; [eapply (ActorPool.exec _ _ _ _ _ _ [_] _ []); reflexivity | ]; cbn).
    eapply nsteps_l; [eapply (ActorPool.put _ _ _ _ _ _ [_] _ []); reflexivity | ]. cbn.
    eapply nsteps_l; [eapply ActorPool.collect; [reflexivity | simpl; lia | reflexivity] | ].
    cbn.
    (* the first actor: gato.png, then perro.jpg *)
    do 2 (eapply nsteps_l; [eapply (ActorPool.dequeue _ _ _ _ _ _ [] _ [_]); reflexivity | ];
          cbn;
          do 5 (eapply nsteps_l;
                  [eapply (ActorPool.exec _ _ _ _ _ _ [] _ [_]); reflexivity | ]; cbn);
          eapply nsteps_l; [eapply (ActorPool.put _ _ _ _ _ _ [] _ [_]); reflexivity | ];
          cbn).
    do 2 (eapply nsteps_l;
            [eapply ActorPool.collect; [reflexivity | simpl; lia | reflexivity] | ]; cbn).
    eapply nsteps_l; [eapply ActorPool.collected; reflexivity | ]. cbn.
    eapply nsteps_l;
      [eapply (ActorPool.stop _ _ _ _ _ _ 0 [] _ [_]); reflexivity | ]. cbn.
    eapply nsteps_l;
      [eapply (ActorPool.stop _ _ _ _ _ _ 1 [_] _ []); reflexivity | ]. cbn.
    eapply nsteps_l; [eapply ActorPool.stopped; reflexivity | ]. cbn.
    apply nsteps_O.
  - reflexivity.
  - reflexivity.
Qed.

Lemma gate_released_on_every_exit_witness :
  (0 < semaphore_value (Demo.boot Demo.disk))%Z
  /\ exists r m',
       run (Prueba2.process_with_semaphore ("/fotos/gato.png", "Grises", "/out", "multihilo"))
         (Demo.boot Demo.disk)
       = (Returned r, m')
       /\ settled Before (Demo.boot Demo.disk) m'.
Proof.
  split; [reflexivity | ].
  exact (proj1 (proj2 (proj2 (proj2
           (gate_released_on_every_exit _ _ Demo.imaging Demo.unicode
              "/fotos/gato.png" "Grises" "/out" "multihilo" (Demo.boot Demo.disk))))
           eq_refl)).
Defined.

Lemma every_task_yields_one_result_witness :
  exists s,
    nsteps (ThreadPool.step 2) 17
      (ThreadPool.init
         {| world := Demo.disk; semaphore_value := 1; active_processes := 0; calls := [] |}
         ["/fotos/gato.png"; "/fotos/pez.png"] "Bordes" "/out") s
    /\ ThreadPool.returns s
    /\ length (ThreadPool.results s) = 2%nat.
Proof.
  destruct thread_pool_run as (s & Hn & Hr & _).
  exists s. split; [exact Hn | ]. split; [exact Hr | ].
  exact (proj1 (proj2 (proj2
           (proj1 (proj2 (proj2
              (every_task_yields_one_result _ _ Demo.imaging Demo.unicode
                 ["/fotos/gato.png"; "/fotos/pez.png"] "Bordes" "/out"
                 {| world := Demo.disk; semaphore_value := 1; active_processes := 0;
                    calls := [] |})))
              2%nat 17%nat s (le_n_S _ _ (le_S _ _ (le_n 0))) eq_refl Hn)) Hr)).
Defined.

(** * The application around the engine *)

(** ** More on strings *)

Lemma str_length_app (a b : string) :
  String.length (a ++ b) = (String.length a + String.length b)%nat.
Proof. induction a as [ | c a IH]; simpl; [done | by rewrite IH]. Qed.

Lemma str_drop_app (a b : string) : PyStr.drop (String.length a) (a ++ b) = b.
Proof. induction a as [ | c a IH]; simpl; [by destruct b | exact IH]. Qed.

Lemma str_take_drop (n : nat) (s : string) : PyStr.take n s ++ PyStr.drop n s = s.
Proof.
  revert s. induction n as [ | n IH]; intros [ | c s]; try done.
  change (String c (PyStr.take n s ++ PyStr.drop n s) = String c s). by rewrite IH.
Qed.

Lemma str_app_inv_head (a b c : string) : a ++ b = a ++ c -> b = c.
Proof. induction a as [ | x a IH]; simpl; [done | ]. intros Heq. inversion Heq. auto. Qed.

Lemma str_app_nil_self (a b : string) : a ++ b = b -> a = "".
Proof.
  intros Heq. apply (f_equal String.length) in Heq. rewrite str_length_app in Heq.
  destruct a; [done | simpl in Heq; lia].
Qed.

Lemma str_app_inv_tail (a b c : string) : a ++ c = b ++ c -> a = b.
Proof.
  revert b. induction a as [ | x a IH]; intros b Heq.
  - simpl in Heq. symmetry in Heq. apply str_app_nil_self in Heq. done.
  - destruct b as [ | y b].
    + apply (str_app_nil_self (String x a) c) in Heq. done.
    + simpl in Heq. inversion Heq. f_equal. auto.
Qed.

(** [s.endswith(suffix)] holds exactly of the strings [stem + suffix]. *)
Lemma endswith_str_spec (suffix s : string) :
  PyStr.endswith_str suffix s = true <-> exists stem, s = stem ++ suffix.
Proof.
  unfold PyStr.endswith_str. split.
  - intros [_ Heq]%andb_true_iff. apply String.eqb_eq in Heq.
    exists (PyStr.take (String.length s - String.length suffix) s).
    transitivity (PyStr.take (String.length s - String.length suffix) s
                  ++ PyStr.drop (String.length s - String.length suffix) s);
      [symmetry; apply str_take_drop | by rewrite Heq].
  - intros [stem ->]. rewrite str_length_app. apply andb_true_iff. split.
    + apply Nat.leb_le. lia.
    + replace (String.length stem + String.length suffix - String.length suffix)%nat
        with (String.length stem) by lia.
      rewrite str_drop_app. apply String.eqb_refl.
Qed.

Lemma endswith_tuple_spec (suffixes : list string) (s : string) :
  PyStr.endswith_tuple suffixes s = true
  <-> exists suffix stem, suffix ∈ suffixes /\ s = stem ++ suffix.
Proof.
  unfold PyStr.endswith_tuple. rewrite existsb_exists. split.
  - intros (suffix & Hin & [stem ->]%endswith_str_spec).
    exists suffix, stem. split; [by apply list_elem_of_In | done].
  - intros (suffix & stem & Hin & ->). exists suffix.
    split; [by apply list_elem_of_In | ]. apply endswith_str_spec. eauto.
Qed.

Example dropped_upper_case :
  PyStr.endswith_tuple Gallery.image_suffixes (PyStr.lower "/fotos/GATO.PNG") = true.
Proof. reflexivity. Qed.

Example dropped_text_file :
  PyStr.endswith_tuple Gallery.image_suffixes (PyStr.lower "/fotos/notas.txt") = false.
Proof. reflexivity. Qed.

(** ** The list of loaded images *)

Module GalleryFacts.
Import Gallery.

(** The rows of the list box are the base names of the loaded paths, and
    no path is loaded twice. *)
Lemma add_path_paths (path : string) (g : state) :
  image_paths (add_path path g)
  = if bool_decide (path ∈ image_paths g) then image_paths g
    else (image_paths g ++ [path])%list.
Proof. unfold add_path. by destruct (bool_decide _). Qed.

Lemma add_path_mirrored (path : string) (g : state) :
  mirrored g -> mirrored (add_path path g).
Proof.
  intros [Hnd Hl]. unfold add_path. case_bool_decide as Hin; [done | ].
  split; simpl.
  - apply NoDup_app. split; [done | ]. split; [ | apply NoDup_singleton].
    intros x Hx ->%list_elem_of_singleton. done.
  - by rewrite Hl, map_app.
Qed.

Lemma add_path_elem (path : string) (g : state) (x : string) :
  x ∈ image_paths (add_path path g) <-> x ∈ image_paths g \/ x = path.
Proof.
  rewrite add_path_paths. case_bool_decide as Hin.
  - split; [auto | ]. intros [Hx | ->]; done.
  - rewrite elem_of_app, list_elem_of_singleton. done.
Qed.

Lemma add_path_prefix (path : string) (g : state) :
  image_paths g `prefix_of` image_paths (add_path path g).
Proof.
  rewrite add_path_paths. case_bool_decide; [done | ]. by apply prefix_app_r.
Qed.

Lemma load_images_mirrored (paths : list string) (g : state) :
  mirrored g -> mirrored (load_images paths g).
Proof.
  unfold load_images. revert g. induction paths as [ | p paths IH]; intros g Hg; simpl;
    [done | ].
  by apply IH, add_path_mirrored.
Qed.

Lemma drop_event_mirrored (files : list string) (g : state) :
  mirrored g -> mirrored (drop_event files g).
Proof.
  unfold drop_event. revert g.
  induction files as [ | p files IH]; intros g Hg; cbn [foldl]; [done | ].
  apply IH.
  destruct (PyStr.endswith_tuple image_suffixes (PyStr.lower p));
    [by apply add_path_mirrored | done].
Qed.

Lemma act_mirrored (g : state) (a : action) : mirrored g -> mirrored (act g a).
Proof.
  destruct a; simpl.
  - apply load_images_mirrored.
  - apply drop_event_mirrored.
  - intros _. split; [constructor | done].
Qed.

Lemma history_mirrored (history : list action) (g : state) :
  mirrored g -> mirrored (foldl act g history).
Proof.
  revert g. induction history as [ | a history IH]; intros g Hg; simpl; [done | ].
  by apply IH, act_mirrored.
Qed.

Lemma load_images_elem (paths : list string) (g : state) (x : string) :
  x ∈ image_paths (load_images paths g) <-> x ∈ image_paths g \/ x ∈ paths.
Proof.
  unfold load_images. revert g. induction paths as [ | p paths IH]; intros g; simpl.
  - rewrite elem_of_nil. tauto.
  - rewrite IH, add_path_elem, elem_of_cons. tauto.
Qed.

Lemma load_images_prefix (paths : list string) (g : state) :
  image_paths g `prefix_of` image_paths (load_images paths g).
Proof.
  unfold load_images. revert g. induction paths as [ | p paths IH]; intros g; simpl;
    [done | ].
  etransitivity; [apply (add_path_prefix p) | apply IH].
Qed.

Lemma load_images_known (paths : list string) (g : state) :
  (forall x, x ∈ paths -> x ∈ image_paths g) -> load_images paths g = g.
Proof.
  unfold load_images. induction paths as [ | p paths IH]; intros Hall; simpl; [done | ].
  assert (add_path p g = g) as ->.
  { unfold add_path. rewrite bool_decide_eq_true_2; [done | ].
    apply Hall. by left. }
  apply IH. intros x Hx. apply Hall. by right.
Qed.

Lemma drop_event_elem (files : list string) (g : state) (x : string) :
  x ∈ image_paths (drop_event files g)
  <-> x ∈ image_paths g
      \/ (x ∈ files /\ PyStr.endswith_tuple image_suffixes (PyStr.lower x) = true).
Proof.
  unfold drop_event. revert g. induction files as [ | p files IH]; intros g; cbn [foldl].
  - rewrite elem_of_nil. tauto.
  - rewrite IH, elem_of_cons.
    destruct (PyStr.endswith_tuple image_suffixes (PyStr.lower p)) eqn:Hp.
    + rewrite add_path_elem. split.
      * intros [[Hx | ->] | [Hx Hs]]; auto.
      * intros [Hx | [[-> | Hx] Hs]]; auto.
    + split.
      * intros [Hx | [Hx Hs]]; auto.
      * intros [Hx | [[-> | Hx] Hs]]; auto. congruence.
Qed.

End GalleryFacts.

(** X7. Whatever images are loaded, dropped or cleared, in whatever order,
    no path is loaded twice and the rows of the list box are the base
    names of the loaded paths, in the same order: the row selected in
    [update_preview] is always in range and names the image it shows. *)
Theorem listbox_mirrors_image_paths :
  forall (history : list Gallery.action),
    let g := foldl Gallery.act Gallery.__init__ history in
    NoDup (Gallery.image_paths g)
    /\ Gallery.listbox g = map OsPath.basename (Gallery.image_paths g)
    /\ forall (index : nat) (row : string),
         Gallery.listbox g !! index = Some row ->
         exists path,
           Gallery.selected_image index g = Some path /\ row = OsPath.basename path.
Proof.
  intros history g.
  destruct (GalleryFacts.history_mirrored history Gallery.__init__) as [Hnd Hl].
  { split; [constructor | done]. }
  fold g in Hnd, Hl. split; [done | ]. split; [done | ].
  intros index row Hrow. rewrite Hl in Hrow.
  apply list_lookup_fmap_Some in Hrow as (path & -> & Hpath).
  exists path. split; [ | done]. unfold Gallery.selected_image.
  apply lookup_lt_Some in Hpath as Hlt.
  destruct (Nat.ltb_spec index (length (Gallery.image_paths g))); [done | lia].
Qed.

(** X8. [load_images] appends: what was loaded stays in front, in its
    order; afterwards the list holds what it held and the paths selected,
    and nothing else; selecting the same files again changes nothing. *)
Theorem load_images_is_idempotent :
  forall (paths : list string) (g : Gallery.state),
    Gallery.image_paths g `prefix_of` Gallery.image_paths (Gallery.load_images paths g)
    /\ (forall x, x ∈ Gallery.image_paths (Gallery.load_images paths g)
                  <-> x ∈ Gallery.image_paths g \/ x ∈ paths)
    /\ Gallery.load_images paths (Gallery.load_images paths g)
       = Gallery.load_images paths g.
Proof.
  intros paths g. split; [apply GalleryFacts.load_images_prefix | ].
  split; [apply GalleryFacts.load_images_elem | ].
  apply GalleryFacts.load_images_known. intros x Hx.
  apply GalleryFacts.load_images_elem. by right.
Qed.

(** X9. [drop_event] takes the dropped files whose name, in lower case,
    ends with [.png], [.jpg], [.jpeg], [.bmp] or [.gif], and no other:
    afterwards the list holds what it held and those files. *)
Theorem drop_event_takes_image_files_only :
  forall (files : list string) (g : Gallery.state) (x : string),
    x ∈ Gallery.image_paths (Gallery.drop_event files g)
    <-> x ∈ Gallery.image_paths g
        \/ (x ∈ files
            /\ exists suffix stem,
                 suffix ∈ [".png"; ".jpg"; ".jpeg"; ".bmp"; ".gif"]
                 /\ PyStr.lower x = stem ++ suffix).
Proof.
  intros files g x. rewrite GalleryFacts.drop_event_elem.
  by rewrite endswith_tuple_spec.
Qed.

(** ** prueba.py: the tally of the results *)

Module PruebaAppFacts.
Import Prueba PruebaApp.




Lemma drain_untouched (rs : list result) (a : app) (p : string) :
  p ∉ map original rs -> processed_paths (drain rs a) !! p = processed_paths a !! p.
Proof.
  unfold drain. revert a. induction rs as [ | r rs IH]; intros a Hp; cbn [foldl]; [done | ].
  simpl in Hp. apply not_elem_of_cons in Hp as [Hne Hp].
  rewrite IH by done. destruct r; simpl in *; [ | done].
  by rewrite lookup_insert_ne.
Qed.






End PruebaAppFacts.


(** X11. After a round of [update_ui] over results that name each image
    at most once, [processed_paths] maps the image of every OK result to
    the output path that the result reports; the image of an ERROR result
    keeps the entry it had, if any, from an earlier run, and so does every
    image that the round has no result for. *)
Theorem processed_paths_follow_the_results :
  forall (rs : list Prueba.result) (a : PruebaApp.app),
    NoDup (map Prueba.original rs) ->
    (forall original output message filter,
        Prueba.OK original output message filter ∈ rs ->
        PruebaApp.processed_paths (PruebaApp.drain rs a) !! original = Some output)
    /\ (forall original message,
          Prueba.ERROR original message ∈ rs ->
          PruebaApp.processed_paths (PruebaApp.drain rs a) !! original
          = PruebaApp.processed_paths a !! original)
    /\ (forall path,
          path ∉ map Prueba.original rs ->
          PruebaApp.processed_paths (PruebaApp.drain rs a) !! path
          = PruebaApp.processed_paths a !! path).
Proof.
  intros rs a Hnd.
  assert (Hin : forall r, r ∈ rs ->
            PruebaApp.processed_paths (PruebaApp.drain rs a) !! Prueba.original r
            = match Prueba.output r with
              | Some output => Some output
              | None => PruebaApp.processed_paths a !! Prueba.original r
              end).
  { revert a Hnd. induction rs as [ | r0 rs IH]; intros a Hnd r Hr; [by inversion Hr | ].
    simpl in Hnd. apply NoDup_cons in Hnd as [Hfresh Hnd].
    change (PruebaApp.drain (r0 :: rs) a)
      with (PruebaApp.drain rs (PruebaApp.tally_result r0 a)).
    apply elem_of_cons in Hr as [-> | Hr].
    - rewrite PruebaAppFacts.drain_untouched by done.
      destruct r0; simpl; [by rewrite lookup_insert_eq | done].
    - rewrite (IH _ Hnd r Hr).
      destruct (Prueba.output r); [done | ].
      destruct r0; simpl; [ | done].
      rewrite lookup_insert_ne; [done | ].
      intros Heq. apply Hfresh. simpl. rewrite Heq.
      apply list_elem_of_fmap. eauto. }
  split; [ | split].
  - intros original output message filter Hr. exact (Hin _ Hr).
  - intros original message Hr. exact (Hin _ Hr).
  - intros path Hp. by apply PruebaAppFacts.drain_untouched.
Qed.


(** X13. [compare_strategies] on a list that is not empty: the sequential
    run returns, its time is appended to the sequential history and to no
    other, the chart is drawn without a division by zero, with four bars;
    the results themselves are dropped (counters and [processed_paths]
    stay as they were), and a speedup is reported only if a process-pool
    run was recorded before. *)
Theorem compare_strategies_times_the_sequential_run :
  forall (World Img : Type) (I : Imaging World Img) (U : PyStr.Unicode)
         (m : machine (World:=World) (Img:=Img))
         (selected_filter : string) (a : PruebaApp.app),
    Gallery.image_paths (PruebaApp.images a) <> [] ->
    exists (results : list Prueba.result) (seq_time : Q) (m' : machine)
           (a' : PruebaApp.app) (bars : list Q) (report : option (Q * Q)),
      run (Prueba.process_image_sequential (Gallery.image_paths (PruebaApp.images a))
             selected_filter (PruebaApp.output_folder a)) m
      = (Returned (results, seq_time), m')
      /\ PruebaApp.compare_strategies (results, seq_time) a
         = (a', Some (Some (bars, report)))
      /\ length bars = 4%nat
      /\ Prueba.sequential (PruebaApp.metrics a')
         = (Prueba.sequential (PruebaApp.metrics a) ++ [seq_time])%list
      /\ (forall r, PruebaApp.history r (PruebaApp.metrics a')
                    = PruebaApp.history r (PruebaApp.metrics a))
      /\ PruebaApp.processed_counter a' = PruebaApp.processed_counter a
      /\ PruebaApp.error_counter a' = PruebaApp.error_counter a
      /\ PruebaApp.processed_paths a' = PruebaApp.processed_paths a
      /\ (report <> None -> Prueba.parallel_process (PruebaApp.metrics a) <> []).
Proof.
  intros World Img I U m selected_filter a Hne.
  destruct (sequential1_run (Gallery.image_paths (PruebaApp.images a)) selected_filter
              (PruebaApp.output_folder a) m)
    as (results & seq_time & m' & Hrun & _).
  unfold PruebaApp.compare_strategies.
  destruct (Gallery.image_paths (PruebaApp.images a)) as [ | p ps] eqn:Hp; [done | ].
  set (m1 := {| Prueba.sequential :=
                  (Prueba.sequential (PruebaApp.metrics a) ++ [seq_time])%list;
                Prueba.parallel_process := Prueba.parallel_process (PruebaApp.metrics a);
                Prueba.parallel_thread := Prueba.parallel_thread (PruebaApp.metrics a);
                Prueba.actor_model := Prueba.actor_model (PruebaApp.metrics a) |}).
  pose proof (speedup_report_cases m1 (p :: ps)) as Hrep.
  assert (exists bars report,
             Prueba.update_comparison_chart m1 (p :: ps) = Some (bars, report)
             /\ length bars = 4%nat
             /\ (report <> None
                 -> Prueba.parallel_process (PruebaApp.metrics a) <> []))
    as (bars & report & Hchart & Hbars & Hwhen).
  { unfold Prueba.update_comparison_chart.
    pose proof (avg_time_defined (Prueba.sequential m1)).
    pose proof (avg_time_defined (Prueba.parallel_process m1)).
    pose proof (avg_time_defined (Prueba.parallel_thread m1)).
    pose proof (avg_time_defined (Prueba.actor_model m1)).
    destruct (Prueba.avg_time (Prueba.sequential m1)); [ | done].
    destruct (Prueba.avg_time (Prueba.parallel_process m1)); [ | done].
    destruct (Prueba.avg_time (Prueba.parallel_thread m1)); [ | done].
    destruct (Prueba.avg_time (Prueba.actor_model m1)); [ | done].
    rewrite Hrep.
    destruct (Prueba.sequential m1); [eexists _, _; split; [reflexivity | done] | ].
    change (Prueba.parallel_process m1)
      with (Prueba.parallel_process (PruebaApp.metrics a)).
    destruct (Prueba.parallel_process (PruebaApp.metrics a)) eqn:Hpp;
      [eexists _, _; split; [reflexivity | done] | ].
    repeat match goal with |- context [if ?c then _ else _] => destruct c end;
      eexists _, _; (split; [reflexivity | done]). }
  exists results, seq_time, m'. eexists. exists bars, report.
  split; [exact Hrun | ]. split.
  { fold m1. rewrite Hchart. reflexivity. }
  simpl. repeat split; try done.
Qed.

(** ** prueba2.py: one comparison, from the button to the summary *)

Module Prueba2AppFacts.
Import Prueba2 Prueba2App.

Lemma act_keeps (a : app) (e : action) :
  currently_processing (act a e) = currently_processing a
  /\ metrics (act a e) = metrics a
  /\ execution_times (act a e) = execution_times a
  /\ progress_value (act a e) = progress_value a
  /\ progress_maximum (act a e) = progress_maximum a.
Proof. destruct e as [[ | | ] | | | ]; done. Qed.

Lemma edits_keep (edits : list action) (a : app) :
  currently_processing (foldl act a edits) = currently_processing a
  /\ metrics (foldl act a edits) = metrics a
  /\ execution_times (foldl act a edits) = execution_times a
  /\ progress_value (foldl act a edits) = progress_value a
  /\ progress_maximum (foldl act a edits) = progress_maximum a.
Proof.
  revert a. induction edits as [ | e edits IH]; intros a; simpl; [done | ].
  destruct (IH (act a e)) as (-> & -> & -> & -> & ->). apply act_keeps.
Qed.

(** What [start_processing] has done when it starts the worker. *)
Lemma start_processing_started (a a1 : app) (selected_filter parallel_strategy : string) :
  start_processing a = (a1, Some (selected_filter, parallel_strategy)) ->
  Gallery.image_paths (images a) <> []
  /\ currently_processing a = false
  /\ selected_filter = filter_var a /\ parallel_strategy = strategy_var a
  /\ images a1 = images a /\ output_folder a1 = output_folder a
  /\ metrics a1 = metrics a
  /\ currently_processing a1 = true
  /\ sequential_results a1 = [] /\ parallel_results a1 = [] /\ all_results a1 = []
  /\ progress_value a1 = 0%Z
  /\ progress_maximum a1 = (len_Z (Gallery.image_paths (images a)) * 2)%Z.
Proof.
  unfold start_processing.
  destruct (Gallery.image_paths (images a)) as [ | p ps]; [done | ].
  destruct (currently_processing a); [done | ].
  intros Heq. inversion Heq; subst. repeat split; done.
Qed.

Lemma start_processing_refused (a a1 : app) :
  start_processing a = (a1, None) -> a1 = a.
Proof.
  unfold start_processing.
  destruct (Gallery.image_paths (images a)) as [ | p ps]; [by inversion 1 | ].
  destruct (currently_processing a); by inversion 1.
Qed.

Lemma parallel_phase_fields (parallel_strategy : string) (outcome : list result * Q)
    (a : app) :
  let a' := parallel_phase parallel_strategy outcome a in
  parallel_results a' = fst outcome
  /\ sequential_results a' = sequential_results a
  /\ all_results a' = (all_results a ++ fst outcome)%list
  /\ currently_processing a' = currently_processing a
  /\ progress_value a' = (progress_value a + len_Z (fst outcome))%Z
  /\ progress_maximum a' = progress_maximum a
  /\ images a' = images a
  /\ execution_times a'
     = {| Secuencial := Secuencial (execution_times a); Paralelo := snd outcome |}
  /\ history_Secuencial (metrics a') = history_Secuencial (metrics a)
  /\ history_Multihilo (metrics a) `prefix_of` history_Multihilo (metrics a')
  /\ history_Modelo_Actor (metrics a) `prefix_of` history_Modelo_Actor (metrics a').
Proof.
  destruct outcome as [results elapsed]. unfold parallel_phase.
  destruct (String.eqb parallel_strategy "multithread"); simpl;
    repeat split; try done; by apply prefix_app_r.
Qed.

(** *** The statements *)


Lemma exec_metrics (st : statement) (a : app) : metrics (exec st a) = metrics a.
Proof. by destruct st. Qed.

Lemma flag_after_cons (st : statement) (sts : list statement) (flag : bool) :
  flag_after (st :: sts) flag = flag_after sts (flag_after [st] flag).
Proof. done. Qed.

Lemma starts_cons (st : statement) (sts : list statement) :
  starts (st :: sts) = (length (spawned st) + starts sts)%nat.
Proof. by destruct st. Qed.


Lemma plain_statements (sts : list statement) :
  Forall plain sts -> starts sts = 0%nat /\ forall flag, flag_after sts flag = flag.
Proof.
  induction 1 as [ | st sts Hst _ [IH1 IH2]]; [done | ].
  rewrite starts_cons, IH1. split.
  - by destruct st.
  - intros flag. rewrite flag_after_cons, IH2. by destruct st.
Qed.

Lemma statements_plain (e : action) (a : app) : Forall plain (statements (Does e) a).
Proof.
  destruct e as [[paths | files | ] | folder | name | name]; simpl.
  - apply Forall_forall. by intros st (path & -> & _)%list_elem_of_fmap.
  - apply Forall_forall. by intros st (path & -> & _)%list_elem_of_fmap.
  - repeat constructor.
  - destruct (String.eqb folder ""); repeat constructor.
  - repeat constructor.
  - repeat constructor.
Qed.


(** *** The comparisons under way *)




(** *** The histories *)

Lemma histories_step (s s' : system) :
  step s s' ->
  history_Secuencial (metrics (gui s')) = history_Secuencial (metrics (gui s))
  /\ history_Multihilo (metrics (gui s)) `prefix_of` history_Multihilo (metrics (gui s'))
  /\ history_Modelo_Actor (metrics (gui s))
     `prefix_of` history_Modelo_Actor (metrics (gui s')).
Proof.
  intros Hstep.
  destruct Hstep; cbn [gui]; rewrite ?exec_metrics; try done.
  destruct (String.eqb p "multithread"); simpl; repeat split; try done;
    by apply prefix_app_r.
Qed.

(** *** Runs without interleaving

    A callback that nothing interrupts is the function of the same name
    above, and so is the bookkeeping of a worker. *)

Lemma run_callback (sts : list statement) :
  forall (a : app) (q : list scheduled) (ws : list worker),
    rtc step {| gui := a; running := sts; after_queue := q; workers := ws |}
      {| gui := foldl (fun a st => exec st a) a sts; running := [];
         after_queue := q; workers := (ws ++ flat_map spawned sts)%list |}.
Proof.
  induction sts as [ | st sts IH]; intros a q ws.
  - simpl. by rewrite app_nil_r.
  - eapply rtc_l.
    + exact (run_statement {| gui := a; running := st :: sts; after_queue := q;
                              workers := ws |} st sts eq_refl).
    + cbn [gui running after_queue workers foldl flat_map].
      rewrite (assoc_L (++)). apply IH.
Qed.

Lemma set_images_same (a : app) : set_images (images a) a = a.
Proof. by destruct a. Qed.

Lemma add_images (paths : list string) :
  forall a : app,
    foldl (fun a st => exec st a) a (map add_image paths)
    = set_images (Gallery.load_images paths (images a)) a.
Proof.
  unfold Gallery.load_images.
  induction paths as [ | path paths IH]; intros a; simpl; [by rewrite set_images_same | ].
  by rewrite IH.
Qed.

Lemma drop_event_filter (files : list string) :
  forall g : Gallery.state,
    Gallery.drop_event files g
    = Gallery.load_images
        (List.filter (fun file =>
                        PyStr.endswith_tuple Gallery.image_suffixes (PyStr.lower file))
           files) g.
Proof.
  unfold Gallery.drop_event, Gallery.load_images.
  induction files as [ | file files IH]; intros g; cbn [foldl List.filter]; [done | ].
  destruct (PyStr.endswith_tuple Gallery.image_suffixes (PyStr.lower file));
    cbn [foldl]; apply IH.
Qed.

Lemma statements_act (e : action) (a : app) :
  foldl (fun a st => exec st a) a (statements (Does e) a) = act a e.
Proof.
  destruct e as [[paths | files | ] | folder | name | name]; cbn [statements].
  - by rewrite add_images.
  - by rewrite add_images, <- drop_event_filter.
  - done.
  - simpl. destruct (String.eqb folder ""); [by destruct a | done].
  - done.
  - done.
Qed.

Lemma statements_start_processing (a a1 : app) (f p : string) :
  start_processing a = (a1, Some (f, p)) ->
  foldl (fun a st => exec st a) a (statements ClickStart a) = a1
  /\ flat_map spawned (statements ClickStart a) = [InSequential f p].
Proof.
  unfold start_processing, statements.
  destruct (Gallery.image_paths (images a)) as [ | path paths]; [done | ].
  destruct (currently_processing a); [done | ].
  intros Heq. inversion Heq; subst. by split.
Qed.

(** The queued [update_progress] callbacks, run one after the other. *)
Lemma run_update_progress (k : nat) :
  forall (a : app) (q : list scheduled) (ws : list worker),
    rtc step {| gui := a; running := [];
                after_queue := (replicate k UpdateProgress ++ q)%list; workers := ws |}
      {| gui := set_progress_value (progress_value a + Z.of_nat k) a; running := [];
         after_queue := q; workers := ws |}.
Proof.
  induction k as [ | k IH]; intros a q ws.
  - cbn [replicate Datatypes.app]. replace (set_progress_value _ a) with a; [done | ].
    destruct a; unfold set_progress_value; simpl; f_equal; lia.
  - eapply rtc_l.
    { exact (callback {| gui := a; running := [];
                         after_queue := (replicate (S k) UpdateProgress ++ q)%list;
                         workers := ws |} [] UpdateProgress (replicate k UpdateProgress ++ q)
               eq_refl eq_refl). }
    eapply rtc_l.
    { exact (run_statement {| gui := a; running := body UpdateProgress;
                              after_queue := ([] ++ replicate k UpdateProgress ++ q)%list;
                              workers := ws |} increment_progress [] eq_refl). }
    cbn [gui running after_queue workers exec spawned Datatypes.app].
    rewrite app_nil_r.
    replace (set_progress_value (progress_value a + Z.of_nat (S k)) a)
      with (set_progress_value
              (progress_value (set_progress_value (progress_value a + 1) a) + Z.of_nat k)
              (set_progress_value (progress_value a + 1) a)); [apply IH | ].
    destruct a; unfold set_progress_value; simpl; f_equal; lia.
Qed.

(** The loops of lines 553 and 576 over a list that nothing empties
    meanwhile. *)
Lemma run_line_553 (f p : string) (k : nat) :
  forall (a : app) (q : list scheduled) (index : nat),
    length (sequential_results a) = (index + k)%nat ->
    rtc step {| gui := a; running := []; after_queue := q;
                workers := [At553 f p shared index] |}
      {| gui := a; running := [];
         after_queue := (q ++ replicate k UpdateProgress)%list;
         workers := [InParallel f p] |}.
Proof.
  induction k as [ | k IH]; intros a q index Hlen.
  - simpl. rewrite app_nil_r. apply rtc_once.
    refine (line_556 {| gui := a; running := []; after_queue := q;
                        workers := [At553 f p shared index] |} [] f p shared index []
              eq_refl _).
    simpl. lia.
  - eapply rtc_l.
    { refine (line_554 {| gui := a; running := []; after_queue := q;
                          workers := [At553 f p shared index] |} [] f p shared index []
                eq_refl _).
      simpl. lia. }
    cbn [gui running after_queue workers Datatypes.app].
    replace (q ++ replicate (S k) UpdateProgress)%list
      with ((q ++ [UpdateProgress]) ++ replicate k UpdateProgress)%list
      by (by rewrite <- (assoc_L (++))).
    apply IH. lia.
Qed.

Lemma run_line_576 (p : string) (k : nat) :
  forall (a : app) (q : list scheduled) (index : nat),
    length (parallel_results a) = (index + k)%nat ->
    rtc step {| gui := a; running := []; after_queue := q;
                workers := [At576 p shared index] |}
      {| gui := a; running := [];
         after_queue := (q ++ replicate k UpdateProgress)%list;
         workers := [At583 p] |}.
Proof.
  induction k as [ | k IH]; intros a q index Hlen.
  - simpl. rewrite app_nil_r. apply rtc_once.
    refine (line_579 {| gui := a; running := []; after_queue := q;
                        workers := [At576 p shared index] |} [] p shared index []
              eq_refl _).
    simpl. lia.
  - eapply rtc_l.
    { refine (line_577 {| gui := a; running := []; after_queue := q;
                          workers := [At576 p shared index] |} [] p shared index []
                eq_refl _).
      simpl. lia. }
    cbn [gui running after_queue workers Datatypes.app].
    replace (q ++ replicate (S k) UpdateProgress)%list
      with ((q ++ [UpdateProgress]) ++ replicate k UpdateProgress)%list
      by (by rewrite <- (assoc_L (++))).
    apply IH. lia.
Qed.

(** Lines 548 to 554 and the callbacks they queue, with nothing in
    between: [sequential_phase]. *)
Lemma run_sequential_phase (f p : string) (results : list result) (elapsed : Q) (a : app) :
  rtc step {| gui := a; running := []; after_queue := [];
              workers := [At548 f p results elapsed] |}
    {| gui := sequential_phase (results, elapsed) a; running := []; after_queue := [];
       workers := [InParallel f p] |}.
Proof.
  eapply rtc_l.
  { exact (line_548 {| gui := a; running := []; after_queue := [];
                       workers := [At548 f p results elapsed] |} [] f p results elapsed []
             eq_refl). }
  eapply rtc_l.
  { exact (line_549 {| gui := set_sequential_results results a; running := [];
                       after_queue := [];
                       workers := [At549 f p shared elapsed] |} [] f p shared elapsed []
             eq_refl). }
  eapply rtc_l.
  { exact (line_550 {| gui := set_execution_times
                                {| Secuencial := elapsed;
                                   Paralelo := Paralelo (execution_times a) |}
                                (set_sequential_results results a);
                       running := []; after_queue := [];
                       workers := [At550 f p shared] |} [] f p shared [] eq_refl). }
  cbn [gui running after_queue workers Datatypes.app read].
  etransitivity; [apply (run_line_553 f p (length results)); reflexivity | ].
  cbn [Datatypes.app].
  rewrite <- (app_nil_r (replicate (length results) UpdateProgress)).
  etransitivity; [apply run_update_progress | ].
  replace (set_progress_value _ _) with (sequential_phase (results, elapsed) a); [done | ].
  by destruct a.
Qed.

(** The append of line 612 or 624, lines 571 to 583 and the callbacks
    they queue, with nothing in between: [parallel_phase], then
    [finish_processing]. *)
Lemma run_parallel_phase (p : string) (results : list result) (elapsed : Q) (a : app) :
  rtc step {| gui := a; running := []; after_queue := [];
              workers := [AtAppend p results elapsed] |}
    {| gui := finish_processing (parallel_phase p (results, elapsed) a); running := [];
       after_queue := []; workers := [] |}.
Proof.
  eapply rtc_l.
  { exact (append_metric {| gui := a; running := []; after_queue := [];
                            workers := [AtAppend p results elapsed] |} [] p results elapsed []
             eq_refl). }
  cbn [gui running after_queue workers Datatypes.app].
  set (a1 := snd ((if String.eqb p "multithread" then run_multithread_version
                   else run_actor_version) (results, elapsed) a)).
  eapply rtc_l.
  { exact (line_571 {| gui := a1; running := []; after_queue := [];
                       workers := [At571 p results elapsed] |} [] p results elapsed []
             eq_refl). }
  eapply rtc_l.
  { exact (line_572 {| gui := set_parallel_results results a1; running := [];
                       after_queue := [];
                       workers := [At572 p shared elapsed] |} [] p shared elapsed []
             eq_refl). }
  eapply rtc_l.
  { exact (line_573 {| gui := set_execution_times
                                {| Secuencial := Secuencial (execution_times a1);
                                   Paralelo := elapsed |}
                                (set_parallel_results results a1);
                       running := []; after_queue := [];
                       workers := [At573 p shared] |} [] p shared [] eq_refl). }
  cbn [gui running after_queue workers Datatypes.app read].
  etransitivity; [apply (run_line_576 p (length results)); reflexivity | ].
  cbn [Datatypes.app].
  eapply rtc_l.
  { match goal with
    | |- step ?s _ => exact (line_583 s [] p [] eq_refl)
    end. }
  cbn [gui running after_queue workers Datatypes.app].
  etransitivity; [apply run_update_progress | ].
  eapply rtc_l.
  { match goal with
    | |- step ?s _ => exact (callback s [] (FinishProcessing p) [] eq_refl eq_refl)
    end. }
  eapply rtc_l.
  { match goal with
    | |- step ?s _ => exact (run_statement s lower_flag [] eq_refl)
    end. }
  cbn [gui running after_queue workers Datatypes.app exec spawned body].
  replace (set_currently_processing false _)
    with (finish_processing (parallel_phase p (results, elapsed) a)); [done | ].
  unfold a1, parallel_phase.
  destruct (String.eqb p "multithread"); by destruct a.
Qed.


(** A whole comparison with nothing in between but what the user does
    to the list, the folder and the choices while the worker pauses:
    the functions above, one after the other. *)
Lemma run_edits (edits : list action) :
  forall (a : app) (ws : list worker),
    rtc step {| gui := a; running := []; after_queue := []; workers := ws |}
      {| gui := foldl act a edits; running := []; after_queue := []; workers := ws |}.
Proof.
  induction edits as [ | e edits IH]; intros a ws; [done | ].
  eapply rtc_l.
  { exact (event {| gui := a; running := []; after_queue := []; workers := ws |}
             (Does e) eq_refl). }
  cbn [gui running after_queue workers].
  etransitivity; [apply run_callback | ].
  destruct (plain_statements _ (statements_plain e a)) as [Hnone _].
  assert (flat_map spawned (statements (Does e) a) = []) as ->.
  { clear Hnone. pose proof (statements_plain e a) as Hplain.
    induction Hplain as [ | st sts Hst _ IHsts]; [done | ].
    cbn [flat_map]. rewrite IHsts. by destruct st. }
  rewrite app_nil_r, statements_act. apply IH.
Qed.

Lemma run_comparison (a a1 : app) (f p : string) (seq par : list result)
    (elapsed_seq elapsed_par : Q) (edits : list action) :
  start_processing a = (a1, Some (f, p)) ->
  rtc step {| gui := a; running := []; after_queue := []; workers := [] |}
    {| gui := finish_processing
                (parallel_phase p (par, elapsed_par)
                   (foldl act (sequential_phase (seq, elapsed_seq) a1) edits));
       running := []; after_queue := []; workers := [] |}.
Proof.
  intros Hstart.
  destruct (statements_start_processing _ _ _ _ Hstart) as [Hrun Hspawn].
  eapply rtc_l.
  { exact (event {| gui := a; running := []; after_queue := []; workers := [] |}
             ClickStart eq_refl). }
  cbn [gui running after_queue workers].
  etransitivity; [apply run_callback | ].
  rewrite Hrun, Hspawn. cbn [Datatypes.app].
  eapply rtc_l.
  { exact (sequential_returns {| gui := a1; running := []; after_queue := [];
                                 workers := [InSequential f p] |} [] f p [] seq elapsed_seq
             eq_refl). }
  cbn [gui running after_queue workers Datatypes.app].
  etransitivity; [apply run_sequential_phase | ].
  etransitivity; [apply (run_edits edits) | ].
  eapply rtc_l.
  { match goal with
    | |- step ?s _ => exact (parallel_returns s [] f p [] par elapsed_par eq_refl)
    end. }
  cbn [gui running after_queue workers Datatypes.app].
  apply run_parallel_phase.
Qed.

End Prueba2AppFacts.

(** X14. One comparison of prueba2.py, the list, folder and choices being
    edited at will while the worker pauses between the two phases: when
    [finish_processing] has run the flag is down, the two times are those
    measured, and the progress bar, whose maximum was set at the start to
    twice the number of images then loaded, stands at that number plus
    the number of images loaded when the parallel phase started.  With no
    edit in between the bar is full, [all_results] holds the sequential
    results, in the order of the list, followed by the parallel ones, one
    per image each. *)
Theorem comparison_progress_counts_both_phases :
  forall (World Img : Type) (I : Imaging World Img)
         (m m1 m2 : machine (World:=World) (Img:=Img))
         (a a1 : Prueba2App.app) (selected_filter parallel_strategy : string)
         (seq : list Prueba2.result) (elapsed_seq : Q)
         (edits : list Prueba2App.action)
         (par : list Prueba2.result) (elapsed_par : Q),
    Prueba2App.start_processing a = (a1, Some (selected_filter, parallel_strategy)) ->
    run (Prueba2.process_image_sequential (Gallery.image_paths (Prueba2App.images a1))
           selected_filter (Prueba2App.output_folder a1)) m
    = (Returned (seq, elapsed_seq), m1) ->
    let a2 := foldl Prueba2App.act
                (Prueba2App.sequential_phase (seq, elapsed_seq) a1) edits in
    Prueba2App.parallel_outcome parallel_strategy selected_filter a2 m2 par ->
    let a3 := Prueba2App.finish_processing
                (Prueba2App.parallel_phase parallel_strategy (par, elapsed_par) a2) in
    Prueba2App.currently_processing a3 = false
    /\ Prueba2App.execution_times a3
       = {| Prueba2App.Secuencial := elapsed_seq; Prueba2App.Paralelo := elapsed_par |}
    /\ Prueba2App.progress_maximum a3
       = (2 * len_Z (Gallery.image_paths (Prueba2App.images a)))%Z
    /\ Prueba2App.progress_value a3
       = (len_Z (Gallery.image_paths (Prueba2App.images a))
          + len_Z (Gallery.image_paths (Prueba2App.images a2)))%Z
    /\ (edits = [] ->
        Prueba2App.progress_value a3 = Prueba2App.progress_maximum a3
        /\ Prueba2App.all_results a3 = (seq ++ par)%list
        /\ map Prueba2.original seq = Gallery.image_paths (Prueba2App.images a)
        /\ map Prueba2.original par ≡ₚ Gallery.image_paths (Prueba2App.images a)).
Proof.
  intros World Img I m m1 m2 a a1 selected_filter parallel_strategy seq elapsed_seq
    edits par elapsed_par Hstart Hrun a2 Hpar a3.
  destruct (Prueba2AppFacts.start_processing_started _ _ _ _ Hstart)
    as (Hne & _ & _ & _ & Himg & Hout & _ & _ & Hs1 & Hp1 & Ha1 & Hv1 & Hmax1).
  (* the sequential phase *)
  destruct (sequential2_run (Gallery.image_paths (Prueba2App.images a1)) selected_filter
              (Prueba2App.output_folder a1) m)
    as (seq' & elapsed' & m1' & Hrun' & Hseq).
  rewrite Hrun in Hrun'. inversion Hrun'; subst seq' elapsed' m1'. clear Hrun'.
  rewrite Himg in Hseq.
  assert (len_Z seq = len_Z (Gallery.image_paths (Prueba2App.images a))) as Hlseq
    by (unfold len_Z; by rewrite <- Hseq, length_map).
  (* the parallel phase *)
  assert (map Prueba2.original par ≡ₚ Gallery.image_paths (Prueba2App.images a2)) as Hperm.
  { unfold Prueba2App.parallel_outcome in Hpar.
    destruct (String.eqb parallel_strategy "multithread").
    - destruct Hpar as (k & s & Hk & Hret & <-).
      destruct (ThreadPoolFacts.pool_invariant_nsteps _ _ _ _ _ _ Hk []
                  (ThreadPoolFacts.pool_invariant_init m2 _ selected_filter _))
        as (notes & Hinv & _).
      by destruct (ThreadPoolFacts.pool_invariant_returns _ _ _ _ Hinv Hret).
    - destruct Hpar as (k & s & Hk & Hret & <-).
      destruct (ActorPoolFacts.actors_invariant_nsteps
                  Prueba2.actor_task Prueba2.process_image Prueba2.source_path
                  Prueba2.original
                  ltac:(done) process_image2_gate_free process_image2_within
                  _ _ _ _ _ _ _ Hk _
                  (ActorPoolFacts.actors_invariant_init _ _ m2
                     (Gallery.image_paths (Prueba2App.images a2)) 4))
        as (notes & Hinv & _).
      by destruct (ActorPoolFacts.actors_invariant_returns _ _ _ _ _ _ Hinv Hret). }
  assert (len_Z par = len_Z (Gallery.image_paths (Prueba2App.images a2))) as Hlpar.
  { unfold len_Z. apply Permutation_length in Hperm. rewrite length_map in Hperm.
    by rewrite Hperm. }
  destruct (Prueba2AppFacts.edits_keep edits
              (Prueba2App.sequential_phase (seq, elapsed_seq) a1))
    as (Hc2 & _ & Ht2 & Hv2 & Hmax2).
  fold a2 in Hc2, Ht2, Hv2, Hmax2.
  destruct (Prueba2AppFacts.parallel_phase_fields parallel_strategy (par, elapsed_par) a2)
    as (Hp3 & Hs3 & Ha3 & _ & Hv3 & Hmax3 & _ & Ht3 & _).
  simpl in Hp3, Ha3, Hv3, Ht3.
  split; [done | ]. split.
  { change (Prueba2App.execution_times a3)
      with (Prueba2App.execution_times
              (Prueba2App.parallel_phase parallel_strategy (par, elapsed_par) a2)).
    by rewrite Ht3, Ht2. }
  split.
  { change (Prueba2App.progress_maximum a3)
      with (Prueba2App.progress_maximum
              (Prueba2App.parallel_phase parallel_strategy (par, elapsed_par) a2)).
    rewrite Hmax3, Hmax2. simpl. rewrite Hmax1. lia. }
  assert (Prueba2App.progress_value a3
          = (len_Z (Gallery.image_paths (Prueba2App.images a))
             + len_Z (Gallery.image_paths (Prueba2App.images a2)))%Z) as Hvalue.
  { change (Prueba2App.progress_value a3)
      with (Prueba2App.progress_value
              (Prueba2App.parallel_phase parallel_strategy (par, elapsed_par) a2)).
    rewrite Hv3, Hv2. simpl. rewrite Hv1. lia. }
  split; [exact Hvalue | ].
  intros ->. simpl in a2.
  assert (Gallery.image_paths (Prueba2App.images a2)
          = Gallery.image_paths (Prueba2App.images a)) as Hsame
    by (unfold a2; simpl; by rewrite Himg).
  split; [ | split; [ | split]].
  - rewrite Hvalue, Hsame.
    change (Prueba2App.progress_maximum a3)
      with (Prueba2App.progress_maximum
              (Prueba2App.parallel_phase parallel_strategy (par, elapsed_par) a2)).
    rewrite Hmax3. unfold a2. simpl. rewrite Hmax1. lia.
  - change (Prueba2App.all_results a3)
      with (Prueba2App.all_results
              (Prueba2App.parallel_phase parallel_strategy (par, elapsed_par) a2)).
    rewrite Ha3. unfold a2. simpl. by rewrite Ha1.
  - exact Hseq.
  - by rewrite <- Hsame.
Qed.


(** X17. No run ever adds a sample to the history [metrics["Secuencial"]]:
    it is empty in every state the application can reach, while the
    histories of the two parallel strategies only grow. *)
Theorem sequential_history_is_never_written :
  forall (cwd : string) (s s' : Prueba2App.system),
    rtc Prueba2App.step (Prueba2App.booted cwd) s ->
    rtc Prueba2App.step s s' ->
    Prueba2App.history_Secuencial (Prueba2App.metrics (Prueba2App.gui s')) = []
    /\ Prueba2App.history_Multihilo (Prueba2App.metrics (Prueba2App.gui s))
       `prefix_of` Prueba2App.history_Multihilo (Prueba2App.metrics (Prueba2App.gui s'))
    /\ Prueba2App.history_Modelo_Actor (Prueba2App.metrics (Prueba2App.gui s))
       `prefix_of`
       Prueba2App.history_Modelo_Actor (Prueba2App.metrics (Prueba2App.gui s')).
Proof.
  intros cwd s s' Hr Hr'. split.
  - assert (rtc Prueba2App.step (Prueba2App.booted cwd) s') as Hboth
      by (etransitivity; eauto).
    clear Hr Hr'.
    eapply (rtc_ind_r
              (fun s => Prueba2App.history_Secuencial
                          (Prueba2App.metrics (Prueba2App.gui s)) = []));
      [ | | exact Hboth]; [done | ].
    intros s1 s2 _ Hs Hempty.
    destruct (Prueba2AppFacts.histories_step _ _ Hs) as (-> & _). exact Hempty.
  - clear Hr. induction Hr' as [s | s1 s2 s3 Hs _ IH]; [done | ].
    destruct (Prueba2AppFacts.histories_step _ _ Hs) as (_ & H1 & H2).
    destruct IH as [H3 H4]. split; etransitivity; eauto.
Qed.

(** X16. The four places of prueba2.py that show the speedup of a
    comparison.  With a positive parallel time the labels
    ([update_metrics]), the logged summary ([finish_processing]), the
    chart ([update_comparison_chart]) and the final message box all show
    [Secuencial / Paralelo], and the first three the efficiency
    [speedup / 4 * 100].  With a parallel time that is not positive the
    first three show neither figure and do not fail; the message box,
    which divides without the test, fails with [ZeroDivisionError]
    exactly when the parallel time is zero.  The tick label of the chart
    follows the radio buttons, not the strategy the chart is called
    with. *)
Theorem speedup_displays_agree :
  forall (a : Prueba2App.app) (parallel_strategy_name : string),
    let t := Prueba2App.execution_times a in
    let speedup := (Prueba2App.Secuencial t / Prueba2App.Paralelo t)%Q in
    let efficiency := (speedup / 4 * 100)%Q in
    ((0 < Prueba2App.Paralelo t)%Q ->
       (exists l, Prueba2.update_metrics (Prueba2App.Secuencial t) (Prueba2App.Paralelo t)
                  = Some l
                  /\ Prueba2.lbl_speedup l = Some speedup
                  /\ Prueba2.lbl_eficiencia l = Some efficiency)
       /\ Prueba2App.summary t = Some (Some (speedup, efficiency))
       /\ (exists bars ticks,
              Prueba2App.update_comparison_chart parallel_strategy_name a
              = Some (bars, ticks, Some (speedup, efficiency)))
       /\ Prueba2App.final_message t = Some speedup)
    /\ ((Prueba2App.Paralelo t <= 0)%Q ->
          (exists l, Prueba2.update_metrics (Prueba2App.Secuencial t)
                       (Prueba2App.Paralelo t) = Some l
                     /\ Prueba2.lbl_speedup l = None
                     /\ Prueba2.lbl_eficiencia l = None)
          /\ Prueba2App.summary t = Some None
          /\ (exists bars ticks,
                 Prueba2App.update_comparison_chart parallel_strategy_name a
                 = Some (bars, ticks, None)))
    /\ (Prueba2App.final_message t = None <-> (Prueba2App.Paralelo t == 0)%Q)
    /\ (forall bars ticks figures,
          Prueba2App.update_comparison_chart parallel_strategy_name a
          = Some (bars, ticks, figures) ->
          bars = [Prueba2App.Secuencial t; Prueba2App.Paralelo t]
          /\ ticks = ["Secuencial";
                      Prueba2App.strategy_label (Prueba2App.strategy_var a)]).
Proof.
  intros a parallel_strategy_name t speedup efficiency.
  pose proof (update_metrics_cases (Prueba2App.Secuencial t) (Prueba2App.Paralelo t)) as Hl.
  unfold Prueba2App.summary, Prueba2App.update_comparison_chart, Prueba2App.final_message.
  fold t. split; [ | split; [ | split]].
  - intros Hpos.
    destruct (Qlt_le_dec 0 (Prueba2App.Paralelo t)) as [Hp | Hp];
      [ | exfalso; exact (Qlt_irrefl _ (Qlt_le_trans _ _ _ Hpos Hp))].
    rewrite (py_div_nonzero _ _ (positive_nonzero _ Hp)).
    rewrite (py_div_nonzero _ 4 ltac:(discriminate)).
    split; [eexists; split; [exact Hl | split; reflexivity] | ].
    split; [reflexivity | ]. split; [by eexists _, _ | reflexivity].
  - intros Hneg.
    destruct (Qlt_le_dec 0 (Prueba2App.Paralelo t)) as [Hp | Hp];
      [exfalso; exact (Qlt_irrefl _ (Qlt_le_trans _ _ _ Hp Hneg)) | ].
    split; [eexists; split; [exact Hl | split; reflexivity] | ].
    split; [reflexivity | by eexists _, _].
  - unfold PyFloat.py_div.
    destruct (Qeq_bool (Prueba2App.Paralelo t) 0) eqn:E.
    + apply Qeq_bool_eq in E. done.
    + split; [done | ]. intros Hz. apply Qeq_eq_bool in Hz. congruence.
  - intros bars ticks figures.
    destruct (Qlt_le_dec 0 (Prueba2App.Paralelo t)) as [Hp | Hp].
    + rewrite (py_div_nonzero _ _ (positive_nonzero _ Hp)).
      rewrite (py_div_nonzero _ 4 ltac:(discriminate)).
      intros Heq. by inversion Heq.
    + intros Heq. by inversion Heq.
Qed.

(** ** The files a call touches *)

Section FilesFacts.
Context {World Img : Type} `{Imaging World Img}.

Lemma handle_logged {X} (ev : event Img X) (m m' : machine) (ans : answer X) :
  handle ev m = Some (ans, m') -> calls m' = (calls m ++ [Did ev])%list.
Proof.
  destruct ev; simpl; intros Hh;
    repeat match goal with
           | H : context [let '(_, _) := ?o in _] |- _ => destruct o
           end;
    try (inversion Hh; subst; reflexivity).
  destruct (0 <? semaphore_value m)%Z; inversion Hh; subst; reflexivity.
Qed.

Lemma touches_entry (source target : string) {X} (ev : event Img X) :
  touches source target ev ->
  Forall (eq source) (opens [Did ev])
  /\ Forall (eq target) (saves [Did ev])
  /\ length (saves [Did ev]) = (if is_save ev then 1 else 0)%nat.
Proof.
  destruct ev; simpl; intros Ht; subst; repeat split; try done;
    by repeat constructor.
Qed.

Lemma within_run {A} (p : prog Img A) :
  forall (n : nat) (m : machine),
    within n p ->
    exists new, calls (snd (run p m)) = (calls m ++ new)%list /\ (length new <= n)%nat.
Proof.
  induction p as [a | e | X ev k IH]; intros n m Hw; simpl.
  - exists []. by rewrite app_nil_r; split; [ | simpl; lia].
  - exists []. by rewrite app_nil_r; split; [ | simpl; lia].
  - destruct n as [ | n]; [done | ]. simpl in Hw.
    destruct (handle ev m) as [[ans m'] | ] eqn:Hh.
    + destruct (IH ans n m' (Hw ans)) as (new & Hnew & Hlen).
      exists (Did ev :: new). rewrite Hnew, (handle_logged _ _ _ _ Hh).
      rewrite <- app_assoc. split; [done | simpl; lia].
    + exists []. rewrite app_nil_r. split; [done | simpl; lia].
Qed.

(** A run of a confined program opens its source only, saves to its
    target only and within its budget, and returns a value that reports
    success only if a save has come back. *)
Lemma confined_run {A} (source target : string) (ok : A -> Prop) (p : prog Img A) :
  forall (budget : nat) (done : bool) (m : machine),
    confined source target ok budget done p ->
    exists new,
      calls (snd (run p m)) = (calls m ++ new)%list
      /\ Forall (eq source) (opens new)
      /\ Forall (eq target) (saves new)
      /\ (length (saves new) <= budget)%nat
      /\ forall a, fst (run p m) = Returned a -> ok a -> done = true \/ saves new <> [].
Proof.
  induction p as [a | e | X ev k IH]; intros budget done m Hc; simpl.
  - exists []. rewrite app_nil_r.
    split; [done | ]. split; [by constructor | ]. split; [by constructor | ].
    split; [simpl; lia | ].
    intros a' Ha Hok. inversion Ha; subst. left. by apply Hc.
  - exists []. rewrite app_nil_r.
    split; [done | ]. split; [by constructor | ]. split; [by constructor | ].
    split; [simpl; lia | ].
    intros a' Ha. inversion Ha.
  - destruct Hc as (Ht & Hb & Hk).
    destruct (touches_entry _ _ _ Ht) as (Ho & Hs & Hl).
    destruct (handle ev m) as [[ans m'] | ] eqn:Hh.
    + destruct (IH ans _ _ m' (Hk ans)) as (new & Hnew & Hon & Hsn & Hln & Hret).
      exists (Did ev :: new). rewrite Hnew, (handle_logged _ _ _ _ Hh).
      rewrite <- app_assoc.
      change (opens (Did ev :: new)) with (opens ([Did ev] ++ new)).
      change (saves (Did ev :: new)) with (saves ([Did ev] ++ new)).
      unfold opens, saves in *. rewrite !omap_app, !Forall_app, length_app.
      split; [done | ]. split; [done | ]. split; [done | ]. split.
      * rewrite Hl. destruct (is_save ev); [ | simpl; lia].
        specialize (Hb eq_refl). simpl in Hln. lia.
      * intros a Ha Hok. destruct (Hret a Ha Hok) as [Hd | Hne].
        -- apply orb_true_iff in Hd as [-> | [Hsave _]%andb_true_iff]; [by left | ].
           right. rewrite Hsave in Hl.
           intros [Hnil _]%app_eq_nil. by rewrite Hnil in Hl.
        -- right. intros [_ Hnil]%app_eq_nil. done.
    + exists []. rewrite app_nil_r.
      split; [done | ]. split; [by constructor | ]. split; [by constructor | ].
      split; [simpl; lia | ].
      intros a Ha. inversion Ha.
Qed.

End FilesFacts.

(** One step of the walk down the tree of [process_image], for the files
    it names. *)
Ltac confine :=
  repeat first
    [ done
    | progress simpl
    | match goal with
      | |- forall _ : answer _, _ => intros [? | ?]
      | |- context [String.eqb ?a ?b] => destruct (String.eqb a b)
      | |- context [OsPath.splitext ?p] => destruct (OsPath.splitext p)
      | |- _ /\ _ => split
      end ].

Section ProcessImageFiles.
Context {Img : Type}.
Context {U : PyStr.Unicode}.

Lemma process_image2_confined (image_path selected_filter output_folder method : string) :
  confined (Img:=Img) image_path (output_path2 image_path output_folder method)
    (fun r => Prueba2.status r = "OK") 1 false
    (Prueba2.process_image (image_path, selected_filter, output_folder, method)).
Proof. unfold Prueba2.process_image, output_path2. confine. Qed.

Lemma process_image1_confined (image_path selected_filter output_folder : string) :
  confined (Img:=Img) image_path (output_path1 image_path selected_filter output_folder)
    (fun r => Prueba.status r = "OK") 1 false
    (Prueba.process_image (image_path, selected_filter, output_folder)).
Proof. unfold Prueba.process_image, output_path1. confine. Qed.

End ProcessImageFiles.

(** X1. A call of [process_image], whatever the collaborators answer:
    it returns after at most five calls to them; the only file it opens
    is the image of its task, the only file it saves to is the output
    path derived from the task, at most once; and it reports OK only
    if that save was made. *)
Theorem process_image_touches_its_two_files :
  forall (World Img : Type) (I : Imaging World Img) (U : PyStr.Unicode)
         (image_path selected_filter output_folder method : string)
         (m : machine (World:=World) (Img:=Img)),
    (exists (r : Prueba2.result) (m' : machine) (new : list (entry Img)),
        run (Prueba2.process_image (image_path, selected_filter, output_folder, method)) m
        = (Returned r, m')
        /\ calls m' = (calls m ++ new)%list
        /\ (length new <= 5)%nat
        /\ Forall (eq image_path) (opens new)
        /\ Forall (eq (output_path2 image_path output_folder method)) (saves new)
        /\ (length (saves new) <= 1)%nat
        /\ (Prueba2.status r = "OK"
            -> saves new = [output_path2 image_path output_folder method]))
    /\ (exists (r : Prueba.result) (m' : machine) (new : list (entry Img)),
          run (Prueba.process_image (image_path, selected_filter, output_folder)) m
          = (Returned r, m')
          /\ calls m' = (calls m ++ new)%list
          /\ (length new <= 5)%nat
          /\ Forall (eq image_path) (opens new)
          /\ Forall (eq (output_path1 image_path selected_filter output_folder))
               (saves new)
          /\ (length (saves new) <= 1)%nat
          /\ (Prueba.status r = "OK"
              -> saves new = [output_path1 image_path selected_filter output_folder])).
Proof.
  intros World Img I U image_path selected_filter output_folder method m. split.
  - destruct (process_image2_returns image_path selected_filter output_folder method m)
      as (r & m' & Hrun & _).
    destruct (confined_run _ _ _ _ _ _ m
                (process_image2_confined (Img:=Img) image_path selected_filter
                   output_folder method))
      as (new & Hnew & Ho & Hs & Hl & Hok).
    destruct (within_run _ 5 m
                (process_image2_within (Img:=Img)
                   (image_path, selected_filter, output_folder, method)))
      as (new' & Hnew' & Hl').
    rewrite Hrun in Hnew, Hnew', Hok. simpl in Hnew, Hnew', Hok.
    assert (new' = new) as -> by (rewrite Hnew in Hnew'; by apply app_inv_head in Hnew').
    exists r, m', new. repeat split; try done.
    intros Hstatus. destruct (Hok r eq_refl Hstatus) as [? | Hne]; [done | ].
    destruct (saves new) as [ | p [ | q l]]; [done | | simpl in Hl; lia].
    by inversion Hs; subst.
  - destruct (process_image1_returns image_path selected_filter output_folder m)
      as (r & m' & Hrun & _).
    destruct (confined_run _ _ _ _ _ _ m
                (process_image1_confined (Img:=Img) image_path selected_filter
                   output_folder))
      as (new & Hnew & Ho & Hs & Hl & Hok).
    destruct (within_run _ 5 m
                (process_image1_within (Img:=Img)
                   (image_path, selected_filter, output_folder)))
      as (new' & Hnew' & Hl').
    rewrite Hrun in Hnew, Hnew', Hok. simpl in Hnew, Hnew', Hok.
    assert (new' = new) as -> by (rewrite Hnew in Hnew'; by apply app_inv_head in Hnew').
    exists r, m', new. repeat split; try done.
    intros Hstatus. destruct (Hok r eq_refl Hstatus) as [? | Hne]; [done | ].
    destruct (saves new) as [ | p [ | q l]]; [done | | simpl in Hl; lia].
    by inversion Hs; subst.
Qed.

(** ** Which output files coincide *)

Lemma join_relative_inj (dir file1 file2 : string) :
  PyStr.startswith OsPath.sep file1 = false ->
  PyStr.startswith OsPath.sep file2 = false ->
  OsPath.join dir file1 = OsPath.join dir file2 -> file1 = file2.
Proof.
  unfold OsPath.join. intros -> ->.
  destruct (String.eqb dir "" || PyStr.endswith OsPath.sep dir)%bool.
  - apply str_app_inv_head.
  - intros Heq. apply str_app_inv_head in Heq. by apply (str_app_inv_head "/") in Heq.
Qed.

Lemma output_path2_method_inj (image_path output_folder method1 method2 : string) :
  output_path2 image_path output_folder method1
  = output_path2 image_path output_folder method2 ->
  method1 = method2.
Proof.
  unfold output_path2.
  pose proof (output_filename_relative image_path method1) as H1.
  pose proof (output_filename_relative image_path method2) as H2.
  destruct (OsPath.splitext (OsPath.basename image_path)) as [name ext].
  intros Heq. apply join_relative_inj in Heq; [ | done | done].
  apply str_app_inv_head in Heq. apply (str_app_inv_head "_") in Heq.
  by apply str_app_inv_tail in Heq.
Qed.

(** X2. Which runs of [process_image] (prueba2.py) write the same file.
    Two calls that succeed on images with the same base name, for the
    same folder and method, report the same output path, whatever the
    folders the images come from: both have saved to that one file.
    Two calls that succeed on the same image with different
    method tags report different paths: the parallel phase of a comparison
    never saves over the output of the sequential phase. *)
Theorem output_files_coincide_by_base_name :
  forall (World Img : Type) (I : Imaging World Img)
         (image_path1 image_path2 filter1 filter2 output_folder method1 method2 : string)
         (m1 m1' m2 m2' : machine (World:=World) (Img:=Img)) (r1 r2 : Prueba2.result),
    run (Prueba2.process_image (image_path1, filter1, output_folder, method1)) m1
    = (Returned r1, m1') ->
    run (Prueba2.process_image (image_path2, filter2, output_folder, method2)) m2
    = (Returned r2, m2') ->
    Prueba2.status r1 = "OK" -> Prueba2.status r2 = "OK" ->
    (OsPath.basename image_path1 = OsPath.basename image_path2 -> method1 = method2 ->
     Prueba2.output r1 = Prueba2.output r2)
    /\ (image_path1 = image_path2 -> method1 <> method2 ->
        Prueba2.output r1 <> Prueba2.output r2).
Proof.
  intros World Img I image_path1 image_path2 filter1 filter2 output_folder method1 method2
    m1 m1' m2 m2' r1 r2 Hrun1 Hrun2 Hok1 Hok2.
  rewrite (process_image2_ok _ _ _ _ _ _ _ Hrun1 Hok1).
  rewrite (process_image2_ok _ _ _ _ _ _ _ Hrun2 Hok2).
  split.
  - intros Hbase ->. unfold output_path2. by rewrite Hbase.
  - intros -> Hne Heq. inversion Heq as [Hpath].
    by apply output_path2_method_inj in Hpath.
Qed.

(** ** The pools, once more *)

Module ThreadPoolMore.
Import Prueba2 ThreadPool.

Section Pool.
Context {World Img : Type} `{Imaging World Img}.
Local Abbreviation state := (state (World:=World) (Img:=Img)).
Local Abbreviation machine := (machine (World:=World) (Img:=Img)).

Lemma running_step (max_workers : nat) (s s' : state) :
  step max_workers s s' ->
  (length (running s) <= max_workers)%nat -> (length (running s') <= max_workers)%nat.
Proof.
  intros Hstep.
  destruct Hstep as [s t q Hq Hfree _ | s r1 r2 t X ev k ans m' Hr Hh _
                      | s r1 r2 t r Hr _ | s r1 r2 t e Hr _ | s f1 f2 r Hf _];
    simpl; try rewrite Hr; rewrite ?length_app; simpl; lia.
Qed.

Lemma running_nsteps (max_workers k : nat) (s s' : state) :
  nsteps (step max_workers) k s s' ->
  (length (running s) <= max_workers)%nat -> (length (running s') <= max_workers)%nat.
Proof.
  induction 1 as [s | k s1 s2 s3 Hs _ IH]; [done | ].
  intros Hle. apply IH. by eapply running_step.
Qed.

Lemma held_bounds (notes : list (phase * nat)) :
  (0 <= held notes <= Z.of_nat (length notes))%Z.
Proof.
  induction notes as [ | [ph h] notes IH]; simpl; [lia | ].
  destruct ph; simpl; lia.
Qed.

End Pool.
End ThreadPoolMore.

(** X3. The thread pool of [run_multithread_version] with at least as
    many permits as workers (the application has four of each) and a
    gate that is idle at the start: in every state of the run the
    active tally is between zero and the number of calls in progress,
    which is at most the number of workers, and a call that is about
    to acquire the gate finds a permit: no worker ever waits at the
    gate. *)
Theorem gate_never_makes_a_worker_wait :
  forall (World Img : Type) (I : Imaging World Img)
         (max_workers k : nat) (m : machine (World:=World) (Img:=Img))
         (image_paths : list string) (selected_filter output_folder : string)
         (s : ThreadPool.state),
    (Z.of_nat max_workers <= semaphore_value m)%Z ->
    active_processes m = 0%Z ->
    nsteps (ThreadPool.step max_workers) k
      (ThreadPool.init m image_paths selected_filter output_folder) s ->
    (0 <= active_processes (ThreadPool.mach s)
     <= Z.of_nat (length (ThreadPool.running s)))%Z
    /\ (length (ThreadPool.running s) <= max_workers)%nat
    /\ forall r1 t k0 r2,
         ThreadPool.running s = (r1 ++ (t, Vis Acquire k0) :: r2)%list ->
         exists m', handle Acquire (ThreadPool.mach s) = Some (inr tt, m').
Proof.
  intros World Img I max_workers k m image_paths selected_filter output_folder s
    Hcap Hidle Hk.
  destruct (ThreadPoolFacts.pool_tally_nsteps _ _ _ _ Hk ltac:(simpl; lia)) as [Hpos Heq].
  simpl in Heq.
  destruct (ThreadPoolFacts.pool_invariant_nsteps _ _ _ _ _ _ Hk []
              (ThreadPoolFacts.pool_invariant_init m image_paths selected_filter
                 output_folder))
    as (notes & [_ _ Hfit Hsem] & _).
  pose proof (ThreadPoolMore.running_nsteps _ _ _ _ Hk ltac:(simpl; lia)) as Hrun.
  pose proof (Forall2_length _ _ _ Hfit) as Hlen.
  pose proof (ThreadPoolMore.held_bounds notes) as Hheld.
  split; [lia | ]. split; [done | ].
  intros r1 t k0 r2 Hr. rewrite Hr in Hfit.
  apply Forall2_app_inv_r in Hfit as (n1 & n2' & Hn1 & Hn2 & ->).
  apply Forall2_cons_inv_r in Hn2 as ([ph h] & n2 & [Hp _] & Hn2 & ->).
  simpl in Hp. destruct Hp as [-> _].
  rewrite ThreadPoolFacts.held_app in Hsem. simpl in Hsem.
  pose proof (ThreadPoolMore.held_bounds n1) as H1.
  pose proof (ThreadPoolMore.held_bounds n2) as H2.
  rewrite Hr in Hrun. rewrite length_app in Hrun, Hlen. simpl in Hrun, Hlen.
  apply Forall2_length in Hn1, Hn2.
  simpl. destruct (Z.ltb_spec 0 (semaphore_value (ThreadPool.mach s))); [eauto | lia].
Qed.

Module ActorPoolMore.
Import ActorPool.

Section Pool.
Context {World Img : Type} `{Imaging World Img}.
Context {Task Result : Type}.
Variable source_path : Task -> string.
Variable original : Result -> string.

Lemma nothing_in_flight (image_paths : list string) (num_actors : nat)
    (notes : list nat)
    (s : state (World:=World) (Img:=Img) (Task:=Task) (Result:=Result)) :
  invariant source_path original image_paths num_actors notes s ->
  (exists j, main s = Stopping j) \/ main s = Finished ->
  result_queue s = []
  /\ Forall (fun a => task_queue a = [] /\ forall t p, at_pc a <> Working t p) (actors s)
  /\ map original (results s) ≡ₚ image_paths.
Proof.
  intros [_ _ Hperm Hres _ _] Hmain.
  assert (submitted_count (length image_paths) (main s) = length image_paths
          /\ collected_count (length image_paths) (main s) = length image_paths)
    as [Hsub Hcol] by (destruct Hmain as [[j ->] | ->]; done).
  rewrite Hsub, take_ge in Hperm by done. rewrite Hcol in Hres.
  pose proof (Permutation_length Hperm) as Hlen.
  rewrite !length_app, !length_map in Hlen.
  assert (concat (map (in_flight source_path) (actors s)) = []) as Hc
    by (apply length_zero_iff_nil; lia).
  assert (result_queue s = []) as Hq by (apply length_zero_iff_nil; lia).
  split; [done | ]. split.
  - clear -Hc. induction (actors s) as [ | a l IH]; [constructor | ].
    simpl in Hc. apply app_eq_nil in Hc as [Ha Hl].
    constructor; [ | by apply IH].
    unfold in_flight in Ha. apply app_eq_nil in Ha as [Hqueue Hwork].
    split.
    + by destruct (task_queue a).
    + intros t p Hpc. by rewrite Hpc in Hwork.
  - rewrite Hc, Hq in Hperm. simpl in Hperm. done.
Qed.

End Pool.
End ActorPoolMore.

(** X4. In [process_image_actor], when the caller stops the actors, and
    ever after, no task is left in an inbox, no actor is working and the
    result queue is empty: [stop] never drops work there.  (Both
    programs.) *)
Theorem stop_finds_the_actors_idle :
  forall (World Img : Type) (I : Imaging World Img) (U : PyStr.Unicode)
         (image_paths : list string) (selected_filter output_folder : string)
         (m : machine (World:=World) (Img:=Img)) (num_actors : nat),
    (forall (k : nat) (s : ActorPool.state),
        nsteps (ActorPool.step Prueba2.actor_task Prueba2.process_image
                  image_paths selected_filter output_folder) k
          (ActorPool.init m num_actors) s ->
        (exists j, ActorPool.main s = ActorPool.Stopping j)
        \/ ActorPool.main s = ActorPool.Finished ->
        ActorPool.result_queue s = []
        /\ Forall (fun a => ActorPool.task_queue a = []
                            /\ forall t p, ActorPool.at_pc a <> ActorPool.Working t p)
             (ActorPool.actors s))
    /\ (forall (k : nat) (s : ActorPool.state),
          nsteps (ActorPool.step Prueba.actor_task Prueba.process_image
                    image_paths selected_filter output_folder) k
            (ActorPool.init m num_actors) s ->
          (exists j, ActorPool.main s = ActorPool.Stopping j)
          \/ ActorPool.main s = ActorPool.Finished ->
          ActorPool.result_queue s = []
          /\ Forall (fun a => ActorPool.task_queue a = []
                              /\ forall t p, ActorPool.at_pc a <> ActorPool.Working t p)
               (ActorPool.actors s)).
Proof.
  intros World Img I U image_paths selected_filter output_folder m num_actors. split.
  - intros k s Hk Hmain.
    destruct (ActorPoolFacts.actors_invariant_nsteps
                Prueba2.actor_task Prueba2.process_image Prueba2.source_path Prueba2.original
                ltac:(done) process_image2_gate_free process_image2_within
                _ _ _ _ _ _ _ Hk _
                (ActorPoolFacts.actors_invariant_init _ _ m image_paths num_actors))
      as (notes & Hinv & _).
    destruct (ActorPoolMore.nothing_in_flight _ _ _ _ _ _ Hinv Hmain) as (Hq & Hidle & _).
    done.
  - intros k s Hk Hmain.
    destruct (ActorPoolFacts.actors_invariant_nsteps
                Prueba.actor_task Prueba.process_image Prueba.source_path Prueba.original
                ltac:(done) process_image1_gate_free process_image1_within
                _ _ _ _ _ _ _ Hk _
                (ActorPoolFacts.actors_invariant_init _ _ m image_paths num_actors))
      as (notes & Hinv & _).
    destruct (ActorPoolMore.nothing_in_flight _ _ _ _ _ _ Hinv Hmain) as (Hq & Hidle & _).
    done.
Qed.

(** ** One actor *)

Module ProcessingActorFacts.
Import ActorPool ProcessingActor.

Section Actor.
Context {World Img : Type} `{Imaging World Img}.
Context {Task Result : Type}.
Variable process_image : Task -> prog Img Result.
Variable source_path : Task -> string.
Variable original : Result -> string.

Hypothesis process_image_free :
  forall t, gate_free (fun r => original r = source_path t) (fun _ => False)
              (process_image t).

Local Abbreviation state :=
  (ProcessingActor.state (World:=World) (Img:=Img) (Task:=Task) (Result:=Result)).
Local Abbreviation step := (ProcessingActor.step process_image).
Local Abbreviation machine := (machine (World:=World) (Img:=Img)).

(** The results put, the task in progress, the inbox and what is still
    to submit are the tasks, in their order. *)
Lemma in_order_step (paths : list string) (s s' : state) :
  step s s' ->
  call_fits source_path original s
  /\ paths = (map original (ProcessingActor.result_queue s)
              ++ map source_path (current s)
              ++ map source_path (task_queue (self s))
              ++ map source_path (pending s))%list ->
  call_fits source_path original s'
  /\ paths = (map original (ProcessingActor.result_queue s')
              ++ map source_path (current s')
              ++ map source_path (task_queue (self s'))
              ++ map source_path (pending s'))%list.
Proof.
  unfold call_fits, current.
  intros Hstep [Hfit ->].
  destruct Hstep as [s t rest Hp | s | s t q Hpc Hq | s t X ev k ans m' Hpc Hh
                     | s t r Hpc | s t e Hpc | s Hpc Hq Hr]; simpl in *.
  - split; [done | ]. rewrite Hp, map_app, <- !app_assoc. done.
  - done.
  - rewrite Hpc, Hq. split; [apply process_image_free | done].
  - rewrite Hpc in *. simpl in Hfit.
    destruct (kind_of ev); done.
  - rewrite Hpc in *. simpl in Hfit.
    split; [by destruct (_running (self s)) | ].
    rewrite map_app, <- !app_assoc. simpl. rewrite Hfit.
    by destruct (_running (self s)).
  - rewrite Hpc in Hfit. done.
  - rewrite Hpc. done.
Qed.

Lemma in_order_reachable (m : machine) (tasks : list Task) (s : state) :
  rtc step (__init__ m tasks) s ->
  map source_path tasks
  = (map original (ProcessingActor.result_queue s)
     ++ map source_path (current s)
     ++ map source_path (task_queue (self s))
     ++ map source_path (pending s))%list.
Proof.
  intros Hr.
  enough (call_fits source_path original s
          /\ map source_path tasks
             = (map original (ProcessingActor.result_queue s)
                ++ map source_path (current s)
                ++ map source_path (task_queue (self s))
                ++ map source_path (pending s))%list) as [_ Heq] by exact Heq.
  eapply (rtc_ind_r
            (fun s => call_fits source_path original s
                      /\ map source_path tasks
                         = (map original (ProcessingActor.result_queue s)
                            ++ map source_path (current s)
                            ++ map source_path (task_queue (self s))
                            ++ map source_path (pending s))%list)); [ | | exact Hr].
  - by split.
  - intros s1 s2 _ Hs Hinv. by eapply in_order_step.
Qed.

(** The client submits whatever it still has to. *)
Lemma submit_rest (m : machine) (q : list Task) (rn : bool)
    (pc : actor_pc (Img:=Img) (Task:=Task) (Result:=Result))
    (rq : list Result) (rest : list Task) :
  rtc step
    {| ProcessingActor.mach := m; self := Actor q rn pc;
       ProcessingActor.result_queue := rq; pending := rest |}
    {| ProcessingActor.mach := m; self := Actor (q ++ rest) rn pc;
       ProcessingActor.result_queue := rq; pending := [] |}.
Proof.
  revert q. induction rest as [ | t rest IH]; intros q.
  - by rewrite app_nil_r.
  - eapply rtc_l;
      [exact (ProcessingActor.submit process_image
                {| ProcessingActor.mach := m; self := Actor q rn pc;
                   ProcessingActor.result_queue := rq; pending := t :: rest |}
                t rest eq_refl) | ].
    simpl. replace (q ++ t :: rest)%list with ((q ++ [t]) ++ rest)%list
      by (by rewrite <- app_assoc).
    apply IH.
Qed.

(** A call in progress comes to its end, whatever else is the case. *)
Lemma call_returns (t : Task) (p : prog Img Result) :
  gate_free (fun r => original r = source_path t) (fun _ => False) p ->
  forall (m : machine) (q : list Task) (rn : bool) (rq : list Result) (rest : list Task),
  exists m' r,
    rtc step
      {| ProcessingActor.mach := m; self := Actor q rn (Working t p);
         ProcessingActor.result_queue := rq; pending := rest |}
      {| ProcessingActor.mach := m'; self := Actor q rn (Working t (Ret r));
         ProcessingActor.result_queue := rq; pending := rest |}
    /\ original r = source_path t.
Proof.
  induction p as [r | e | X ev k IH]; simpl; intros Hfree m q rn rq rest.
  - exists m, r. by split.
  - done.
  - destruct (kind_of ev) eqn:Hk; try done.
    destruct (handle_other ev m) as (ans & m1 & Hh); [congruence | ].
    destruct (IH ans (Hfree ans) m1 q rn rq rest) as (m' & r & Hrun & Hr).
    exists m', r. split; [ | done].
    eapply rtc_l; [ | exact Hrun].
    exact (ProcessingActor.exec process_image
             {| ProcessingActor.mach := m; self := Actor q rn (Working t (Vis ev k));
                ProcessingActor.result_queue := rq; pending := rest |}
             t X ev k ans m1 eq_refl Hh).
Qed.

(** Once the thread has left [_run] and the client has nothing to
    submit, nothing changes but the flag. *)
Lemma exited_step (s s' : state) :
  step s s' ->
  at_pc (self s) = Exited -> pending s = [] ->
  at_pc (self s') = Exited /\ pending s' = []
  /\ ProcessingActor.result_queue s' = ProcessingActor.result_queue s
  /\ task_queue (self s') = task_queue (self s).
Proof.
  intros Hstep Hpc Hp.
  destruct Hstep as [s t rest Hp' | s | s t q Hpc' Hq | s t X ev k ans m' Hpc' Hh
                     | s t r Hpc' | s t e Hpc' | s Hpc' Hq Hr];
    simpl; repeat split; congruence.
Qed.

Lemma exited_stays (s s' : state) :
  rtc step s s' ->
  at_pc (self s) = Exited -> pending s = [] ->
  ProcessingActor.result_queue s' = ProcessingActor.result_queue s
  /\ task_queue (self s') = task_queue (self s).
Proof.
  induction 1 as [s | s1 s2 s3 Hs _ IH]; intros Hpc Hp; [done | ].
  destruct (exited_step _ _ Hs Hpc Hp) as (Hpc2 & Hp2 & Hq2 & Ht2).
  destruct (IH Hpc2 Hp2) as [Hq3 Ht3]. split; congruence.
Qed.

(** [stop] while the first task is in progress: the thread puts its
    result and leaves; the rest of the inbox is never taken. *)
Lemma stranded (m : machine) (t : Task) (rest : list Task) :
  exists s r,
    rtc step (__init__ m (t :: rest)) s
    /\ at_pc (self s) = Exited
    /\ task_queue (self s) = rest
    /\ pending s = []
    /\ ProcessingActor.result_queue s = [r]
    /\ original r = source_path t
    /\ forall s', rtc step s s' ->
         ProcessingActor.result_queue s' = [r] /\ task_queue (self s') = rest.
Proof.
  destruct (call_returns t (process_image t) (process_image_free t) m rest false [] [])
    as (m' & r & Hrun & Hr).
  exists {| ProcessingActor.mach := m'; self := Actor rest false Exited;
            ProcessingActor.result_queue := [r]; pending := [] |}, r.
  split; [ | split; [done | split; [done | split; [done | split; [done | split; [done | ]]]]]].
  - etransitivity; [apply (submit_rest m [] true Polling [] (t :: rest)) | ].
    eapply rtc_l;
      [exact (ProcessingActor.dequeue process_image
                {| ProcessingActor.mach := m; self := Actor (t :: rest) true Polling;
                   ProcessingActor.result_queue := []; pending := [] |}
                t rest eq_refl eq_refl) | ].
    eapply rtc_l; [apply ProcessingActor.stop | ]. simpl.
    etransitivity; [exact Hrun | ].
    eapply rtc_l;
      [exact (ProcessingActor.put process_image
                {| ProcessingActor.mach := m'; self := Actor rest false (Working t (Ret r));
                   ProcessingActor.result_queue := []; pending := [] |}
                t r eq_refl) | ].
    simpl. reflexivity.
  - intros s' Hs'. by destruct (exited_stays _ _ Hs' eq_refl eq_refl).
Qed.

End Actor.
End ProcessingActorFacts.

(** X5. An actor alone, with any client that submits tasks and may call
    [stop] at any moment: the results it has put, the task it is working
    on, its inbox and the tasks not yet submitted are, in this order, the
    tasks in the order of submission.  So results come out in the order
    the tasks went in, and each names the image of its task.  (Both
    programs.) *)
Theorem actor_answers_in_submission_order :
  forall (World Img : Type) (I : Imaging World Img) (U : PyStr.Unicode)
         (m : machine (World:=World) (Img:=Img)),
    (forall (tasks : list Prueba2.task) (s : ProcessingActor.state),
        rtc (ProcessingActor.step Prueba2.process_image)
          (ProcessingActor.__init__ m tasks) s ->
        map Prueba2.source_path tasks
        = (map Prueba2.original (ProcessingActor.result_queue s)
           ++ map Prueba2.source_path (ProcessingActor.current s)
           ++ map Prueba2.source_path (ActorPool.task_queue (ProcessingActor.self s))
           ++ map Prueba2.source_path (ProcessingActor.pending s))%list)
    /\ (forall (tasks : list Prueba.task) (s : ProcessingActor.state),
          rtc (ProcessingActor.step Prueba.process_image)
            (ProcessingActor.__init__ m tasks) s ->
          map Prueba.source_path tasks
          = (map Prueba.original (ProcessingActor.result_queue s)
             ++ map Prueba.source_path (ProcessingActor.current s)
             ++ map Prueba.source_path (ActorPool.task_queue (ProcessingActor.self s))
             ++ map Prueba.source_path (ProcessingActor.pending s))%list).
Proof.
  intros World Img I U m. split.
  - intros tasks s Hr.
    exact (ProcessingActorFacts.in_order_reachable Prueba2.process_image
             Prueba2.source_path Prueba2.original process_image2_gate_free m tasks s Hr).
  - intros tasks s Hr.
    exact (ProcessingActorFacts.in_order_reachable Prueba.process_image
             Prueba.source_path Prueba.original process_image1_gate_free m tasks s Hr).
Qed.

(** X6. [stop] does not drain the inbox.  For any tasks submitted to an
    actor, there is a run in which [stop] is called while the first is in
    progress: the actor puts the result of that task and its thread ends;
    the other tasks stay in the inbox and, whatever happens next, no
    further result is ever put.  (Both programs.) *)
Theorem stop_strands_the_queued_tasks :
  forall (World Img : Type) (I : Imaging World Img) (U : PyStr.Unicode)
         (m : machine (World:=World) (Img:=Img)),
    (forall (t : Prueba2.task) (rest : list Prueba2.task),
        exists (s : ProcessingActor.state) (r : Prueba2.result),
          rtc (ProcessingActor.step Prueba2.process_image)
            (ProcessingActor.__init__ m (t :: rest)) s
          /\ ActorPool.at_pc (ProcessingActor.self s) = ActorPool.Exited
          /\ ActorPool.task_queue (ProcessingActor.self s) = rest
          /\ ProcessingActor.pending s = []
          /\ ProcessingActor.result_queue s = [r]
          /\ Prueba2.original r = Prueba2.source_path t
          /\ forall s', rtc (ProcessingActor.step Prueba2.process_image) s s' ->
               ProcessingActor.result_queue s' = [r]
               /\ ActorPool.task_queue (ProcessingActor.self s') = rest)
    /\ (forall (t : Prueba.task) (rest : list Prueba.task),
          exists (s : ProcessingActor.state) (r : Prueba.result),
            rtc (ProcessingActor.step Prueba.process_image)
              (ProcessingActor.__init__ m (t :: rest)) s
            /\ ActorPool.at_pc (ProcessingActor.self s) = ActorPool.Exited
            /\ ActorPool.task_queue (ProcessingActor.self s) = rest
            /\ ProcessingActor.pending s = []
            /\ ProcessingActor.result_queue s = [r]
            /\ Prueba.original r = Prueba.source_path t
            /\ forall s', rtc (ProcessingActor.step Prueba.process_image) s s' ->
                 ProcessingActor.result_queue s' = [r]
                 /\ ActorPool.task_queue (ProcessingActor.self s') = rest).
Proof.
  intros World Img I U m. split.
  - intros t rest.
    exact (ProcessingActorFacts.stranded Prueba2.process_image Prueba2.source_path
             Prueba2.original process_image2_gate_free m t rest).
  - intros t rest.
    exact (ProcessingActorFacts.stranded Prueba.process_image Prueba.source_path
             Prueba.original process_image1_gate_free m t rest).
Qed.

(** ** The theorems at work *)


Lemma processed_paths_follow_the_results_witness :
  PruebaApp.processed_paths
    (PruebaApp.drain [Scenario.pez_failed; Scenario.gato_done] Scenario.two_loaded)
  !! "/fotos/gato.png"
  = Some "/out/gato_grises.png"
  /\ PruebaApp.processed_paths
       (PruebaApp.drain [Scenario.pez_failed; Scenario.gato_done] Scenario.two_loaded)
     !! "/fotos/pez.png"
     = PruebaApp.processed_paths Scenario.two_loaded !! "/fotos/pez.png".
Proof.
  assert (NoDup (map Prueba.original [Scenario.pez_failed; Scenario.gato_done])) as Hnd.
  { simpl. apply NoDup_cons. split; [ | apply NoDup_singleton].
    intros Hin%list_elem_of_singleton. discriminate Hin. }
  destruct (processed_paths_follow_the_results
              [Scenario.pez_failed; Scenario.gato_done] Scenario.two_loaded Hnd)
    as (Hok & Herr & _).
  split.
  - apply (Hok _ _ "Procesado: gato.png" "Grises"). apply list_elem_of_further, list_elem_of_here.
  - apply (Herr _ "Error en pez.png: No such file or directory"). apply list_elem_of_here.
Defined.



Lemma compare_strategies_times_the_sequential_run_witness :
  exists (results : list Prueba.result) (seq_time : Q)
         (m' : machine (World:=Demo.World) (Img:=nat))
         (a' : PruebaApp.app) (bars : list Q) (report : option (Q * Q)),
    run (Prueba.process_image_sequential (U:=Demo.unicode)
           ["/fotos/gato.png"; "/fotos/pez.png"] "Grises" "/out") (Demo.boot Demo.disk)
    = (Returned (results, seq_time), m')
    /\ PruebaApp.compare_strategies (results, seq_time) Scenario.two_loaded
       = (a', Some (Some (bars, report)))
    /\ length bars = 4%nat
    /\ Prueba.sequential (PruebaApp.metrics a') = [seq_time].
Proof.
  destruct (compare_strategies_times_the_sequential_run _ _ Demo.imaging Demo.unicode
              (Demo.boot Demo.disk) "Grises" Scenario.two_loaded ltac:(discriminate))
    as (results & seq_time & m' & a' & bars & report & Hrun & Hcmp & Hbars & Hseq & _).
  exists results, seq_time, m', a', bars, report. repeat split; assumption.
Defined.

(** One image, four workers, four permits. *)
Example thread_pool_run1 :
  exists s,
    nsteps (ThreadPool.step 4) 10
      (ThreadPool.init (Demo.boot Demo.disk) ["/fotos/gato.png"] "Desenfoque"
         "/home/u/output") s
    /\ ThreadPool.returns s
    /\ ThreadPool.results s = [Scenario.gato_multihilo].
Proof.
  eexists. split; [ | split].
  - eapply nsteps_l; [eapply ThreadPool.start; [reflexivity | simpl; lia | reflexivity] | ].
    cbn.
    do 7 (eapply nsteps_l;
            [eapply (ThreadPool.exec _ _ [] []); [reflexivity | reflexivity | reflexivity] | ];
          cbn).
    eapply nsteps_l; [eapply (ThreadPool.finish _ _ [] []); reflexivity | ]. cbn.
    eapply nsteps_l; [eapply (ThreadPool.collect _ _ [] []); reflexivity | ]. cbn.
    apply nsteps_O.
  - repeat split; reflexivity.
  - reflexivity.
Qed.

Lemma comparison_progress_counts_both_phases_witness :
  exists (par : list Prueba2.result) (a3 : Prueba2App.app),
    a3 = Prueba2App.finish_processing
           (Prueba2App.parallel_phase "multithread" (par, (1 # 2)%Q)
              (Prueba2App.sequential_phase ([Scenario.gato_secuencial], 1%Q)
                 (fst (Prueba2App.start_processing Scenario.ready))))
    /\ Prueba2App.currently_processing a3 = false
    /\ Prueba2App.progress_maximum a3 = 2%Z
    /\ Prueba2App.progress_value a3 = 2%Z
    /\ Prueba2App.all_results a3 = (Scenario.gato_secuencial :: par)%list.
Proof.
  destruct thread_pool_run1 as (s & Hk & Hret & Hres).
  exists (ThreadPool.results s). eexists. split; [reflexivity | ].
  destruct (comparison_progress_counts_both_phases _ _ Demo.imaging
              (Demo.boot Demo.disk) _ (Demo.boot Demo.disk)
              Scenario.ready _ "Desenfoque" "multithread"
              [Scenario.gato_secuencial] 1%Q [] (ThreadPool.results s) (1 # 2)%Q
              eq_refl eq_refl
              (ex_intro _ 10%nat (ex_intro _ s (conj Hk (conj Hret eq_refl)))))
    as (Hflag & _ & Hmax & Hvalue & Hfull).
  destruct (Hfull eq_refl) as (_ & Hall & _).
  split; [exact Hflag | ]. split; [exact Hmax | ]. split; [exact Hvalue | exact Hall].
Defined.

Example halfway_reachable :
  rtc Prueba2App.step (Prueba2App.booted "/home/u") Scenario.halfway.
Proof.
  etransitivity;
    [apply (Prueba2AppFacts.run_edits [Prueba2App.Edit (Gallery.Load ["/fotos/gato.png"])])
    | ].
  cbn [foldl]. change (Prueba2App.act _ _) with Scenario.ready.
  eapply rtc_l.
  { match goal with
    | |- Prueba2App.step ?s _ => exact (Prueba2App.event s Prueba2App.ClickStart eq_refl)
    end. }
  etransitivity; [apply Prueba2AppFacts.run_callback | ].
  eapply rtc_l.
  { match goal with
    | |- Prueba2App.step ?s _ =>
        exact (Prueba2App.sequential_returns s [] "Desenfoque" "multithread" []
                 [Scenario.gato_secuencial] 2%Q eq_refl)
    end. }
  apply Prueba2AppFacts.run_sequential_phase.
Qed.

Example over_reachable : rtc Prueba2App.step Scenario.halfway Scenario.over.
Proof.
  eapply rtc_l.
  { exact (Prueba2App.parallel_returns Scenario.halfway [] "Desenfoque" "multithread" []
             [Scenario.gato_multihilo] (1 # 2)%Q eq_refl). }
  apply Prueba2AppFacts.run_parallel_phase.
Qed.

Lemma sequential_history_is_never_written_witness :
  Prueba2App.history_Secuencial (Prueba2App.metrics (Prueba2App.gui Scenario.over)) = []
  /\ Prueba2App.history_Multihilo (Prueba2App.metrics (Prueba2App.gui Scenario.halfway))
     `prefix_of`
     Prueba2App.history_Multihilo (Prueba2App.metrics (Prueba2App.gui Scenario.over))
  /\ Prueba2App.history_Modelo_Actor
       (Prueba2App.metrics (Prueba2App.gui Scenario.halfway))
     `prefix_of`
     Prueba2App.history_Modelo_Actor (Prueba2App.metrics (Prueba2App.gui Scenario.over)).
Proof.
  exact (sequential_history_is_never_written "/home/u" Scenario.halfway Scenario.over
           halfway_reachable over_reachable).
Defined.

Lemma output_files_coincide_by_base_name_witness :
  Prueba2.output Scenario.gato_secuencial <> Prueba2.output Scenario.gato_multihilo.
Proof.
  refine (proj2 (output_files_coincide_by_base_name _ _ Demo.imaging
                   "/fotos/gato.png" "/fotos/gato.png" "Desenfoque" "Desenfoque"
                   "/home/u/output" "secuencial" "multihilo"
                   (Demo.boot Demo.disk) _ (Demo.boot Demo.disk) _
                   Scenario.gato_secuencial Scenario.gato_multihilo
                   eq_refl eq_refl eq_refl eq_refl) eq_refl _).
  discriminate.
Defined.

(** Two images, four workers, four permits: the first call holds the
    gate, the second is about to acquire it. *)
Example thread_pool_two_started :
  exists s t k0 c,
    nsteps (ThreadPool.step 4) 3
      (ThreadPool.init (Demo.boot Demo.disk) ["/fotos/gato.png"; "/fotos/pez.png"]
         "Bordes" "/out") s
    /\ ThreadPool.running s = ([c] ++ (t, Vis Acquire k0) :: [])%list
    /\ active_processes (ThreadPool.mach s) = 1%Z.
Proof.
  do 4 eexists. split; [ | split].
  - eapply nsteps_l; [eapply ThreadPool.start; [reflexivity | simpl; lia | reflexivity] | ].
    cbn.
    eapply nsteps_l; [eapply ThreadPool.start; [reflexivity | simpl; lia | reflexivity] | ].
    cbn.
    eapply nsteps_l;
      [eapply (ThreadPool.exec _ _ [] [_]); [reflexivity | reflexivity | reflexivity] | ].
    cbn. apply nsteps_O.
  - reflexivity.
  - reflexivity.
Qed.

Lemma gate_never_makes_a_worker_wait_witness :
  exists s : ThreadPool.state,
    nsteps (ThreadPool.step 4) 3
      (ThreadPool.init (Demo.boot Demo.disk) ["/fotos/gato.png"; "/fotos/pez.png"]
         "Bordes" "/out") s
    /\ active_processes (ThreadPool.mach s) = 1%Z
    /\ (length (ThreadPool.running s) <= 4)%nat
    /\ exists m', handle Acquire (ThreadPool.mach s) = Some (inr tt, m').
Proof.
  destruct thread_pool_two_started as (s & t & k0 & c & Hk & Hrun & Hact).
  destruct (gate_never_makes_a_worker_wait _ _ Demo.imaging 4 3 (Demo.boot Demo.disk)
              ["/fotos/gato.png"; "/fotos/pez.png"] "Bordes" "/out" s
              ltac:(simpl; lia) eq_refl Hk)
    as (_ & Hle & Hfree).
  exists s. split; [exact Hk | ]. split; [exact Hact | ]. split; [exact Hle | ].
  exact (Hfree _ _ _ _ Hrun).
Defined.

Lemma stop_finds_the_actors_idle_witness :
  exists s : ActorPool.state,
    nsteps (ActorPool.step Prueba2.actor_task Prueba2.process_image
              ["/fotos/gato.png"; "/fotos/pez.png"; "/fotos/perro.jpg"] "Grises" "/out") 29
      (ActorPool.init (Demo.boot Demo.disk) 2) s
    /\ ActorPool.result_queue s = []
    /\ Forall (fun a => ActorPool.task_queue a = []
                        /\ forall t p, ActorPool.at_pc a <> ActorPool.Working t p)
         (ActorPool.actors s).
Proof.
  destruct actor_pool_run as (s & Hk & Hret & _).
  exists s. split; [exact Hk | ].
  exact (proj1 (stop_finds_the_actors_idle _ _ Demo.imaging Demo.unicode
                  ["/fotos/gato.png"; "/fotos/pez.png"; "/fotos/perro.jpg"] "Grises" "/out"
                  (Demo.boot Demo.disk) 2)
           29%nat s Hk (or_intror Hret)).
Defined.

(** ** The files a whole run touches *)

Section KeepsTo.
Context {Img : Type}.
Context {U : PyStr.Unicode}.

Lemma confined_keeps_to {A} (source target : string) (ok : A -> Prop) (p : prog Img A) :
  forall (budget : nat) (came : bool),
    confined source target ok budget came p -> keeps_to source target p.
Proof.
  induction p as [a | e | X ev k IH]; intros budget came; simpl; [done | done | ].
  intros (Ht & _ & Hk). split.
  - destruct ev; simpl in *; done.
  - intros ans. by eapply IH.
Qed.

Lemma keeps_to_bind {A B} (source target : string) (c : prog Img A)
    (k : A -> prog Img B) :
  keeps_to source target c -> (forall a, keeps_to source target (k a)) ->
  keeps_to source target (bind c k).
Proof.
  intros Hc Hk. induction c as [a | e | X ev h IH]; simpl; [apply Hk | done | ].
  destruct Hc as [Hn Hh]. split; [done | ]. intros ans. by apply IH.
Qed.

Lemma keeps_to_try_finally {A} (source target : string) (body : prog Img A)
    (cleanup : prog Img unit) :
  keeps_to source target body -> keeps_to source target cleanup ->
  keeps_to source target (try_finally body cleanup).
Proof.
  intros Hb Hc. induction body as [a | e | X ev h IH]; simpl.
  - by apply keeps_to_bind.
  - by apply keeps_to_bind.
  - destruct Hb as [Hn Hh]. split; [done | ]. intros ans. by apply IH.
Qed.

Lemma process_image2_keeps_to (t : Prueba2.task) :
  keeps_to (Img:=Img) (Prueba2.source_path t) (target2 t) (Prueba2.process_image t).
Proof.
  destruct t as [[[image_path selected_filter] output_folder] method].
  eapply confined_keeps_to, process_image2_confined.
Qed.

Lemma process_image1_keeps_to (t : Prueba.task) :
  keeps_to (Img:=Img) (Prueba.source_path t) (target1 t) (Prueba.process_image t).
Proof.
  destruct t as [[image_path selected_filter] output_folder].
  eapply confined_keeps_to, process_image1_confined.
Qed.

Lemma process_with_semaphore2_keeps_to (t : Prueba2.task) :
  keeps_to (Img:=Img) (Prueba2.source_path t) (target2 t)
    (Prueba2.process_with_semaphore t).
Proof.
  unfold Prueba2.process_with_semaphore.
  apply keeps_to_bind; [simpl; split; [done | by intros [? | ?]] | intros _].
  apply keeps_to_try_finally; [ | simpl; split; [done | by intros [? | ?]]].
  apply keeps_to_bind; [apply process_image2_keeps_to | done].
Qed.

(** One more entry in a log that names files of [sources] and [targets]
    only. *)
Lemma names_logged (sources targets : list string) (source target : string)
    {X} (ev : event Img X) (new : list (entry Img)) :
  names source target ev -> source ∈ sources -> target ∈ targets ->
  Forall (fun path => path ∈ sources) (opens new) ->
  Forall (fun path => path ∈ targets) (saves new) ->
  Forall (fun path => path ∈ sources) (opens (new ++ [Did ev]))
  /\ Forall (fun path => path ∈ targets) (saves (new ++ [Did ev])).
Proof.
  intros Hn Hs Ht Ho Hsv. unfold opens, saves in *. rewrite !omap_app, !Forall_app.
  split; (split; [done | ]); destruct ev; simpl in *; subst; by repeat constructor.
Qed.

End KeepsTo.

Module ThreadPoolFiles.
Import Prueba2 ThreadPool.

Section Pool.
Context {World Img : Type} `{Imaging World Img}.
Local Abbreviation state := (state (World:=World) (Img:=Img)).
Local Abbreviation machine := (machine (World:=World) (Img:=Img)).

Lemma task_files (image_paths : list string) (selected_filter output_folder : string)
    (t : task) :
  t ∈ tasks_of image_paths selected_filter output_folder ->
  source_path t ∈ image_paths
  /\ target2 t
     ∈ map (fun path => output_path2 path output_folder "multihilo") image_paths.
Proof.
  unfold tasks_of. intros (path & -> & Hp)%list_elem_of_fmap. simpl.
  split; [done | ]. apply list_elem_of_fmap. eauto.
Qed.

Lemma files_step (max_workers : nat) (m : machine) (image_paths : list string)
    (selected_filter output_folder : string) (s s' : state) :
  step max_workers s s' ->
  files m image_paths selected_filter output_folder s ->
  files m image_paths selected_filter output_folder s'.
Proof.
  intros Hstep (Hq & Hr & new & Hnew & Ho & Hs).
  destruct Hstep as [s t q Hq' Hfree _ | s r1 r2 t X ev k ans m' Hr' Hh _
                      | s r1 r2 t r Hr' _ | s r1 r2 t e Hr' _ | s f1 f2 r Hf _];
    unfold files; simpl.
  - rewrite Hq' in Hq. apply Forall_cons in Hq as [Ht Hq].
    split; [done | ]. split; [ | eauto].
    apply Forall_app. split; [done | ]. constructor; [ | done].
    split; [done | apply process_with_semaphore2_keeps_to].
  - rewrite Hr' in Hr. apply Forall_app in Hr as [Hr1 Hr2].
    apply Forall_cons in Hr2 as [[Ht [Hn Hk]] Hr2]. simpl in Ht, Hn, Hk.
    destruct (task_files _ _ _ _ Ht) as [Hsrc Htgt].
    split; [done | ]. split.
    + apply Forall_app. split; [done | ]. constructor; [ | done].
      simpl. split; [done | apply Hk].
    + exists (new ++ [Did ev])%list.
      rewrite (handle_logged _ _ _ _ Hh), Hnew, <- app_assoc.
      split; [done | ]. by eapply names_logged.
  - rewrite Hr' in Hr. apply Forall_app in Hr as [Hr1 Hr2].
    apply Forall_cons in Hr2 as [_ Hr2].
    split; [done | ]. split; [by apply Forall_app | eauto].
  - rewrite Hr' in Hr. apply Forall_app in Hr as [Hr1 Hr2].
    apply Forall_cons in Hr2 as [_ Hr2].
    split; [done | ]. split; [by apply Forall_app | eauto].
  - split; [done | ]. split; [done | eauto].
Qed.

Lemma files_nsteps (max_workers k : nat) (m : machine) (image_paths : list string)
    (selected_filter output_folder : string) (s s' : state) :
  nsteps (step max_workers) k s s' ->
  files m image_paths selected_filter output_folder s ->
  files m image_paths selected_filter output_folder s'.
Proof.
  induction 1 as [s | k s1 s2 s3 Hs _ IH]; [done | ].
  intros Hinv. apply IH. by eapply files_step.
Qed.

Lemma files_init (m : machine) (image_paths : list string)
    (selected_filter output_folder : string) :
  files m image_paths selected_filter output_folder
    (init m image_paths selected_filter output_folder).
Proof.
  split; [ | split].
  - simpl. by apply Forall_forall.
  - constructor.
  - exists []. simpl. rewrite app_nil_r. split; [done | ]. split; constructor.
Qed.

End Pool.
End ThreadPoolFiles.

(** X18. A run of the thread pool of [run_multithread_version], in
    whatever order the workers take their steps and whatever the
    collaborators answer: at every moment, the files opened since the
    start are loaded images and the files saved to are the output paths
    [{name}_multihilo{ext}] of loaded images in the output folder; no
    other file is named. *)
Theorem thread_pool_names_only_its_files :
  forall (World Img : Type) (I : Imaging World Img)
         (max_workers k : nat) (m : machine (World:=World) (Img:=Img))
         (image_paths : list string) (selected_filter output_folder : string)
         (s : ThreadPool.state),
    nsteps (ThreadPool.step max_workers) k
      (ThreadPool.init m image_paths selected_filter output_folder) s ->
    exists new : list (entry Img),
      calls (ThreadPool.mach s) = (calls m ++ new)%list
      /\ Forall (fun path => path ∈ image_paths) (opens new)
      /\ Forall (fun path =>
                   path ∈ map (fun image_path =>
                                 output_path2 image_path output_folder "multihilo")
                            image_paths)
           (saves new).
Proof.
  intros World Img I max_workers k m image_paths selected_filter output_folder s Hk.
  destruct (ThreadPoolFiles.files_nsteps _ _ _ _ _ _ _ _ Hk
              (ThreadPoolFiles.files_init m image_paths selected_filter output_folder))
    as (_ & _ & Hnew).
  exact Hnew.
Qed.

Lemma thread_pool_names_only_its_files_witness :
  exists (s : ThreadPool.state) (new : list (entry nat)),
    nsteps (ThreadPool.step 4) 10
      (ThreadPool.init (Demo.boot Demo.disk) ["/fotos/gato.png"] "Desenfoque"
         "/home/u/output") s
    /\ calls (ThreadPool.mach s) = (calls (Demo.boot Demo.disk) ++ new)%list
    /\ Forall (fun path => path ∈ ["/fotos/gato.png"]) (opens new)
    /\ Forall (fun path =>
                 path ∈ map (fun image_path =>
                               output_path2 image_path "/home/u/output" "multihilo")
                          ["/fotos/gato.png"])
         (saves new).
Proof.
  destruct thread_pool_run1 as (s & Hk & _).
  destruct (thread_pool_names_only_its_files _ _ Demo.imaging 4 10 (Demo.boot Demo.disk)
              ["/fotos/gato.png"] "Desenfoque" "/home/u/output" s Hk)
    as (new & Hnew & Ho & Hs).
  exists s, new. split; [exact Hk | ]. split; [exact Hnew | ]. split; [exact Ho | exact Hs].
Defined.

Module ActorPoolFiles.
Import ActorPool.

Section Pool.
Context {World Img : Type} `{Imaging World Img}.
Context {Task Result : Type}.
Variable make_task : string -> string -> string -> Task.
Variable process_image : Task -> prog Img Result.
Variable source_path : Task -> string.
Variable target : Task -> string.
Variable out : string -> string -> string -> string.

(** What is needed of the task operation: the task built for a path reads
    that path and writes its output path; [process_image] keeps to the
    two files of its task. *)
Hypothesis make_task_files :
  forall image_path selected_filter output_folder,
    source_path (make_task image_path selected_filter output_folder) = image_path
    /\ target (make_task image_path selected_filter output_folder)
       = out image_path selected_filter output_folder.
Hypothesis process_image_keeps :
  forall t, keeps_to (source_path t) (target t) (process_image t).

Local Abbreviation state := (state (World:=World) (Img:=Img) (Task:=Task) (Result:=Result)).
Local Abbreviation machine := (machine (World:=World) (Img:=Img)).
Local Abbreviation actor := (actor (Img:=Img) (Task:=Task) (Result:=Result)).
Local Abbreviation step := (ActorPool.step make_task process_image).

Lemma actor_swap (P : actor -> Prop) (a1 : list actor) (a a' : actor) (a2 : list actor) :
  Forall P (a1 ++ a :: a2) -> (P a -> P a') -> Forall P (a1 ++ a' :: a2).
Proof.
  intros [H1 [Ha H2]%Forall_cons]%Forall_app Hswap.
  apply Forall_app. split; [done | ]. constructor; auto.
Qed.

Lemma actor_files_step (m : machine) (image_paths : list string)
    (selected_filter output_folder : string) (s s' : state) :
  step image_paths selected_filter output_folder s s' ->
  actor_files source_path target m image_paths
    (map (fun path => out path selected_filter output_folder) image_paths) s ->
  actor_files source_path target m image_paths
    (map (fun path => out path selected_filter output_folder) image_paths) s'.
Proof.
  intros Hstep (Hact & new & Hnew & Ho & Hs).
  destruct Hstep as [s i image_path a1 a a2 Hm Hi Ha Hn Hk | s Hm | s n r rest Hm Hn Hq
                     | s Hm | s k a1 a a2 Hm Ha Hk | s Hm | s a1 a a2 t q Ha Hpc Hq
                     | s a1 a a2 t X ev k ans m' Ha Hpc Hh | s a1 a a2 t r Ha Hpc
                     | s a1 a a2 t e Ha Hpc | s a1 a a2 Ha Hpc Hq Hr];
    unfold actor_files; simpl; try (split; [done | eauto]; fail);
    rewrite Ha in Hact.
  - split; [ | eauto]. eapply actor_swap; [exact Hact | ].
    intros [Hqueue Hwork]. split; [ | done]. simpl.
    apply Forall_app. split; [done | ]. constructor; [ | done].
    destruct (make_task_files image_path selected_filter output_folder) as [-> ->].
    apply list_elem_of_lookup_2 in Hi.
    split; [done | ]. apply list_elem_of_fmap. eauto.
  - split; [ | eauto]. eapply actor_swap; [exact Hact | ]. by intros [Hqueue Hwork].
  - split; [ | eauto]. eapply actor_swap; [exact Hact | ].
    intros [Hqueue _]. rewrite Hq in Hqueue.
    apply Forall_cons in Hqueue as [[Hsrc Htgt] Hqueue].
    split; [done | ]. simpl. split; [done | ]. split; [done | apply process_image_keeps].
  - assert (actor_keeps source_path target image_paths
              (map (fun path => out path selected_filter output_folder) image_paths) a)
      as [Hqueue Hwork]
      by (apply Forall_app in Hact as [_ [Hact _]%Forall_cons]; exact Hact).
    rewrite Hpc in Hwork. destruct Hwork as (Hsrc & Htgt & Hn & Hk).
    split.
    + eapply actor_swap; [exact Hact | ]. intros _.
      split; [done | ]. simpl. split; [done | ]. split; [done | apply Hk].
    + exists (new ++ [Did ev])%list.
      rewrite (handle_logged _ _ _ _ Hh), Hnew, <- app_assoc.
      split; [done | ]. by eapply names_logged.
  - split; [ | eauto]. eapply actor_swap; [exact Hact | ].
    intros [Hqueue _]. split; [done | ]. simpl. by destruct (_running a).
  - split; [ | eauto]. eapply actor_swap; [exact Hact | ].
    intros [Hqueue _]. by split.
  - split; [ | eauto]. eapply actor_swap; [exact Hact | ].
    intros [Hqueue _]. by split.
Qed.

Lemma actor_files_nsteps (m : machine) (image_paths : list string)
    (selected_filter output_folder : string) (k : nat) (s s' : state) :
  nsteps (step image_paths selected_filter output_folder) k s s' ->
  actor_files source_path target m image_paths
    (map (fun path => out path selected_filter output_folder) image_paths) s ->
  actor_files source_path target m image_paths
    (map (fun path => out path selected_filter output_folder) image_paths) s'.
Proof.
  induction 1 as [s | k s1 s2 s3 Hs _ IH]; [done | ].
  intros Hinv. apply IH. by eapply actor_files_step.
Qed.

Lemma actor_files_init (m : machine) (num_actors : nat) (sources targets : list string) :
  actor_files source_path target m sources targets
    (ActorPool.init (Task:=Task) (Result:=Result) m num_actors).
Proof.
  split.
  - simpl. apply Forall_replicate. by split.
  - exists []. simpl. rewrite app_nil_r. split; [done | ]. split; constructor.
Qed.

End Pool.
End ActorPoolFiles.

(** X19. A run of [process_image_actor], in whatever order the actors
    and the caller take their steps: the files opened since the start
    are images of the list and the files saved to are their output
    paths, [{name}_actor{ext}] in prueba2.py and
    [{name}_{filter in lower case}{ext}] in prueba.py; no other file is
    named. *)
Theorem actor_pool_names_only_its_files :
  forall (World Img : Type) (I : Imaging World Img) (U : PyStr.Unicode)
         (image_paths : list string) (selected_filter output_folder : string)
         (m : machine (World:=World) (Img:=Img)) (num_actors : nat),
    (forall (k : nat) (s : ActorPool.state),
        nsteps (ActorPool.step Prueba2.actor_task Prueba2.process_image
                  image_paths selected_filter output_folder) k
          (ActorPool.init m num_actors) s ->
        exists new : list (entry Img),
          calls (ActorPool.mach s) = (calls m ++ new)%list
          /\ Forall (fun path => path ∈ image_paths) (opens new)
          /\ Forall (fun path =>
                       path ∈ map (fun image_path =>
                                     output_path2 image_path output_folder "actor")
                                image_paths)
               (saves new))
    /\ (forall (k : nat) (s : ActorPool.state),
          nsteps (ActorPool.step Prueba.actor_task Prueba.process_image
                    image_paths selected_filter output_folder) k
            (ActorPool.init m num_actors) s ->
          exists new : list (entry Img),
            calls (ActorPool.mach s) = (calls m ++ new)%list
            /\ Forall (fun path => path ∈ image_paths) (opens new)
            /\ Forall (fun path =>
                         path ∈ map (fun image_path =>
                                       output_path1 image_path selected_filter
                                         output_folder)
                                  image_paths)
                 (saves new)).
Proof.
  intros World Img I U image_paths selected_filter output_folder m num_actors. split.
  - intros k s Hk.
    destruct (ActorPoolFiles.actor_files_nsteps
                Prueba2.actor_task Prueba2.process_image Prueba2.source_path target2
                (fun image_path _ output_folder =>
                   output_path2 image_path output_folder "actor")
                ltac:(done) process_image2_keeps_to
                m image_paths selected_filter output_folder k _ s Hk
                (ActorPoolFiles.actor_files_init _ _ m num_actors _ _))
      as (_ & Hnew).
    exact Hnew.
  - intros k s Hk.
    destruct (ActorPoolFiles.actor_files_nsteps
                Prueba.actor_task Prueba.process_image Prueba.source_path target1
                (fun image_path selected_filter output_folder =>
                   output_path1 image_path selected_filter output_folder)
                ltac:(done) process_image1_keeps_to
                m image_paths selected_filter output_folder k _ s Hk
                (ActorPoolFiles.actor_files_init _ _ m num_actors _ _))
      as (_ & Hnew).
    exact Hnew.
Qed.
